(** * munix: the VFS layer, its character drivers and the CPIO reader

    A shallow embedding of the kernel's VFS core (src/lib/drivers) and of the
    libc pieces it rests on (src/lib/core), followed by the properties of the
    specification that were checked against it.

    Conventions of the embedding.
    - The kernel targets i386: [int], [long], [ssize_t] and [loff_t] are 32-bit
      signed, [unsigned] and [size_t] 32-bit unsigned, [char] is signed.  All
      of them are carried as [Z]; a conversion that can change the value is
      written out with [wrap_s32], [wrap_u32], [wrap_s8] or [wrap_u8].
    - A C string is the list of its characters in front of the terminating
      NUL; reading past the end of the list reads the terminator.
    - A pointer into a static array is the index of the slot; a pointer that
      may be NULL is an [option].
    - Logging ([log_result], [pr_debug], ...) writes to the log sink only and
      is left out. *)

From Stdlib Require Import ZArith Lia Bool List String Ascii.
From stdpp Require Import base tactics option list list_numbers.

Local Open Scope Z_scope.

(* ================================================================== *)
(** * Machine integers and error numbers                               *)
(* ================================================================== *)

Module Cint.

Definition wrap_u32 (z : Z) : Z := z mod 2 ^ 32.
Definition wrap_s32 (z : Z) : Z := (z + 2 ^ 31) mod 2 ^ 32 - 2 ^ 31.
Definition wrap_u8 (z : Z) : Z := z mod 2 ^ 8.
Definition wrap_s8 (z : Z) : Z := (z + 2 ^ 7) mod 2 ^ 8 - 2 ^ 7.

Definition in_s32 (z : Z) : Prop := - 2 ^ 31 <= z < 2 ^ 31.
Definition in_u32 (z : Z) : Prop := 0 <= z < 2 ^ 32.
Definition in_char (z : Z) : Prop := - 128 <= z <= 127.

(** MIN and MAX of core/macros.h. *)
Definition MIN (x y : Z) : Z := if x <=? y then x else y.
Definition MAX (x y : Z) : Z := if x >=? y then x else y.

End Cint.

(** core/errno.h, the values used when built for munix. *)
Module Errno.
Definition ENOMEM : Z := 5.
Definition EOVERFLOW : Z := 6.
Definition ENOTSUP : Z := 8.
Definition EINVAL : Z := 9.
Definition EBUSY : Z := 12.
Definition EAGAIN : Z := 15.
Definition EIO : Z := 20.
Definition ENOBUFS : Z := 21.
Definition ENODEV : Z := 26.
Definition ENOENT : Z := 33.
Definition ENOTDIR : Z := 35.
End Errno.

(* ================================================================== *)
(** * core/string.c and core/ctype.h                                   *)
(* ================================================================== *)

Module CString.

(** A string literal as a C string: the [char] values of its bytes. *)
Definition cstr (s : string) : list Z :=
  map (fun c => Cint.wrap_s8 (Z.of_N (N_of_ascii c))) (list_ascii_of_string s).
Arguments cstr s%_string.

(** [*s]: the character under the pointer, the terminator past the end. *)
Definition deref (s : list Z) : Z := hd 0 s.

(** Every element is a [char] other than NUL: the list is exactly what C
    sees in front of the terminator. *)
Definition is_cstr (s : list Z) : Prop :=
  Forall (fun c => c <> 0 /\ -128 <= c <= 127) s.

(** The three-way exit shared by [strcmp] and [strncmp]. *)
Definition cmp_exit (cs ct : Z) : Z :=
  if cs <? ct then -1 else if cs =? ct then 0 else 1.

Fixpoint strlen (s : list Z) : Z :=
  match s with
  | c :: s' => if c =? 0 then 0 else 1 + strlen s'
  | [] => 0
  end.

Fixpoint strcmp (s t : list Z) : Z :=
  match s, t with
  | cs :: s', ct :: t' =>
      if negb (cs =? 0) && negb (ct =? 0) && (cs =? ct) then strcmp s' t'
      else cmp_exit cs ct
  | _, _ => cmp_exit (deref s) (deref t)
  end.

(** [n] is the [size_t] count; the loop runs while it is non-zero. *)
Fixpoint strncmp_loop (n : nat) (s t : list Z) : Z :=
  match n with
  | O => 0
  | S n' =>
      let cs := deref s in
      let ct := deref t in
      if negb (cs =? 0) && negb (ct =? 0) && (cs =? ct)
      then strncmp_loop n' (tl s) (tl t)
      else cmp_exit cs ct
  end.

Definition strncmp (s t : list Z) (n : Z) : Z := strncmp_loop (Z.to_nat n) s t.

(** [strchr]: the offset of the first match, [None] for NULL.  The match is
    tested before the end-of-string test, so the terminator itself matches
    when [ch] is 0. *)
Fixpoint strchr (str : list Z) (ch : Z) : option Z :=
  match str with
  | c :: str' =>
      if c =? Cint.wrap_s8 ch then Some 0
      else if c =? 0 then None
      else option_map Z.succ (strchr str' ch)
  | [] => if 0 =? Cint.wrap_s8 ch then Some 0 else None
  end.

(** [strstr]: the offset of the first match, [None] for NULL.  The loop runs
    only while [*str] is non-zero. *)
Fixpoint strstr_loop (substrlen : Z) (str substr : list Z) : option Z :=
  match str with
  | c :: str' =>
      if c =? 0 then None
      else if strncmp str substr substrlen =? 0 then Some 0
      else option_map Z.succ (strstr_loop substrlen str' substr)
  | [] => None
  end.

Definition strstr (str substr : list Z) : option Z :=
  strstr_loop (Cint.wrap_s32 (strlen substr)) str substr.

(** [memcmp] compares [n] bytes as [unsigned char]. *)
Fixpoint memcmp (s1 s2 : list Z) (n : nat) : Z :=
  match n with
  | O => 0
  | S n' =>
      let b1 := Cint.wrap_u8 (hd 0 s1) in
      let b2 := Cint.wrap_u8 (hd 0 s2) in
      if b1 <? b2 then -1
      else if b1 >? b2 then 1
      else memcmp (tl s1) (tl s2) n'
  end.

End CString.

Module Ctype.
Definition isupper (c : Z) : bool := (65 <=? c) && (c <=? 90).
Definition islower (c : Z) : bool := (97 <=? c) && (c <=? 122).
Definition isprint (c : Z) : bool := (32 <=? c) && (c <=? 126).
Definition tolower (c : Z) : Z := if isupper c then c - 65 + 97 else c.
Definition toupper (c : Z) : Z := if islower c then c - 97 + 65 else c.
End Ctype.

(* ================================================================== *)
(** * core/sprintf.c                                                   *)
(* ================================================================== *)

Module Sprintf.
Import Cint CString.

(** A character constant. *)
Definition chr (s : string) : Z := deref (cstr s).
Arguments chr s%_string.

Definition WP_NONE : Z := -1.
Definition CF_NONE : Z := 0.
Definition CF_UP : Z := 1.
Definition CF_OCTALPREFIX : Z := 2.

(** [struct fmtspec] without its debugging copy of the pattern. *)
Record fmtspec := mk_fmtspec {
  sp_left : bool;
  sp_plus : bool;
  sp_space : bool;
  sp_alt : bool;
  sp_zero : bool;
  sp_w : Z;
  sp_p : Z;
  sp_lenmodsz : Z
}.

Definition spec_init : fmtspec :=
  mk_fmtspec false false false false false WP_NONE WP_NONE 0.

(** One variadic argument: an integer (of any width) or a string pointer. *)
Inductive varg :=
| VInt (z : Z)
| VStr (s : list Z).

(** [va_arg] at an integer type and at [char *].  Reading an argument of the
    other kind is undefined in C; the model yields 0 and the empty string. *)
Definition va_int (args : list varg) : Z * list varg :=
  match args with
  | VInt z :: r => (z, r)
  | _ :: r => (0, r)
  | [] => (0, [])
  end.

Definition va_str (args : list varg) : list Z * list varg :=
  match args with
  | VStr s :: r => (s, r)
  | _ :: r => ([], r)
  | [] => ([], [])
  end.

(** The output buffer is the [char] array the caller owns; [s] and [t] are
    offsets into it.  A character is stored only while [s < t]; the position
    advances either way. *)
Definition outchar (buf : list Z) (s t c : Z) : list Z * Z :=
  ((if s <? t then <[Z.to_nat s := wrap_s8 c]> buf else buf), s + 1).

Fixpoint outpad (buf : list Z) (s t c : Z) (len : nat) : list Z * Z :=
  match len with
  | O => (buf, s)
  | S len' => let '(buf', s') := outchar buf s t c in outpad buf' s' t c len'
  end.

Fixpoint outstr (buf : list Z) (s t : Z) (str : list Z) : list Z * Z :=
  match str with
  | c :: str' =>
      if c =? 0 then (buf, s)
      else let '(buf', s') := outchar buf s t c in outstr buf' s' t str'
  | [] => (buf, s)
  end.

Definition outpadded (buf : list Z) (s t : Z) (spec : fmtspec)
    (prefix valstr : list Z) : list Z * Z :=
  let prefixlen := strlen prefix in
  let valstrlen := strlen valstr in
  let needwidth := wrap_u32 (prefixlen + valstrlen) in
  let w := if sp_w spec =? WP_NONE then 0 else wrap_u32 (sp_w spec) in
  let padlen := Z.to_nat (if w >? needwidth then w - needwidth else 0) in
  let '(buf, s) :=
    if negb (sp_left spec) && negb (sp_zero spec)
    then outpad buf s t (chr " ") padlen else (buf, s) in
  let '(buf, s) := outstr buf s t prefix in
  let '(buf, s) :=
    if negb (sp_left spec) && sp_zero spec
    then outpad buf s t (chr "0") padlen else (buf, s) in
  let '(buf, s) := outstr buf s t valstr in
  if sp_left spec then outpad buf s t (chr " ") padlen else (buf, s).

Definition sign_prefix (spec : fmtspec) (isneg : bool) : list Z :=
  if isneg then cstr "-"
  else if sp_plus spec then cstr "+"
  else if sp_space spec then cstr " "
  else [].

Definition strtoupper (s : list Z) : list Z := map Ctype.toupper s.

Definition hexdigit (d : Z) : Z := if d <? 10 then chr "0" + d else chr "a" + (d - 10).

(** The digit loop of [itoa], least significant digit first.  [uintmax_t] has
    64 bits and every base is at least 2, so 64 rounds always reach zero. *)
Fixpoint itoa_digits (fuel : nat) (uval base : Z) : list Z :=
  match fuel with
  | O => []
  | S fuel' =>
      if uval =? 0 then []
      else hexdigit (uval mod base) :: itoa_digits fuel' (uval / base) base
  end.

Definition itoa (uval base precision flags : Z) : list Z :=
  let d := itoa_digits 64 uval base in
  let d := d ++ replicate (Z.to_nat (precision - Z.of_nat (length d))) (chr "0") in
  let d :=
    if negb (Z.land flags CF_OCTALPREFIX =? 0)
       && match last d with None => true | Some c => negb (c =? chr "0") end
    then d ++ [chr "0"] else d in
  rev d.

(** i386 sizes: char 1, short 2, long 4, long long 8. *)
Definition va_arg_signed (sz : Z) (args : list varg) : Z * list varg :=
  let '(v, args) := va_int args in
  ((if sz =? 0 then wrap_s32 v
    else if sz <=? 1 then wrap_s8 v
    else if sz <=? 2 then (v + 2 ^ 15) mod 2 ^ 16 - 2 ^ 15
    else if sz <=? 4 then wrap_s32 v
    else (v + 2 ^ 63) mod 2 ^ 64 - 2 ^ 63), args).

Definition va_arg_unsigned (sz : Z) (args : list varg) : Z * list varg :=
  let '(v, args) := va_int args in
  ((if sz =? 0 then wrap_u32 v
    else if sz <=? 1 then wrap_u8 v
    else if sz <=? 2 then v mod 2 ^ 16
    else if sz <=? 4 then wrap_u32 v
    else v mod 2 ^ 64), args).

Definition format_str (buf : list Z) (s t : Z) (spec : fmtspec)
    (args : list varg) : list Z * Z * list varg :=
  let '(str, args) := va_str args in
  if negb (sp_p spec =? WP_NONE)
  then (outpadded buf s t spec [] (take (Z.to_nat (sp_p spec)) str), args)
  else (outpadded buf s t spec [] str, args).

Definition format_char (buf : list Z) (s t : Z) (spec : fmtspec)
    (args : list varg) : list Z * Z * list varg :=
  let '(v, args) := va_int args in
  let c := wrap_s8 (wrap_u8 v) in
  (outpadded buf s t spec [] [c], args).

Definition format_signed (buf : list Z) (s t : Z) (spec : fmtspec) (base : Z)
    (args : list varg) : list Z * Z * list varg :=
  let '(val, args) := va_arg_signed (sp_lenmodsz spec) args in
  let sign := sign_prefix spec (val <? 0) in
  let val := if val <? 0 then - val else val in
  let spec :=
    if sp_p spec =? WP_NONE
    then mk_fmtspec (sp_left spec) (sp_plus spec) (sp_space spec)
           (sp_alt spec) (sp_zero spec) (sp_w spec) 1 (sp_lenmodsz spec)
    else mk_fmtspec (sp_left spec) (sp_plus spec) (sp_space spec)
           (sp_alt spec) false (sp_w spec) (sp_p spec) (sp_lenmodsz spec) in
  (outpadded buf s t spec sign (itoa (val mod 2 ^ 64) base (sp_p spec) CF_NONE),
   args).

Definition format_unsigned (buf : list Z) (s t : Z) (spec : fmtspec)
    (base flags : Z) (args : list varg) : list Z * Z * list varg :=
  let '(val, args) := va_arg_unsigned (sp_lenmodsz spec) args in
  let octal := sp_alt spec && (base =? 8) in
  let flags := if octal then Z.lor flags CF_OCTALPREFIX else flags in
  let prefixbuf :=
    if octal then []
    else if sp_alt spec && (base =? 2) && negb (val =? 0) then cstr "0b"
    else if sp_alt spec && (base =? 16) && negb (val =? 0) then cstr "0x"
    else [] in
  let spec :=
    if sp_p spec =? WP_NONE
    then mk_fmtspec (sp_left spec) (sp_plus spec) (sp_space spec)
           (sp_alt spec) (sp_zero spec) (sp_w spec) 1 (sp_lenmodsz spec)
    else mk_fmtspec (sp_left spec) (sp_plus spec) (sp_space spec)
           (sp_alt spec) false (sp_w spec) (sp_p spec) (sp_lenmodsz spec) in
  let digitbuf := itoa val base (sp_p spec) flags in
  let up := negb (Z.land flags CF_UP =? 0) in
  (outpadded buf s t spec
     (if up then strtoupper prefixbuf else prefixbuf)
     (if up then strtoupper digitbuf else digitbuf), args).

Definition format_pointer (buf : list Z) (s t : Z) (spec : fmtspec)
    (args : list varg) : list Z * Z * list varg :=
  let uspec := mk_fmtspec false false false true false (sp_w spec) (sp_p spec) 4 in
  format_unsigned buf s t uspec 16 CF_NONE args.

(** Parser state of [snprintf_impl] and [process_conversion]: copying the
    literal characters of the pattern, or inside a conversion, with the spec
    read so far, whether [wp] points at the precision, and [zero_is_flag]. *)
Inductive pstate :=
| Literal
| Conversion (spec : fmtspec) (wp_is_p : bool) (zero_is_flag : bool).

Definition with_left (spec : fmtspec) : fmtspec :=
  mk_fmtspec true (sp_plus spec) (sp_space spec) (sp_alt spec) (sp_zero spec)
    (sp_w spec) (sp_p spec) (sp_lenmodsz spec).
Definition with_plus (spec : fmtspec) : fmtspec :=
  mk_fmtspec (sp_left spec) true (sp_space spec) (sp_alt spec) (sp_zero spec)
    (sp_w spec) (sp_p spec) (sp_lenmodsz spec).
Definition with_space (spec : fmtspec) : fmtspec :=
  mk_fmtspec (sp_left spec) (sp_plus spec) true (sp_alt spec) (sp_zero spec)
    (sp_w spec) (sp_p spec) (sp_lenmodsz spec).
Definition with_alt (spec : fmtspec) : fmtspec :=
  mk_fmtspec (sp_left spec) (sp_plus spec) (sp_space spec) true (sp_zero spec)
    (sp_w spec) (sp_p spec) (sp_lenmodsz spec).
Definition with_zero (spec : fmtspec) : fmtspec :=
  mk_fmtspec (sp_left spec) (sp_plus spec) (sp_space spec) (sp_alt spec) true
    (sp_w spec) (sp_p spec) (sp_lenmodsz spec).
Definition with_w (spec : fmtspec) (v : Z) : fmtspec :=
  mk_fmtspec (sp_left spec) (sp_plus spec) (sp_space spec) (sp_alt spec)
    (sp_zero spec) v (sp_p spec) (sp_lenmodsz spec).
Definition with_p (spec : fmtspec) (v : Z) : fmtspec :=
  mk_fmtspec (sp_left spec) (sp_plus spec) (sp_space spec) (sp_alt spec)
    (sp_zero spec) (sp_w spec) v (sp_lenmodsz spec).
Definition with_lenmodsz (spec : fmtspec) (v : Z) : fmtspec :=
  mk_fmtspec (sp_left spec) (sp_plus spec) (sp_space spec) (sp_alt spec)
    (sp_zero spec) (sp_w spec) (sp_p spec) v.

(** [*wp] and [*wp = v]. *)
Definition get_wp (spec : fmtspec) (wp_is_p : bool) : Z :=
  if wp_is_p then sp_p spec else sp_w spec.
Definition set_wp (spec : fmtspec) (wp_is_p : bool) (v : Z) : fmtspec :=
  if wp_is_p then with_p spec v else with_w spec v.

(** The digit case of the switch. *)
Definition add_digit (spec : fmtspec) (wp_is_p : bool) (ch : Z) : fmtspec :=
  let v := get_wp spec wp_is_p in
  let v := if v =? WP_NONE then 0 else v in
  set_wp spec wp_is_p (wrap_s32 (v * 10 + (ch - chr "0"))).

(** The star case of the switch. *)
Definition star_arg (spec : fmtspec) (wp_is_p : bool) (v : Z) : fmtspec :=
  let v := wrap_s32 v in
  if wp_is_p then (if v <? 0 then with_p spec WP_NONE else with_p spec v)
  else (if v <? 0 then with_w (with_left spec) (wrap_s32 (- v)) else with_w spec v).

(** The main loop of [snprintf_impl] with [process_conversion] inlined: one
    round per character of the pattern.  The result is the buffer and the new
    [s], or [None] for the NULL an unknown conversion character yields. *)
Fixpoint format_loop (fmt : list Z) (st : pstate) (args : list varg)
    (buf : list Z) (s t : Z) {struct fmt} : list Z * option Z :=
  match st with
  | Literal =>
      match fmt with
      | [] => (buf, Some s)
      | c :: fmt' =>
          if c =? 0 then (buf, Some s)
          else if c =? chr "%"
          then format_loop fmt' (Conversion spec_init false true) args buf s t
          else let '(buf, s) := outchar buf s t c in
               format_loop fmt' Literal args buf s t
      end
  | Conversion spec wp zf =>
      match fmt with
      | [] => (buf, None)
      | ch :: fmt' =>
          let continue spec wp zf :=
            format_loop fmt' (Conversion spec wp zf) args buf s t in
          let finish (r : list Z * Z * list varg) :=
            let '(buf, s, args) := r in format_loop fmt' Literal args buf s t in
          if ch =? chr "-" then continue (with_left spec) wp zf
          else if ch =? chr "+" then continue (with_plus spec) wp zf
          else if ch =? chr " " then continue (with_space spec) wp zf
          else if ch =? chr "#" then continue (with_alt spec) wp zf
          else if (ch =? chr "0") && zf then continue (with_zero spec) wp false
          else if (chr "0" <=? ch) && (ch <=? chr "9")
          then continue (add_digit spec wp ch) wp false
          else if ch =? chr "*"
          then let '(v, args) := va_int args in
               format_loop fmt' (Conversion (star_arg spec wp v) wp zf) args buf s t
          else if ch =? chr "." then continue (with_p spec 0) true false
          else if ch =? chr "h"
          then match fmt' with
               | n :: fmt'' =>
                   if n =? chr "h"
                   then format_loop fmt'' (Conversion (with_lenmodsz spec 1) wp zf)
                          args buf s t
                   else continue (with_lenmodsz spec 2) wp zf
               | [] => continue (with_lenmodsz spec 2) wp zf
               end
          else if ch =? chr "l"
          then match fmt' with
               | n :: fmt'' =>
                   if n =? chr "l"
                   then format_loop fmt'' (Conversion (with_lenmodsz spec 8) wp zf)
                          args buf s t
                   else continue (with_lenmodsz spec 4) wp zf
               | [] => continue (with_lenmodsz spec 4) wp zf
               end
          else if ch =? chr "j" then continue (with_lenmodsz spec 8) wp zf
          else if ch =? chr "z" then continue (with_lenmodsz spec 4) wp zf
          else if ch =? chr "t" then continue (with_lenmodsz spec 4) wp zf
          else if ch =? chr "L" then continue (with_lenmodsz spec 12) wp zf
          else if ch =? chr "%" then finish (outchar buf s t (chr "%"), args)
          else if ch =? chr "s" then finish (format_str buf s t spec args)
          else if ch =? chr "c" then finish (format_char buf s t spec args)
          else if (ch =? chr "d") || (ch =? chr "i")
          then finish (format_signed buf s t spec 10 args)
          else if ch =? chr "u" then finish (format_unsigned buf s t spec 10 CF_NONE args)
          else if ch =? chr "o" then finish (format_unsigned buf s t spec 8 CF_NONE args)
          else if ch =? chr "x" then finish (format_unsigned buf s t spec 16 CF_NONE args)
          else if ch =? chr "X" then finish (format_unsigned buf s t spec 16 CF_UP args)
          else if ch =? chr "b" then finish (format_unsigned buf s t spec 2 CF_NONE args)
          else if ch =? chr "B" then finish (format_unsigned buf s t spec 2 CF_UP args)
          else if ch =? chr "p" then finish (format_pointer buf s t spec args)
          else (buf, None)
      end
  end.

(** [snprintf(buf + s, n, fmt, args...)]: the buffer afterwards and the
    result.  The guard against [s + n] wrapping around the address space only
    matters for [n = SIZE_MAX] and is not modelled. *)
Definition snprintf (buf : list Z) (s n : Z) (fmt : list Z) (args : list varg)
    : list Z * Z :=
  let t := s + n in
  match format_loop fmt Literal args buf s t with
  | (buf, None) => (buf, - Errno.ENOTSUP)
  | (buf, Some s') =>
      let buf :=
        if n =? 0 then buf
        else if s' <? t then <[Z.to_nat s' := 0]> buf
        else <[Z.to_nat (t - 1) := 0]> buf in
      (buf, wrap_s32 (s' - s))
  end.

Definition vsnprintf := snprintf.

(** One character of a digit string as [strtoupper] leaves it when [up] is
    set, and as it is otherwise. *)
Definition upcase (up : bool) (c : Z) : Z := if up then Ctype.toupper c else c.

(** The [struct fmtspec] that [process_conversion] has parsed at the [x] of
    ["%08x"]. *)
Definition spec_08 : fmtspec := mk_fmtspec false false false false true 8 WP_NONE 0.

(** [buf'] is [buf] with bytes changed at offsets from [s] up to, not
    including, [t] at most. *)
Definition within (buf : list Z) (s t : Z) (buf' : list Z) : Prop :=
  length buf' = length buf
  /\ forall i : nat, Z.of_nat i < s \/ t <= Z.of_nat i -> buf' !! i = buf !! i.



End Sprintf.

(* ================================================================== *)
(** * core/path.c                                                      *)
(* ================================================================== *)

Module Path.
Import Cint CString Sprintf.

(** BUFREM of core/macros.h. *)
Definition BUFREM (pos end_ : Z) : Z := if pos <? end_ then end_ - pos else 0.

(** [dst] is the destination array (the pointer [dst] is offset 0 of it),
    [a] and [b] may be NULL.  [*(pos - 1)] is read from the array; where [pos]
    has run past the end of it the byte is not the program's to know and the
    model reads 0. *)
Definition path_join (dst : list Z) (dstsz : Z) (a b : option (list Z))
    : list Z * Z :=
  let pos := 0 in
  let end_ := 0 + dstsz in
  let path_isabs :=
    match b with Some b' => deref b' =? chr "/" | None => false end in
  let '(dst, pos) :=
    match a with
    | Some a' =>
        if negb path_isabs then
          let '(dst, n) := snprintf dst pos (BUFREM pos end_) (cstr "%s") [VStr a'] in
          let pos := pos + n in
          if bool_decide (is_Some b) && negb (pos =? 0)
             && negb (default 0 (dst !! Z.to_nat (pos - 1)) =? chr "/")
          then
            let '(dst, n) :=
              snprintf dst pos (BUFREM pos end_) (cstr "%s") [VStr (cstr "/")] in
            (dst, pos + n)
          else (dst, pos)
        else (dst, pos)
    | None => (dst, pos)
    end in
  match b with
  | Some b' =>
      let '(dst, n) := snprintf dst pos (BUFREM pos end_) (cstr "%s") [VStr b'] in
      (dst, wrap_s32 (pos + n))
  | None => (dst, wrap_s32 pos)
  end.

(** The result is the offset into [path] of the returned pointer, [None] for
    NULL; a NULL [prefix] returns [path] itself. *)
Definition path_strip_prefix (path : option (list Z)) (prefix : option (list Z))
    : option Z :=
  match path with
  | None => None
  | Some path' =>
      match prefix with
      | None => Some 0
      | Some prefix' =>
          let prefixlen := wrap_s32 (strlen prefix') in
          if negb (strncmp path' prefix' (wrap_u32 prefixlen) =? 0) then None
          else
            let pos := prefixlen in
            if deref (drop (Z.to_nat pos) path') =? chr "/" then Some (pos + 1)
            else Some pos
      end
  end.

(** The scan of [path_basename]; [pos], [prevslash] and [lastslash] are
    offsets into [path]. *)
Fixpoint basename_scan (path : list Z) (pos prevslash lastslash : Z) : Z * Z * Z :=
  match path with
  | c :: path' =>
      if c =? 0 then (pos, prevslash, lastslash)
      else if c =? chr "/" then basename_scan path' (pos + 1) lastslash (pos + 1)
      else basename_scan path' (pos + 1) prevslash lastslash
  | [] => (pos, prevslash, lastslash)
  end.

(** [path] may be NULL; [nlen] is an [int]. *)
Definition path_basename (dst : list Z) (dstsz : Z) (path : option (list Z))
    : list Z * Z :=
  match path with
  | None => (dst, 0)
  | Some path' =>
      if (deref path' =? chr "/") && (deref (drop 1 path') =? 0)
      then snprintf dst 0 dstsz (cstr "/") []
      else
        let '(pend, prevslash, lastslash) := basename_scan path' 0 0 0 in
        let '(nstart, nend) :=
          if lastslash =? pend then (prevslash, pend - 1) else (lastslash, pend) in
        let nlen := wrap_s32 (nend - nstart) in
        snprintf dst 0 dstsz (cstr "%.*s")
          [VInt nlen; VStr (drop (Z.to_nat nstart) path')]
  end.

(** The C string that starts at offset [i] of a character array. *)
Fixpoint string_at_loop (buf : list Z) : list Z :=
  match buf with
  | c :: buf' => if c =? 0 then [] else c :: string_at_loop buf'
  | [] => []
  end.

Definition string_at (buf : list Z) (i : Z) : list Z :=
  string_at_loop (drop (Z.to_nat i) buf).

(** The join as the specification words it: [b] itself when [b] is absolute;
    otherwise [a], then a slash iff [a] is non-empty and does not already end
    with one, then [b]. *)
Definition join_sep (a : list Z) : list Z :=
  match last a with
  | Some c => if c =? chr "/" then [] else [chr "/"]
  | None => []
  end.

Definition join_spec (a b : list Z) : list Z :=
  if deref b =? chr "/" then b else a ++ join_sep a ++ b.

(** Two slashes in a row at offsets [i] and [i + 1] of a string. *)
Definition double_slash_at (r : list Z) (i : nat) : Prop :=
  r !! i = Some (chr "/") /\ r !! S i = Some (chr "/").

End Path.

(* ================================================================== *)
(** * drivers/vfs.h and drivers/vfs_file.c                             *)
(* ================================================================== *)

Module Vfs.
Import Cint Errno.

Definition SEEK_SET : Z := 1.
Definition SEEK_CUR : Z := 2.
Definition SEEK_END : Z := 3.

Definition DEBUGSTR_MAX : Z := 64.
Definition PATH_MAX : Z := 128.

(** [enum dirtype]. *)
Definition DT_UNKNOWN : Z := 0.
Definition DT_CHR : Z := 1.
Definition DT_DIR : Z := 2.
Definition DT_REG : Z := 3.

(** [enum chrdev_majors] and [enum fs_types] of drivers/devices.h. *)
Definition MAJ_NONE : Z := 0.
Definition MAJ_MEM : Z := 1.
Definition MAJ_SERIAL : Z := 2.
Definition MAJ_TTY : Z := 3.
Definition MAJ_RAMDISK : Z := 4.
Definition MAJORS_MAX : Z := 5.

Definition FS_NONE : Z := 0.
Definition FS_DEV : Z := 1.
Definition FS_SYS : Z := 2.
Definition FS_CPIO : Z := 3.
Definition FSTYPES_MAX : Z := 4.

(** core/types.h: device numbers ([dev_t] is [unsigned int]). *)
Definition MAKEDEV (maj min : Z) : Z := Z.lor (Z.shiftl maj 8) min.
Definition MAJOR (dev : Z) : Z := Z.shiftr dev 8.
Definition MINOR (dev : Z) : Z := Z.land dev 255.

Record fstat := mk_fstat {
  f_ino : Z;
  f_type : Z;
  f_rdev : Z;
  f_size : Z
}.

Definition set_f_size (st : fstat) (v : Z) : fstat :=
  mk_fstat (f_ino st) (f_type st) (f_rdev st) v.

(** core/list.h: a pointer to a [struct list_head] of the mount list is the
    free-standing head [vfs_mount_list] or the [s_mount_list] member of a slot
    of [superblocks]. *)
Inductive list_ptr :=
| LHead
| LSb (i : nat).

#[global] Instance list_ptr_eq_dec : EqDecision list_ptr.
Proof. solve_decision. Defined.

Record list_head := mk_list_head {
  next : option list_ptr;
  prev : option list_ptr
}.

Section Files.

(** [fops] and [fsops] are the types of the pointers to [struct
    file_operations] and [struct fs_operations] tables; [W] is the state the
    drivers keep outside the file (their static arrays, the hardware). *)
Context {W fops fsops : Type}.

(** [struct superblock]; [s_mountpath] is the [char] array of [PATH_MAX]
    bytes, [s_name] is only printed. *)
Record superblock := mk_superblock {
  s_root_ino : Z;
  s_bdev : Z;
  s_mountpath : list Z;
  s_mount_list : list_head;
  s_op : option fsops;
  s_driver_data : option nat
}.

(** [struct file]; [f_driver_data] points into a static array of the driver
    and is the index of the slot.  [f_inode] is never used. *)
Record file := mk_file {
  f_stat : fstat;
  f_pos : Z;
  f_op : option fops;
  f_driver_data : option nat
}.

(** [(struct file){}]. *)
Definition file_zero : file := mk_file (mk_fstat 0 DT_UNKNOWN 0 0) 0 None None.

Definition set_f_pos (f : file) (v : Z) : file :=
  mk_file (f_stat f) v (f_op f) (f_driver_data f).
Definition set_f_stat (f : file) (v : fstat) : file :=
  mk_file v (f_pos f) (f_op f) (f_driver_data f).
Definition set_f_op (f : file) (v : option fops) : file :=
  mk_file (f_stat f) (f_pos f) v (f_driver_data f).
Definition set_f_driver_data (f : file) (v : option nat) : file :=
  mk_file (f_stat f) (f_pos f) (f_op f) v.

(** [struct file_operations], the entry points the modelled code calls; an
    absent entry is [None].
    - [read f count off w] yields the state, the bytes stored to [dst], the
      new [*off] and the result.  No driver of the kernel writes to [*f] in
      its [read] or [write], so the file is passed by value and [*off], which
      [file_read] aliases to [f->f_pos], is threaded on its own.
    - [write f src count off w] yields the state, the new [*off] and the
      result.
    - [open_dev], [release] and [lseek] may write to the file.
    Buffers handed over as [void *] hold bytes, 0 to 255. *)
Record file_operations := mk_file_operations {
  open_dev : option (file -> Z -> W -> W * file * Z);
  open_path : option (file -> superblock -> list Z -> W -> W * file * Z);
  release : option (file -> W -> W * file * Z);
  read : option (file -> Z -> Z -> W -> W * list Z * Z * Z);
  write : option (file -> list Z -> Z -> Z -> W -> W * Z * Z);
  lseek : option (file -> Z -> Z -> W -> W * file * Z)
}.

(** [struct fs_operations]. *)
Record fs_operations := mk_fs_operations {
  sb_open_hook : option (superblock -> W -> W * superblock * Z);
  sb_release_hook : option (superblock -> W -> W * superblock * Z);
  fs_file_ops : option fops
}.

Context `{EqDecision fops}.
Variable ops : fops -> file_operations.

(** ** Character-driver registration *)

Definition chrdev_register_inner (chrdev_drivers : list (option fops))
    (maj : Z) (fops_ : fops) : list (option fops) * Z :=
  if (maj <=? 0) || (MAJORS_MAX <=? maj) then (chrdev_drivers, - EINVAL)
  else
    match chrdev_drivers !! Z.to_nat maj with
    | Some (Some cur) =>
        (chrdev_drivers, if decide (cur = fops_) then 0 else - EBUSY)
    | _ => (<[Z.to_nat maj := Some fops_]> chrdev_drivers, 0)
    end.

(** The function ends in [return maj;], converted from [unsigned] to [int]. *)
Definition chrdev_register (chrdev_drivers : list (option fops))
    (maj : Z) (fops_ : fops) : list (option fops) * Z :=
  let '(chrdev_drivers, res) := chrdev_register_inner chrdev_drivers maj fops_ in
  (chrdev_drivers, wrap_s32 maj).

(** ** Opening and closing *)

Definition file_open_dev_inner (chrdev_drivers : list (option fops))
    (file_ : file) (rdev : Z) (w : W) : W * file * Z :=
  let maj := MAJOR rdev in
  let min := MINOR rdev in
  if (maj <=? 0) || (MAJORS_MAX <=? maj) then (w, file_, - ENODEV)
  else
    match chrdev_drivers !! Z.to_nat maj with
    | Some (Some p) =>
        let file_ :=
          mk_file (mk_fstat (f_ino (f_stat file_)) DT_CHR rdev
                     (f_size (f_stat file_)))
            (f_pos file_) (Some p) (f_driver_data file_) in
        match open_dev (ops p) with
        | None => (w, file_, 0)
        | Some hook => hook file_ min w
        end
    | _ => (w, file_, - ENODEV)
    end.

Definition file_open_dev (chrdev_drivers : list (option fops))
    (rdev : Z) (w : W) : W * file * Z :=
  file_open_dev_inner chrdev_drivers file_zero rdev w.

Definition file_close (file_ : file) (w : W) : W * file * Z :=
  match f_op file_ with
  | Some p =>
      match release (ops p) with
      | Some hook => hook file_ w
      | None => (w, file_, 0)
      end
  | None => (w, file_, 0)
  end.

(** ** Reading, writing and seeking

    [dst] and [src] are taken to be non-null. *)

Definition file_write (f : file) (src : list Z) (count : Z) (w : W)
    : W * file * Z :=
  match f_op f with
  | Some p =>
      match write (ops p) with
      | Some hook =>
          if count =? 0 then (w, f, 0)
          else let '(w, off, res) := hook f src count (f_pos f) w in
               (w, set_f_pos f off, res)
      | None => (w, f, - EINVAL)
      end
  | None => (w, f, - EINVAL)
  end.

Definition file_pwrite (f : file) (src : list Z) (count off : Z) (w : W)
    : W * Z :=
  match f_op f with
  | Some p =>
      match write (ops p) with
      | Some hook =>
          if count =? 0 then (w, 0)
          else let '(w, _, res) := hook f src count off w in (w, res)
      | None => (w, - EINVAL)
      end
  | None => (w, - EINVAL)
  end.

Definition file_read (f : file) (count : Z) (w : W) : W * file * list Z * Z :=
  match f_op f with
  | Some p =>
      match read (ops p) with
      | Some hook =>
          if count =? 0 then (w, f, [], 0)
          else let '(w, dst, off, res) := hook f count (f_pos f) w in
               (w, set_f_pos f off, dst, res)
      | None => (w, f, [], - EINVAL)
      end
  | None => (w, f, [], - EINVAL)
  end.

Definition file_pread (f : file) (count off : Z) (w : W) : W * list Z * Z :=
  match f_op f with
  | Some p =>
      match read (ops p) with
      | Some hook =>
          if count =? 0 then (w, [], 0)
          else let '(w, dst, _, res) := hook f count off w in (w, dst, res)
      | None => (w, [], - EINVAL)
      end
  | None => (w, [], - EINVAL)
  end.

(** [res] is an [int] that receives the hook's [loff_t]; both have 32 bits.
    The additions are done in [loff_t] and wrap. *)
Definition file_lseek (f : file) (off whence : Z) (w : W) : W * file * Z :=
  match f_op f with
  | None => (w, f, - EINVAL)
  | Some p =>
      let '(w, f, res) :=
        match lseek (ops p) with
        | Some hook => let '(w, f, r) := hook f off whence w in (w, f, wrap_s32 r)
        | None => (w, f, 0)
        end in
      if res <? 0 then (w, f, res)
      else if whence =? SEEK_SET then (w, set_f_pos f off, res)
      else if whence =? SEEK_CUR then (w, set_f_pos f (wrap_s32 (f_pos f + off)), res)
      else if whence =? SEEK_END
      then (w, set_f_pos f (wrap_s32 (f_size (f_stat f) + off)), res)
      else (w, f, - EINVAL)
  end.

(** ** Formatted output

    [file_vprintf] formats into a stack buffer of [bufsz] bytes and loops
    until the output fits; [fuel] bounds the rounds and [None] is a loop that
    has not ended. *)
Definition DEFAULT_BUFSZ : Z := 256.

Fixpoint file_vprintf_loop (fuel : nat) (bufsz : Z) (f : file) (fmt : list Z)
    (va : list Sprintf.varg) (w : W) : option (W * file * Z) :=
  match fuel with
  | O => None
  | S fuel' =>
      let '(buf, len) :=
        Sprintf.vsnprintf (replicate (Z.to_nat bufsz) 0) 0 bufsz fmt va in
      if len <? 0 then Some (w, f, len)
      else if len <? bufsz then Some (file_write f (take (Z.to_nat len) buf) len w)
      else file_vprintf_loop fuel' (len + 1) f fmt va w
  end.

(** The second round formats the same arguments into [len + 1] bytes, so two
    rounds are all the loop can take. *)
Definition file_vprintf (f : file) (fmt : list Z) (va : list Sprintf.varg)
    (w : W) : option (W * file * Z) :=
  file_vprintf_loop 2 DEFAULT_BUFSZ f fmt va w.

Definition file_printf := file_vprintf.

End Files.

Arguments file : clear implicits.
Arguments superblock : clear implicits.
Arguments file_operations : clear implicits.
Arguments fs_operations : clear implicits.

(** ** drivers/vfs_fs.c: filesystem-driver registration *)

Section FsRegistry.
Context {fsops : Type} `{EqDecision fsops}.

Definition fs_register_inner (fs_drivers : list (option fsops))
    (fstypeid : Z) (ops : fsops) : list (option fsops) * Z :=
  if (fstypeid <=? 0) || (FSTYPES_MAX <=? fstypeid) then (fs_drivers, - EINVAL)
  else
    match fs_drivers !! Z.to_nat fstypeid with
    | Some (Some cur) => (fs_drivers, if decide (cur = ops) then 0 else - EBUSY)
    | _ => (<[Z.to_nat fstypeid := Some ops]> fs_drivers, 0)
    end.

Definition fs_register (fs_drivers : list (option fsops))
    (fstypeid : Z) (ops : fsops) : list (option fsops) * Z :=
  let '(fs_drivers, res) := fs_register_inner fs_drivers fstypeid ops in
  (fs_drivers, res).

End FsRegistry.

End Vfs.

(* ================================================================== *)
(** * drivers/chrdev/ramdisk.c                                         *)
(* ================================================================== *)

Module Ramdisk.
Import Cint Errno Vfs.

Definition RAMDISKS_MAX : Z := 4.

(** [struct ramdisk]: [addr] is an address of physical memory, [None] for
    NULL; the name is only printed. *)
Record ramdisk := mk_ramdisk {
  addr : option Z;
  rd_size : Z
}.

(** The driver's state: memory, a byte per address, and the static array
    [ramdisks]. *)
Record rd_state := mk_rd_state {
  mem : Z -> Z;
  ramdisks : list ramdisk
}.

Definition ramdisks_init : list ramdisk :=
  replicate (Z.to_nat RAMDISKS_MAX) (mk_ramdisk None 0).

(** The first slot whose [addr] is NULL, searched from slot [i]. *)
Fixpoint ramdisk_free_slot (rds : list ramdisk) (i : Z) : option Z :=
  match rds with
  | rd :: rds' =>
      match addr rd with
      | None => Some i
      | Some _ => ramdisk_free_slot rds' (i + 1)
      end
  | [] => None
  end.

Definition ramdisk_create_inner (addr_ : option Z) (size : Z) (w : rd_state)
    : rd_state * Z :=
  match addr_ with
  | None => (w, - EINVAL)
  | Some a =>
      if size =? 0 then (w, - EINVAL)
      else
        match ramdisk_free_slot (ramdisks w) 0 with
        | Some i =>
            (mk_rd_state (mem w)
               (<[Z.to_nat i := mk_ramdisk (Some a) size]> (ramdisks w)), i)
        | None => (w, - ENOMEM)
        end
  end.

Definition ramdisk_create := ramdisk_create_inner.

Section Driver.
Context {fops fsops : Type}.

Definition ramdisk_open_dev (file_ : file fops) (min : Z) (w : rd_state)
    : rd_state * file fops * Z :=
  let disk_no := min in
  match (if disk_no >=? RAMDISKS_MAX then None
         else ramdisks w !! Z.to_nat disk_no) with
  | Some (mk_ramdisk (Some _) size) =>
      let file_ := set_f_driver_data file_ (Some (Z.to_nat disk_no)) in
      (w, set_f_stat file_ (set_f_size (f_stat file_) (wrap_s32 size)), 0)
  | _ => (w, file_, - ENODEV)
  end.

(** The copy loop of [ramdisk_read]; [base] is [rd->addr].  Every round
    advances [*off] towards [f_size], so [f_size - *off] rounds are all it
    can take, and with none left the loop test has just failed. *)
Fixpoint ramdisk_read_loop (fuel : nat) (mem_ : Z -> Z) (base size count : Z)
    (i off : Z) (dst : list Z) : list Z * Z * Z :=
  match fuel with
  | O => (dst, off, i)
  | S fuel' =>
      if (i <? count) && (off <? size)
      then ramdisk_read_loop fuel' mem_ base size count (i + 1) (off + 1)
             (dst ++ [wrap_u8 (mem_ (base + off))])
      else (dst, off, i)
  end.

(** [rd->addr] of the ramdisk the file was opened on. *)
Definition rd_base (f : file fops) (w : rd_state) : Z :=
  default 0 (f_driver_data f ≫= fun i => ramdisks w !! i ≫= addr).

Definition ramdisk_read (f : file fops) (count off : Z) (w : rd_state)
    : rd_state * list Z * Z * Z :=
  let off := if off <? 0 then 0 else off in
  if off >=? f_size (f_stat f) then (w, [], off, 0)
  else
    let '(dst, off, i) :=
      ramdisk_read_loop (Z.to_nat (f_size (f_stat f) - off)) (mem w)
        (rd_base f w) (f_size (f_stat f)) count 0 off [] in
    (w, dst, off, wrap_s32 i).

Definition ramdisk_ops : file_operations rd_state fops fsops :=
  mk_file_operations (Some ramdisk_open_dev) None None (Some ramdisk_read) None None.

End Driver.

(** The bytes of memory at the offsets [off], ..., [off + n - 1] from
    [base]. *)
Definition bytes_at (mem_ : Z -> Z) (base off n : Z) : list Z :=
  map (fun k => Cint.wrap_u8 (mem_ (base + k))) (seqZ off n).

End Ramdisk.

(* ================================================================== *)
(** * drivers/chrdev/serial.c                                          *)
(* ================================================================== *)

Module Serial.
Import Cint Errno Vfs.

Definition SRL_ICRNL : Z := 1.
Definition SRL_OCRNL : Z := 2.

Definition POFF_DATA : Z := 0.
Definition POFF_MODEMCTL : Z := 4.
Definition POFF_LINESTAT : Z := 5.
Definition LS_DR : Z := 1.
Definition LS_THRE : Z := 32.
Definition MC_DTR : Z := 1.
Definition MC_RTS : Z := 2.
Definition MC_OUT1 : Z := 4.
Definition MC_OUT2 : Z := 8.
Definition MC_LOOP : Z := 16.

(** [PORT_NOS], by index. *)
Definition PORT_NOS : list Z := [1016; 760].

(** The hardware behind [inb] and [outb] is not part of the kernel.  It is
    taken to be a 16550 UART at each of the two port bases: bytes that
    arrived on the line wait in [rx], bytes sent are logged in [tx] with the
    last one sent first, the transmitter is always ready, and in loopback
    mode a byte sent is received back.  Other ports read 0 and ignore
    writes. *)
Record uart := mk_uart {
  rx : list Z;
  tx : list Z;
  modemctl : Z
}.

Definition uart_init : uart := mk_uart [] [] 0.

Record uarts := mk_uarts {
  com1 : uart;
  com2 : uart
}.

(** [struct serial]; [port] 0 marks a unit that was never opened. *)
Record serial := mk_serial {
  port : Z;
  flags : Z
}.

Record serial_state := mk_serial_state {
  serials : list serial;
  hardware : uarts
}.

Definition serials_init : list serial := [mk_serial 0 0; mk_serial 0 0].

(** The bytes a UART has sent, in the order they were sent. *)
Definition sent (u : uart) : list Z := rev (tx u).

(** COM1 with [rx_] waiting and [tx_] sent, the rest of the hardware as in
    [hw]. *)
Definition com1_with (hw : uarts) (rx_ tx_ : list Z) : uarts :=
  mk_uarts (mk_uart rx_ tx_ (modemctl (com1 hw))) (com2 hw).

(** The UART whose eight registers start at [base]. *)
Definition uart_at (hw : uarts) (base : Z) : option uart :=
  if base =? 1016 then Some (com1 hw)
  else if base =? 760 then Some (com2 hw)
  else None.

Definition set_uart (hw : uarts) (base : Z) (u : uart) : uarts :=
  if base =? 1016 then mk_uarts u (com2 hw)
  else if base =? 760 then mk_uarts (com1 hw) u
  else hw.

Definition inb (p : Z) (hw : uarts) : Z * uarts :=
  let reg := Z.land p 7 in
  let base := p - reg in
  match uart_at hw base with
  | None => (0, hw)
  | Some u =>
      if reg =? POFF_LINESTAT
      then (Z.lor LS_THRE (match rx u with [] => 0 | _ => LS_DR end), hw)
      else if reg =? POFF_DATA
      then match rx u with
           | b :: rest =>
               (wrap_u8 b, set_uart hw base (mk_uart rest (tx u) (modemctl u)))
           | [] => (0, hw)
           end
      else (0, hw)
  end.

Definition outb (val p : Z) (hw : uarts) : uarts :=
  let reg := Z.land p 7 in
  let base := p - reg in
  match uart_at hw base with
  | None => hw
  | Some u =>
      if reg =? POFF_DATA
      then if Z.land (modemctl u) MC_LOOP =? 0
           then set_uart hw base (mk_uart (rx u) (wrap_u8 val :: tx u) (modemctl u))
           else set_uart hw base (mk_uart (rx u ++ [wrap_u8 val]) (tx u) (modemctl u))
      else if reg =? POFF_MODEMCTL
      then set_uart hw base (mk_uart (rx u) (tx u) (wrap_u8 val))
      else hw
  end.

Definition check_linestat (s : serial) (bits : Z) (hw : uarts) : Z :=
  Z.land (fst (inb (port s + POFF_LINESTAT) hw)) bits.

Definition serial_readch (s : serial) (hw : uarts) : Z * uarts :=
  if check_linestat s LS_DR hw =? 0 then (- EAGAIN, hw)
  else inb (port s) hw.

(** The wait loop of [serial_writech] ends at once on this hardware. *)
Definition serial_writech (s : serial) (ch : Z) (hw : uarts)
    : Z * uarts :=
  (ch, outb ch (port s) hw).

Definition ifilter (s : serial) (ch : Z) : Z :=
  if negb (Z.land (flags s) SRL_ICRNL =? 0) && (ch =? 13) then 10 else ch.

(** [ofilter]: the characters put into [outbuf]. *)
Definition ofilter (s : serial) (ch : Z) : list Z :=
  if negb (Z.land (flags s) SRL_OCRNL =? 0) && (ch =? 10) then [13; ch] else [ch].

(** The flag word with ICRNL and OCRNL set or cleared. *)
Definition srl_flags (icrnl ocrnl : bool) : Z :=
  Z.lor (if icrnl then SRL_ICRNL else 0) (if ocrnl then SRL_OCRNL else 0).

(** What a serial port with the flag word [sflags] puts on the line for the
    bytes it is asked to write: each byte through [ofilter]. *)
Definition wire (sflags : Z) (src : list Z) : list Z :=
  flat_map (fun b => ofilter (mk_serial 0 sflags) (wrap_s8 b)) src.

(** The inner loop of [serial_write] over [outbuf]: [None] while it goes on,
    the error to return otherwise. *)
Fixpoint serial_write_out (s : serial) (out : list Z) (hw : uarts)
    : option Z * uarts :=
  match out with
  | [] => (None, hw)
  | c :: out' =>
      let '(res, hw) := serial_writech s c hw in
      if res <? 0 then (Some res, hw) else serial_write_out s out' hw
  end.

Section Driver.
Context {fops fsops : Type}.

(** [&serials[com_no - 1]] behind the file. *)
Definition serial_of (f : file fops) (w : serial_state) : serial :=
  default (mk_serial 0 0) (f_driver_data f ≫= fun i => serials w !! i).

Definition serial_open_dev (file_ : file fops) (min : Z) (w : serial_state)
    : serial_state * file fops * Z :=
  let com_no := min in
  if (com_no <? 1) || (Z.of_nat (length PORT_NOS) <? com_no)
  then (w, file_, - ENODEV)
  else
    let idx := Z.to_nat (com_no - 1) in
    let s := default (mk_serial 0 0) (serials w !! idx) in
    let file_ := set_f_driver_data file_ (Some idx) in
    if negb (port s =? 0) then (w, file_, 0)
    else
      let s := mk_serial (default 0 (PORT_NOS !! idx)) (flags s) in
      let sers := <[idx := s]> (serials w) in
      let testchar := 10 in
      let hw := outb (Z.lor MC_RTS MC_LOOP) (port s + POFF_MODEMCTL) (hardware w) in
      let hw := outb testchar (port s) hw in
      let '(got, hw) := inb (port s) hw in
      if negb (got =? testchar) then (mk_serial_state sers hw, file_, - EIO)
      else
        let hw :=
          outb (Z.lor (Z.lor MC_DTR MC_RTS) (Z.lor MC_OUT1 MC_OUT2))
            (port s + POFF_MODEMCTL) hw in
        (mk_serial_state sers hw, file_, 0).

(** The loop of [serial_read], [n] counting up to [count]. *)
Fixpoint serial_read_loop (fuel : nat) (s : serial) (count n : Z)
    (dst : list Z) (hw : uarts) : uarts * list Z * Z :=
  match fuel with
  | O => (hw, dst, wrap_s32 count)
  | S fuel' =>
      let '(ch, hw) := serial_readch s hw in
      if (ch =? - EAGAIN) && negb (n =? 0) then (hw, dst, wrap_s32 n)
      else if ch <? 0 then (hw, dst, ch)
      else serial_read_loop fuel' s count (n + 1)
             (dst ++ [wrap_u8 (ifilter s (wrap_s8 ch))]) hw
  end.

Definition serial_read (f : file fops) (count off : Z) (w : serial_state)
    : serial_state * list Z * Z * Z :=
  let s := serial_of f w in
  let '(hw, dst, res) := serial_read_loop (Z.to_nat count) s count 0 [] (hardware w) in
  (mk_serial_state (serials w) hw, dst, off, res).

(** The loop of [serial_write] over the [count] bytes at [src]. *)
Fixpoint serial_write_loop (fuel : nat) (s : serial) (src : list Z) (count : Z)
    (hw : uarts) : uarts * Z :=
  match fuel with
  | O => (hw, wrap_s32 count)
  | S fuel' =>
      let out := ofilter s (wrap_s8 (hd 0 src)) in
      match serial_write_out s out hw with
      | (Some res, hw) => (hw, res)
      | (None, hw) => serial_write_loop fuel' s (tl src) count hw
      end
  end.

Definition serial_write (f : file fops) (src : list Z) (count off : Z)
    (w : serial_state) : serial_state * Z * Z :=
  let s := serial_of f w in
  let '(hw, res) := serial_write_loop (Z.to_nat count) s src count (hardware w) in
  (mk_serial_state (serials w) hw, off, res).

Definition serial_ops : file_operations serial_state fops fsops :=
  mk_file_operations (Some serial_open_dev) None None (Some serial_read)
    (Some serial_write) None.

End Driver.

End Serial.

(* ================================================================== *)
(** * drivers/chrdev/tty.c                                             *)
(* ================================================================== *)

Module Tty.
Import Cint Errno CString Vfs.

Definition IBUFSZ : Z := 256.
Definition TTY_CT : Z := 2.

Definition TTY_ECHO : Z := 1.
Definition TTY_ECHOCTL : Z := 2.
Definition TTY_COOKED : Z := 4.

Definition SP_NONE : Z := 0.
Definition SP_ENDLINE : Z := 1.
Definition SP_ISINPUT : Z := 2.

Definition CTRL_D : Z := 4.
Definition CTRL_U : Z := 21.

(** What an access to a static array comes to: the value, or an access
    outside the array. *)
Inductive access (A : Type) :=
| InBounds (a : A)
| OutOfBounds.
Arguments InBounds {A} a.
Arguments OutOfBounds {A}.

Section Driver.

(** The port device is a file of the layer below: [LW] is that layer's
    state, [LP] its pointers to operation tables and [lops] reads them. *)
Context {LW LP LS : Type}.
Variable lops : LP -> file_operations LW LP LS.

Record tty := mk_tty {
  portdev : file LP;
  flags : Z;
  initialized : bool;
  ibuf_eol : bool;
  ibuf_eof : bool;
  ilen : Z;
  ibuf : list Z
}.

(** A slot of the zero-initialised array [ttys]. *)
Definition tty_zero : tty :=
  mk_tty file_zero 0 false false false 0 (replicate (Z.to_nat IBUFSZ) 0).

Definition set_portdev (t : tty) (v : file LP) : tty :=
  mk_tty v (flags t) (initialized t) (ibuf_eol t) (ibuf_eof t) (ilen t) (ibuf t).
Definition set_ibuf_eol (t : tty) (v : bool) : tty :=
  mk_tty (portdev t) (flags t) (initialized t) v (ibuf_eof t) (ilen t) (ibuf t).
Definition set_ibuf_eof (t : tty) (v : bool) : tty :=
  mk_tty (portdev t) (flags t) (initialized t) (ibuf_eol t) v (ilen t) (ibuf t).
Definition set_ilen (t : tty) (v : Z) : tty :=
  mk_tty (portdev t) (flags t) (initialized t) (ibuf_eol t) (ibuf_eof t) v (ibuf t).
Definition set_ibuf (t : tty) (v : list Z) : tty :=
  mk_tty (portdev t) (flags t) (initialized t) (ibuf_eol t) (ibuf_eof t) (ilen t) v.

Definition ISCOOKED (t : tty) : bool := negb (Z.land (flags t) TTY_COOKED =? 0).

(** [file_write(&tty->portdev, src, count)], its result dropped. *)
Definition port_write (t : tty) (src : list Z) (count : Z) (lw : LW) : tty * LW :=
  let '(lw, pd, _) := file_write lops (portdev t) src count lw in
  (set_portdev t pd, lw).

(** ** Echo *)

Definition echoc (t : tty) (ch : Z) (lw : LW) : tty * LW :=
  if Z.land (flags t) TTY_ECHO =? 0 then (t, lw)
  else if (Z.land (flags t) TTY_ECHOCTL =? 0) || Ctype.isprint ch
          || bool_decide (is_Some (strchr [10; 13; 9] ch))
  then port_write t [wrap_u8 ch] 1 lw
  else if (0 <=? ch) && (ch <? 31)
  then port_write t [Sprintf.chr "^"; wrap_u8 (wrap_s8 (ch + 64))] 2 lw
  else if ch =? 127
  then port_write t (cstr "^?") 2 lw
  else
    match file_printf lops (portdev t) (cstr "\x%02hhx") [Sprintf.VInt ch] lw with
    | Some (lw, pd, _) => (set_portdev t pd, lw)
    | None => (t, lw)
    end.

Definition echos (t : tty) (str : list Z) (lw : LW) : tty * LW :=
  if negb (Z.land (flags t) TTY_ECHO =? 0)
  then port_write t (map wrap_u8 str) (wrap_u32 (strlen str)) lw
  else (t, lw).

(** ** Input and special characters *)

Definition add_to_inbuf (t : tty) (ch : Z) (lw : LW) : tty * LW * Z :=
  if ilen t =? IBUFSZ then (t, lw, - ENOBUFS)
  else
    let t := set_ilen (set_ibuf t (<[Z.to_nat (ilen t) := ch]> (ibuf t))) (ilen t + 1) in
    let '(t, lw) := echoc t ch lw in
    (t, lw, 0).

Definition backspace (t : tty) (lw : LW) : tty * LW :=
  if ilen t =? 0 then (t, lw)
  else echos (set_ilen t (ilen t - 1)) [8; 32; 8] lw.

(** [for (int n = tty->ilen; n; n--) backspace(tty);] *)
Fixpoint clearline_loop (n : nat) (t : tty) (lw : LW) : tty * LW :=
  match n with
  | O => (t, lw)
  | S n' => let '(t, lw) := backspace t lw in clearline_loop n' t lw
  end.

Definition clearline (t : tty) (lw : LW) : tty * LW :=
  clearline_loop (Z.to_nat (wrap_s32 (ilen t))) t lw.

Definition on_eof (t : tty) (lw : LW) : tty * LW :=
  let t := set_ibuf_eol t true in
  if ilen t =? 0 then (set_ibuf_eof t true, lw) else (t, lw).

Record specialchar := mk_specialchar {
  sc_ch : Z;
  special_echo : option (list Z);
  sc_flags : Z;
  onrecv : option (tty -> LW -> tty * LW)
}.

Definition SPECIALCHARS : list specialchar :=
  [ mk_specialchar 10 None (Z.lor SP_ENDLINE SP_ISINPUT) None;
    mk_specialchar CTRL_D (Some [94; 68; 10]) SP_ENDLINE (Some on_eof);
    mk_specialchar 8 None SP_NONE (Some backspace);
    mk_specialchar 127 None SP_NONE (Some backspace);
    mk_specialchar CTRL_U None SP_NONE (Some clearline) ].

(** The loop of [tty_inchar] over the table, falling through to the
    not-special case. *)
Fixpoint tty_inchar_loop (table : list specialchar) (t : tty) (ch : Z) (lw : LW)
    : tty * LW * Z :=
  match table with
  | [] => add_to_inbuf t ch lw
  | spch :: table' =>
      if negb (ch =? sc_ch spch) then tty_inchar_loop table' t ch lw
      else
        let t :=
          if negb (Z.land (sc_flags spch) SP_ENDLINE =? 0)
          then set_ibuf_eol t true else t in
        let '(t, lw) :=
          match special_echo spch with
          | Some str => echos t str lw
          | None => (t, lw)
          end in
        let '(t, lw) :=
          match onrecv spch with
          | Some hook => hook t lw
          | None => (t, lw)
          end in
        if negb (Z.land (sc_flags spch) SP_ISINPUT =? 0) then add_to_inbuf t ch lw
        else (t, lw, 0)
  end.

Definition tty_inchar (t : tty) (ch : Z) (lw : LW) : tty * LW * Z :=
  if negb (ISCOOKED t) then add_to_inbuf t ch lw
  else if ibuf_eol t then (t, lw, - ENOBUFS)
  else tty_inchar_loop SPECIALCHARS t ch lw.

(** Two states of a TTY that differ in the port file at most. *)
Definition same_line (t t' : tty) : Prop :=
  flags t' = flags t /\ initialized t' = initialized t
  /\ ibuf_eol t' = ibuf_eol t /\ ibuf_eof t' = ibuf_eof t
  /\ ilen t' = ilen t /\ ibuf t' = ibuf t.

(** The line buffer is in order: [ilen] indexes the array [ibuf] or stands
    one past its end. *)
Definition line_ok (t : tty) : Prop :=
  0 <= ilen t <= IBUFSZ /\ length (ibuf t) = Z.to_nat IBUFSZ.

(** ** Reading

    The first loop of [tty_read].  How often it runs depends on what the port
    delivers, so its rounds, the last test of the loop condition included,
    are bounded by [fuel]; [None] is a loop that has not ended within them.
    The result carries [portres] and the value of an early [return res]. *)
Fixpoint tty_read_loop (fuel : nat) (t : tty) (lw : LW) (portres : Z)
    : option (tty * LW * Z * option Z) :=
  match fuel with
  | O => None
  | S fuel' =>
      if (ilen t <? IBUFSZ) && negb (ibuf_eol t) then
        let '(lw, pd, dst, res) := file_read lops (portdev t) 1 lw in
        let t := set_portdev t pd in
        let portres := wrap_s32 res in
        if portres <=? 0 then Some (t, lw, portres, None)
        else
          let ch := wrap_s8 (hd 0 dst) in
          let '(t, lw, res) := tty_inchar t ch lw in
          if res <? 0 then Some (t, lw, portres, Some res)
          else tty_read_loop fuel' t lw portres
      else Some (t, lw, portres, None)
  end.

(** [tty_read] on the [struct tty] itself: the new state, the bytes copied to
    [dst] and the result. *)
Definition tty_read_tty (fuel : nat) (t : tty) (count : Z) (lw : LW)
    : option (tty * LW * list Z * Z) :=
  match tty_read_loop fuel t lw (- EAGAIN) with
  | None => None
  | Some (t, lw, _, Some res) => Some (t, lw, [], res)
  | Some (t, lw, portres, None) =>
      if ilen t =? 0 then
        if portres =? 0 then Some (t, lw, [], 0)
        else if ISCOOKED t && ibuf_eof t
        then Some (set_ibuf_eol (set_ibuf_eof t false) false, lw, [], 0)
        else Some (t, lw, [], - EAGAIN)
      else if ISCOOKED t && negb (ibuf_eol t) then Some (t, lw, [], - EAGAIN)
      else
        let retct := MIN (ilen t) count in
        let dst := map wrap_u8 (take (Z.to_nat retct) (ibuf t)) in
        let rest := Z.to_nat (ilen t - retct) in
        let t :=
          set_ibuf t (take rest (drop (Z.to_nat retct) (ibuf t)) ++ drop rest (ibuf t)) in
        let t := set_ilen t (ilen t - retct) in
        let t := if ilen t =? 0 then set_ibuf_eol t false else t in
        Some (t, lw, dst, wrap_s32 retct)
  end.

(** The driver's state: the static array [ttys] and the layer below. *)
Record tty_state := mk_tty_state {
  ttys : list tty;
  port_state : LW
}.

Definition ttys_init : list tty := replicate (Z.to_nat TTY_CT) tty_zero.

Context {P : Type}.

(** [tty_read] as the driver entry point: [f->f_driver_data] is the slot of
    [ttys]; [*off] is unused. *)
Definition tty_read (fuel : nat) (f : file P) (count off : Z) (w : tty_state)
    : option (tty_state * list Z * Z * Z) :=
  match f_driver_data f ≫= fun i => ttys w !! i with
  | None => None
  | Some t =>
      match tty_read_tty fuel t count (port_state w) with
      | None => None
      | Some (t, lw, dst, res) =>
          Some (mk_tty_state (<[default O (f_driver_data f) := t]> (ttys w)) lw,
                dst, off, res)
      end
  end.

(** [tty_open_dev].  [&ttys[min]] is the slot [min] of the array, and
    [tty->initialized] is the first access through it. *)
Definition tty_open_dev (chrdev_drivers : list (option LP)) (file_ : file P)
    (min : Z) (w : tty_state) : access (tty_state * file P * Z) :=
  if min >? TTY_CT then InBounds (w, file_, - ENODEV)
  else
    match ttys w !! Z.to_nat min with
    | None => OutOfBounds
    | Some t =>
        let file_ := set_f_driver_data file_ (Some (Z.to_nat min)) in
        if initialized t then InBounds (w, file_, 0)
        else if min =? 0 then InBounds (w, file_, - ENODEV)
        else
          let '(lw, pd, portres) :=
            file_open_dev lops chrdev_drivers (MAKEDEV MAJ_SERIAL min) (port_state w) in
          let t := set_portdev t pd in
          if portres <? 0
          then InBounds (mk_tty_state (<[Z.to_nat min := t]> (ttys w)) lw, file_, portres)
          else
            let t := mk_tty (portdev t) (flags t) true (ibuf_eol t) (ibuf_eof t) 0 (ibuf t) in
            InBounds (mk_tty_state (<[Z.to_nat min := t]> (ttys w)) lw, file_, 0)
    end.

End Driver.

End Tty.

(* ================================================================== *)
(** * drivers/vfs_fs.c: superblocks, mounting and lookup               *)
(* ================================================================== *)

Module Mount.
Import Cint Errno CString Vfs.

Definition SB_MAX : Z := 4.

Section Mounting.
Context {W fops fsops : Type}.
Variable ops : fops -> file_operations W fops fsops.
Variable fs_ops : fsops -> fs_operations W fops fsops.

(** The state of vfs_fs.c: [fs_drivers], [superblocks] and the head of the
    mount list. *)
Record vfs_state := mk_vfs_state {
  fs_drivers : list (option fsops);
  superblocks : list (superblock fsops);
  vfs_mount_list : list_head
}.

(** A slot of the zero-initialised array [superblocks]. *)
Definition sb_zero : superblock fsops :=
  mk_superblock 0 0 (replicate (Z.to_nat PATH_MAX) 0) (mk_list_head None None)
    None None.

(** The state at boot: empty tables, [LIST_HEAD_INIT(vfs_mount_list)]. *)
Definition vfs_init : vfs_state :=
  mk_vfs_state (replicate (Z.to_nat FSTYPES_MAX) None)
    (replicate (Z.to_nat SB_MAX) sb_zero)
    (mk_list_head (Some LHead) (Some LHead)).

Definition sb_at (st : vfs_state) (i : nat) : superblock fsops :=
  default sb_zero (superblocks st !! i).

Definition set_sb (st : vfs_state) (i : nat) (sb : superblock fsops) : vfs_state :=
  mk_vfs_state (fs_drivers st) (<[i := sb]> (superblocks st)) (vfs_mount_list st).

Definition set_s_mountpath (sb : superblock fsops) (v : list Z) : superblock fsops :=
  mk_superblock (s_root_ino sb) (s_bdev sb) v (s_mount_list sb) (s_op sb)
    (s_driver_data sb).
Definition set_s_mount_list (sb : superblock fsops) (v : list_head) : superblock fsops :=
  mk_superblock (s_root_ino sb) (s_bdev sb) (s_mountpath sb) v (s_op sb)
    (s_driver_data sb).
Definition set_s_op (sb : superblock fsops) (v : option fsops) : superblock fsops :=
  mk_superblock (s_root_ino sb) (s_bdev sb) (s_mountpath sb) (s_mount_list sb) v
    (s_driver_data sb).

(** ** core/list.h on the mount list *)

(** [*p] and [*p = v] for a pointer to a [struct list_head]. *)
Definition node (st : vfs_state) (p : list_ptr) : list_head :=
  match p with
  | LHead => vfs_mount_list st
  | LSb i => s_mount_list (sb_at st i)
  end.

Definition set_node (st : vfs_state) (p : list_ptr) (v : list_head) : vfs_state :=
  match p with
  | LHead => mk_vfs_state (fs_drivers st) (superblocks st) v
  | LSb i => set_sb st i (set_s_mount_list (sb_at st i) v)
  end.

Definition set_next (st : vfs_state) (p : list_ptr) (v : option list_ptr) : vfs_state :=
  set_node st p (mk_list_head v (prev (node st p))).
Definition set_prev (st : vfs_state) (p : list_ptr) (v : option list_ptr) : vfs_state :=
  set_node st p (mk_list_head (next (node st p)) v).

Definition INIT_LIST_HEAD (st : vfs_state) (list_ : list_ptr) : vfs_state :=
  set_prev (set_next st list_ (Some list_)) list_ (Some list_).

Definition _list_ensure_init (st : vfs_state) (list_ : list_ptr) : vfs_state :=
  match next (node st list_) with
  | None => INIT_LIST_HEAD st list_
  | Some _ => st
  end.

Definition _list_add (st : vfs_state) (new a b : list_ptr) : vfs_state :=
  let st := set_next st a (Some new) in
  let st := set_prev st new (Some a) in
  let st := set_next st new (Some b) in
  set_prev st b (Some new).

(** [head->prev] is not NULL once the head is initialised; were it NULL the
    call would fault, and the model leaves the state as it is. *)
Definition list_add_tail (st : vfs_state) (new head : list_ptr) : vfs_state :=
  let st := _list_ensure_init st head in
  match prev (node st head) with
  | Some a => _list_add st new a head
  | None => st
  end.

(** ** Superblocks *)

(** The first slot whose [s_op] is NULL, searched from slot [i]. *)
Fixpoint sb_alloc_from (sbs : list (superblock fsops)) (i : nat) : option nat :=
  match sbs with
  | sb :: sbs' =>
      match s_op sb with
      | None => Some i
      | Some _ => sb_alloc_from sbs' (S i)
      end
  | [] => None
  end.

Definition sb_alloc (st : vfs_state) : option nat :=
  sb_alloc_from (superblocks st) O.

Definition sb_free (st : vfs_state) (i : nat) : vfs_state :=
  set_sb st i (set_s_op (sb_at st i) None).

(** [fstypeid] is not range-checked before it indexes [fs_drivers]; outside
    the table the model reads NULL. *)
Definition sb_open (st : vfs_state) (i : nat) (blockdev fstypeid : Z) (w : W)
    : vfs_state * W * Z :=
  match default None (fs_drivers st !! Z.to_nat fstypeid) with
  | None => (st, w, - ENODEV)
  | Some p =>
      let sb :=
        mk_superblock 0 blockdev (replicate (Z.to_nat PATH_MAX) 0)
          (mk_list_head None None) (Some p) None in
      let st := INIT_LIST_HEAD (set_sb st i sb) (LSb i) in
      match sb_open_hook (fs_ops p) with
      | Some hook =>
          let '(w, sb, res) := hook (sb_at st i) w in
          let st := set_sb st i sb in
          if res <? 0 then (st, w, res) else (st, w, 0)
      | None => (st, w, 0)
      end
  end.

Definition sb_release (st : vfs_state) (i : nat) (w : W) : vfs_state * W * Z :=
  match s_op (sb_at st i) ≫= fun p => sb_release_hook (fs_ops p) with
  | Some hook => let '(w, sb, res) := hook (sb_at st i) w in (set_sb st i sb, w, res)
  | None => (st, w, 0)
  end.

(** ** Mounting and lookup *)

(** The [list_for_each_entry] loop of [vfs_mount_list_add]: the value of the
    cursor [pos] when the loop is left.  The list holds at most [SB_MAX]
    entries, which bounds the rounds. *)
Fixpoint mount_list_scan (fuel : nat) (st : vfs_state) (sb_mountpath : list Z)
    (pos : list_ptr) : list_ptr :=
  match fuel with
  | O => pos
  | S fuel' =>
      match pos with
      | LHead => pos
      | LSb i =>
          if strcmp (s_mountpath (sb_at st i)) sb_mountpath >? 0 then pos
          else
            match next (node st pos) with
            | Some p => mount_list_scan fuel' st sb_mountpath p
            | None => pos
            end
      end
  end.

(** The loop finds the first entry with a greater mount path, and the entry
    is then added with [list_add_tail] to the head of the whole list. *)
Definition vfs_mount_list_add (st : vfs_state) (sb : nat) : vfs_state :=
  let pos :=
    mount_list_scan (S (Z.to_nat SB_MAX)) st (s_mountpath (sb_at st sb))
      (default LHead (next (vfs_mount_list st))) in
  list_add_tail st (LSb sb) LHead.

(** The exit path releases the superblock only after a failure that follows
    a successful [sb_open]; there is none, so [sb_free] is all it does. *)
Definition fs_mountdev (st : vfs_state) (blockdev fstypeid : Z) (mpath : list Z)
    (w : W) : vfs_state * W * Z :=
  match sb_alloc st with
  | None => (st, w, - ENOMEM)
  | Some sb =>
      let '(st, w, res) := sb_open st sb blockdev fstypeid w in
      if res <? 0 then (sb_free st sb, w, res)
      else
        let '(path, _) :=
          Sprintf.snprintf (s_mountpath (sb_at st sb)) 0 PATH_MAX (cstr "%s")
            [Sprintf.VStr mpath] in
        let st := set_sb st sb (set_s_mountpath (sb_at st sb) path) in
        let st := vfs_mount_list_add st sb in
        (st, w, 0)
  end.

(** The [list_for_each_entry_prev] loop of [find_mount_for_path]: the slot of
    the superblock found, [Some None] for NULL, and [None] when the loop has
    not ended within [fuel] rounds or met a NULL link. *)
Fixpoint find_mount_loop (fuel : nat) (st : vfs_state) (abspath : list Z)
    (pos : list_ptr) {struct fuel} : option (option nat) :=
  match pos with
  | LHead => Some None
  | LSb i =>
      match fuel with
      | O => None
      | S fuel' =>
          if bool_decide (strstr abspath (s_mountpath (sb_at st i)) = Some 0)
          then Some (Some i)
          else
            match prev (node st pos) with
            | Some p => find_mount_loop fuel' st abspath p
            | None => None
            end
      end
  end.

Definition find_mount_for_path (st : vfs_state) (abspath : list Z)
    : option (option nat) :=
  match prev (vfs_mount_list st) with
  | Some p => find_mount_loop (Z.to_nat SB_MAX) st abspath p
  | None => None
  end.

Definition file_open_sb_path (sb : superblock fsops) (relpath : list Z) (w : W)
    : W * file fops * Z :=
  match s_op sb with
  | None => (w, file_zero, - EINVAL)
  | Some p =>
      match fs_file_ops (fs_ops p) ≫= fun fp => open_path (ops fp) with
      | None => (w, file_zero, - ENOTSUP)
      | Some hook =>
          let file_ := set_f_op file_zero (fs_file_ops (fs_ops p)) in
          let '(w, file_, res) := hook file_ sb relpath w in
          if res <? 0 then (w, file_, res) else (w, file_, 0)
      end
  end.

(** The mount a path is routed to and the path left after the mount path is
    stripped: what [file_open_path_abs] hands to [file_open_sb_path]. *)
Definition route (st : vfs_state) (abspath : list Z)
    : option (option (nat * list Z)) :=
  match find_mount_for_path st abspath with
  | None => None
  | Some None => Some None
  | Some (Some i) =>
      match Path.path_strip_prefix (Some abspath) (Some (s_mountpath (sb_at st i))) with
      | Some off => Some (Some (i, drop (Z.to_nat off) abspath))
      | None => Some None
      end
  end.

Definition file_open_path_abs (st : vfs_state) (abspath : list Z) (w : W)
    : option (W * file fops * Z) :=
  match find_mount_for_path st abspath with
  | None => None
  | Some None => Some (w, file_zero, - ENOENT)
  | Some (Some i) =>
      let sb := sb_at st i in
      match s_op sb ≫= fun p => fs_file_ops (fs_ops p) ≫= fun fp => open_path (ops fp) with
      | None => Some (w, file_zero, - ENOTSUP)
      | Some _ =>
          match Path.path_strip_prefix (Some abspath) (Some (s_mountpath sb)) with
          | Some off => Some (file_open_sb_path sb (drop (Z.to_nat off) abspath) w)
          | None => None
          end
      end
  end.

Definition file_open_path (st : vfs_state) (cwd path : list Z) (w : W)
    : option (W * file fops * Z) :=
  let n := PATH_MAX in
  let '(absbuf, _) :=
    Path.path_join (replicate (Z.to_nat n) 0) n (Some cwd) (Some path) in
  file_open_path_abs st absbuf w.

(** The mount list as it is walked forwards: the slots in list order. *)
Fixpoint mount_list_walk (fuel : nat) (st : vfs_state) (pos : list_ptr) : list nat :=
  match fuel with
  | O => []
  | S fuel' =>
      match pos with
      | LHead => []
      | LSb i =>
          i :: match next (node st pos) with
               | Some p => mount_list_walk fuel' st p
               | None => []
               end
      end
  end.

Definition mount_list (st : vfs_state) : list nat :=
  mount_list_walk (Z.to_nat SB_MAX) st (default LHead (next (vfs_mount_list st))).

(** The mount paths in list order, as C strings. *)
Definition mount_paths (st : vfs_state) : list (list Z) :=
  map (fun i => Path.string_at (s_mountpath (sb_at st i)) 0) (mount_list st).

(** The mount list is sorted ascending by mount path, in the order of
    [strcmp]: no entry is followed, anywhere later, by a lesser one. *)
Definition mount_list_sorted (st : vfs_state) : Prop :=
  forall (i j : nat) (p q : list Z),
    (i < j)%nat ->
    mount_paths st !! i = Some p ->
    mount_paths st !! j = Some q ->
    strcmp p q <= 0.

(** ** The shape of the mount list *)

(** [b] follows [a]: [a->next == b] and [b->prev == a]. *)
Definition linked (st : vfs_state) (a b : list_ptr) : Prop :=
  next (node st a) = Some b /\ prev (node st b) = Some a.

(** From [a] the links lead through the slots [l], in this order, to [b]. *)
Fixpoint chain (st : vfs_state) (a : list_ptr) (l : list nat) (b : list_ptr) : Prop :=
  match l with
  | [] => linked st a b
  | i :: l' => linked st a (LSb i) /\ chain st (LSb i) l' b
  end.

(** The pointer is the head or the member of a slot of the array. *)
Definition valid (st : vfs_state) (p : list_ptr) : Prop :=
  match p with
  | LHead => True
  | LSb i => (i < length (superblocks st))%nat
  end.

(** The mount list is the circular list of the slots [l]: they are distinct
    slots of the array, in use, and linked from the head and back to it. *)
Record mounted (st : vfs_state) (l : list nat) : Prop := mk_mounted {
  mounted_slots : length (superblocks st) = Z.to_nat SB_MAX;
  mounted_nodup : NoDup l;
  mounted_range : Forall (fun i => (i < Z.to_nat SB_MAX)%nat) l;
  mounted_used : Forall (fun i => s_op (sb_at st i) <> None) l;
  mounted_chain : chain st LHead l LHead
}.

(** The last pointer on the way from [a] through the slots [l]. *)
Definition tail_ptr (a : list_ptr) (l : list nat) : list_ptr :=
  match last l with Some i => LSb i | None => a end.

(** Two states differ in slot [sb] of [superblocks] at most. *)
Definition agree_off (sb : nat) (st st' : vfs_state) : Prop :=
  length (superblocks st') = length (superblocks st)
  /\ vfs_mount_list st' = vfs_mount_list st
  /\ fs_drivers st' = fs_drivers st
  /\ forall i, i <> sb -> sb_at st' i = sb_at st i.

(** The mount path of the slot is a prefix of the path, as
    [find_mount_for_path] tests it. *)
Definition covers (st : vfs_state) (abspath : list Z) (i : nat) : bool :=
  bool_decide (strstr abspath (s_mountpath (sb_at st i)) = Some 0).

End Mounting.

Arguments vfs_state : clear implicits.

End Mount.

(* ================================================================== *)
(** * drivers/fs/cpiofs.c                                               *)
(* ================================================================== *)

Module Cpio.
Import Cint Errno CString Vfs.

Definition MAX_CPIO_OPEN : Z := 4.

(** CPIO mode field bits (octal 060000, 040000, 020000, 060000). *)
Definition CM_FT_MASK : Z := 24576.
Definition CM_FT_DIR : Z := 16384.
Definition CM_FT_CHR : Z := 8192.
Definition CM_FT_BLK : Z := 24576.

(** [enum cpio_format]. *)
Definition CF_UNKNOWN : Z := 0.
Definition CF_NEWC : Z := 1.

(** [sizeof(struct cpio_newc_header)] and the offsets of the fields read. *)
Definition NEWC_HSIZE : Z := 110.
Definition c_mode : nat := 14.
Definition c_filesize : nat := 54.
Definition c_devmajor : nat := 62.
Definition c_devminor : nat := 70.
Definition c_namesize : nat := 94.

(** [struct cpio_header]; [bytes] is the raw header and [pathname] the copy
    of the path name, both arrays of bytes. *)
Record cpio_header := mk_cpio_header {
  fmt : Z;
  bytes : list Z;
  hoff : Z;
  hsize : Z;
  psize : Z;
  ppad : Z;
  fsize : Z;
  fpad : Z;
  pathname : list Z;
  is_endmarker : bool
}.

(** [(struct cpio_header){.hoff = hoff_}]. *)
Definition cpio_header_zero (hoff_ : Z) : cpio_header :=
  mk_cpio_header CF_UNKNOWN (replicate (Z.to_nat NEWC_HSIZE) 0) hoff_ 0 0 0 0 0
    (replicate (Z.to_nat PATH_MAX) 0) false.

Definition set_bytes (h : cpio_header) (v : list Z) : cpio_header :=
  mk_cpio_header (fmt h) v (hoff h) (hsize h) (psize h) (ppad h) (fsize h)
    (fpad h) (pathname h) (is_endmarker h).
Definition set_pathname (h : cpio_header) (v : list Z) : cpio_header :=
  mk_cpio_header (fmt h) (bytes h) (hoff h) (hsize h) (psize h) (ppad h)
    (fsize h) (fpad h) v (is_endmarker h).
Definition set_format (h : cpio_header) (fmt_ hsize_ : Z) : cpio_header :=
  mk_cpio_header fmt_ (bytes h) (hoff h) hsize_ (psize h) (ppad h) (fsize h)
    (fpad h) (pathname h) (is_endmarker h).
Definition set_sizes (h : cpio_header) (psize_ fsize_ ppad_ fpad_ : Z) : cpio_header :=
  mk_cpio_header (fmt h) (bytes h) (hoff h) (hsize h) psize_ ppad_ fsize_ fpad_
    (pathname h) (is_endmarker h).
Definition set_is_endmarker (h : cpio_header) (v : bool) : cpio_header :=
  mk_cpio_header (fmt h) (bytes h) (hoff h) (hsize h) (psize h) (ppad h)
    (fsize h) (fpad h) (pathname h) v.

(** The bytes a read returned, stored at offset [off] of an array. *)
Definition store (buf : list Z) (off : Z) (data : list Z) : list Z :=
  take (Z.to_nat off) buf ++ data ++ drop (Z.to_nat off + length data) buf.

(** An array of bytes read as [char]s. *)
Definition chars (buf : list Z) : list Z := map wrap_s8 buf.

(** ALIGN_UP(x, 4) of core/macros.h at [size_t]. *)
Definition ALIGN_UP4 (x : Z) : Z := Z.land (wrap_u32 (x + 3)) (wrap_u32 (- 4)).

(** ** Value decoding *)

(** The loop of [cpio_atoi] over the [n] characters of the field; [ret] is
    an [int]. *)
Fixpoint cpio_atoi_loop (field : list Z) (base ret : Z) : Z :=
  match field with
  | [] => ret
  | b :: field' =>
      let c := wrap_s8 (Ctype.tolower b) in
      if (48 <=? c) && (c <=? 57) then
        if c - 48 >=? base then - EINVAL
        else cpio_atoi_loop field' base (wrap_s32 (ret * base + (c - 48)))
      else if (97 <=? c) && (c <=? 102) then
        if c - 97 + 10 >=? base then - EINVAL
        else cpio_atoi_loop field' base (wrap_s32 (ret * base + (c - 97 + 10)))
      else - EINVAL
  end.

Definition cpio_atoi (field : list Z) (n : nat) (base : Z) : Z :=
  cpio_atoi_loop (take n field) base 0.

(** [newc_atoi] on the field at offset [off] of the raw header. *)
Definition newc_atoi (h : cpio_header) (off : nat) : Z :=
  cpio_atoi (chars (drop off (bytes h))) 8 16.

Definition cpioh_decode_sizes (h : cpio_header) : cpio_header * Z :=
  if fmt h =? CF_NEWC then
    let psize_ := wrap_u32 (newc_atoi h c_namesize) in
    let fsize_ := wrap_u32 (newc_atoi h c_filesize) in
    let hp := wrap_u32 (hsize h + psize_) in
    (set_sizes h psize_ fsize_ (wrap_u32 (ALIGN_UP4 hp - hp))
       (wrap_u32 (ALIGN_UP4 fsize_ - fsize_)), 0)
  else (h, - EINVAL).

Definition cpio_mode_to_dirtype (mode : Z) : Z :=
  let ft := Z.land mode CM_FT_MASK in
  if ft =? 0 then DT_REG
  else if ft =? CM_FT_DIR then DT_DIR
  else if ft =? CM_FT_CHR then DT_CHR
  else if ft =? CM_FT_BLK then DT_CHR
  else - EINVAL.

(** [cpioh_fstat]: [f_ino] is left as it is. *)
Definition cpioh_fstat (h : cpio_header) (st : fstat) : fstat * Z :=
  if fmt h =? CF_NEWC then
    let rdev := wrap_u32 (MAKEDEV (newc_atoi h c_devmajor) (newc_atoi h c_devminor)) in
    let mode := wrap_u32 (newc_atoi h c_mode) in
    (mk_fstat (f_ino st) (cpio_mode_to_dirtype mode) rdev (wrap_s32 (fsize h)), 0)
  else (st, - EINVAL).

Section Driver.

(** The archive file is a file of the layer below, opened on the block
    device of the superblock; [chrdev_drivers] is that layer's driver
    table. *)
Context {LW LP LS : Type}.
Variable lops : LP -> file_operations LW LP LS.
Variable chrdev_drivers : list (option LP).

(** ** Header reading *)

Definition cpio_read_header_raw (f : file LP) (lw : LW)
    : LW * file LP * cpio_header * Z :=
  let h := cpio_header_zero (f_pos f) in
  let '(lw, f, dst, res) := file_read lops f 6 lw in
  let ct := res in
  let h := set_bytes h (store (bytes h) 0 dst) in
  if res <? 0 then (lw, f, h, res)
  else if res =? 0 then (lw, f, h, - EINVAL)
  else
    if memcmp (bytes h) (cstr "070701") 6 =? 0 then
      let h := set_format h CF_NEWC NEWC_HSIZE in
      let '(lw, f, dst, res) := file_read lops f (wrap_u32 (hsize h - ct)) lw in
      let h := set_bytes h (store (bytes h) ct dst) in
      if res <? 0 then (lw, f, h, res)
      else (lw, f, h, wrap_s32 (ct + res))
    else (lw, f, h, - EINVAL).

(** The read loop of [cpio_read_pathname]: it goes on until [readsz] bytes
    have been read, however often the file returns fewer, so its rounds are
    bounded by [fuel] and [None] is a loop that has not ended within them.
    The result carries [ct] and the value of an early [return res]. *)
Fixpoint cpio_read_pathname_loop (fuel : nat) (f : file LP) (h : cpio_header)
    (ct readsz : Z) (lw : LW) : option (LW * file LP * cpio_header * Z * option Z) :=
  match fuel with
  | O => None
  | S fuel' =>
      if ct <? readsz then
        let '(lw, f, dst, res) := file_read lops f (wrap_u32 (readsz - ct)) lw in
        let h := set_pathname h (store (pathname h) ct dst) in
        if res <? 0 then Some (lw, f, h, wrap_s32 (ct + res), Some res)
        else cpio_read_pathname_loop fuel' f h (wrap_s32 (ct + res)) readsz lw
      else Some (lw, f, h, ct, None)
  end.

Definition cpio_read_pathname (fuel : nat) (f : file LP) (h : cpio_header) (lw : LW)
    : option (LW * file LP * cpio_header * Z) :=
  let readsz := wrap_s32 (MIN (psize h) PATH_MAX) in
  match cpio_read_pathname_loop fuel f h 0 readsz lw with
  | None => None
  | Some (lw, f, h, ct, Some res) => Some (lw, f, h, res)
  | Some (lw, f, h, ct, None) =>
      if psize h >? PATH_MAX then Some (lw, f, h, - EOVERFLOW)
      else if negb (ppad h =? 0) then
        let '(lw, f, res) := file_lseek lops f (wrap_s32 (ppad h)) SEEK_CUR lw in
        if res <? 0 then Some (lw, f, h, res)
        else Some (lw, f, h, wrap_s32 (ct + ppad h))
      else Some (lw, f, h, ct)
  end.

Definition cpio_read_header (fuel : nat) (f : file LP) (lw : LW)
    : option (LW * file LP * cpio_header * Z) :=
  let '(lw, f, h, res) := cpio_read_header_raw f lw in
  let ct := res in
  if res <? 0 then Some (lw, f, h, res)
  else
    let '(h, res) := cpioh_decode_sizes h in
    if res <? 0 then Some (lw, f, h, res)
    else
      match cpio_read_pathname fuel f h lw with
      | None => None
      | Some (lw, f, h, res) =>
          if res <? 0 then Some (lw, f, h, res)
          else
            let h :=
              if (fsize h =? 0)
                 && (strncmp (chars (pathname h)) (cstr "TRAILER!!!") PATH_MAX =? 0)
              then set_is_endmarker h true else h in
            Some (lw, f, h, wrap_s32 (ct + res))
      end.

Definition cpio_skip_fdata (f : file LP) (h : cpio_header) (lw : LW)
    : LW * file LP * Z :=
  file_lseek lops f (wrap_s32 (wrap_u32 (fsize h + fpad h))) SEEK_CUR lw.

(** ** Searches *)

(** The loop of [cpio_find_path], [i] counting the headers; bounded by
    [fuel] like the loop above. *)
Fixpoint cpio_find_path_loop (fuel : nat) (f : file LP) (p : list Z)
    (h : cpio_header) (i : Z) (lw : LW) : option (LW * file LP * cpio_header * Z) :=
  match fuel with
  | O => None
  | S fuel' =>
      if is_endmarker h then Some (lw, f, h, - ENOENT)
      else
        match cpio_read_header fuel f lw with
        | None => None
        | Some (lw, f, h, res) =>
            if res <? 0 then Some (lw, f, h, res)
            else if strcmp (chars (pathname h)) p =? 0 then Some (lw, f, h, wrap_s32 i)
            else
              let '(lw, f, res) := cpio_skip_fdata f h lw in
              if res <? 0 then Some (lw, f, h, res)
              else cpio_find_path_loop fuel' f p h (wrap_u32 (i + 1)) lw
        end
  end.

Definition cpio_find_path (fuel : nat) (f : file LP) (p : list Z) (lw : LW)
    : option (LW * file LP * cpio_header * Z) :=
  cpio_find_path_loop fuel f p (cpio_header_zero 0) 0 lw.

(** ** Driver data for files *)

(** [struct cfdata]: the archive file, the header of the target file and the
    offset of the target file's data inside the archive. *)
Record cfdata := mk_cfdata {
  af : file LP;
  h : cpio_header;
  foff : Z
}.

Definition cfdata_zero : cfdata := mk_cfdata file_zero (cpio_header_zero 0) 0.

(** The driver's state: the static array [cfdatas] and the layer below. *)
Record cpio_state := mk_cpio_state {
  cfdatas : list cfdata;
  backing : LW
}.

Definition cfdatas_init : list cfdata := replicate (Z.to_nat MAX_CPIO_OPEN) cfdata_zero.

(** The first slot whose archive file has no [f_op], searched from [i]. *)
Fixpoint cfdata_alloc_from (cfs : list cfdata) (i : nat) : option nat :=
  match cfs with
  | cf :: cfs' =>
      match f_op (af cf) with
      | None => Some i
      | Some _ => cfdata_alloc_from cfs' (S i)
      end
  | [] => None
  end.

Definition cfdata_alloc (w : cpio_state) : option nat :=
  cfdata_alloc_from (cfdatas w) O.

Definition cfdata_at (w : cpio_state) (i : nat) : cfdata :=
  default cfdata_zero (cfdatas w !! i).

Definition set_cfdata (w : cpio_state) (i : nat) (cf : cfdata) : cpio_state :=
  mk_cpio_state (<[i := cf]> (cfdatas w)) (backing w).

Definition cfdata_free (w : cpio_state) (i : nat) : cpio_state :=
  set_cfdata w i
    (mk_cfdata (set_f_op (af (cfdata_at w i)) None) (h (cfdata_at w i))
       (foff (cfdata_at w i))).

(** The test of [cfdata_alloc]: a slot is taken while its archive file has
    an [f_op]. *)
Definition in_use (cf : cfdata) : bool :=
  match f_op (af cf) with Some _ => true | None => false end.

Context {P S : Type}.

(** [f->f_driver_data] as a [struct cfdata *]. *)
Definition cfdata_of (f : file P) (w : cpio_state) : cfdata :=
  default cfdata_zero (f_driver_data f ≫= fun i => cfdatas w !! i).

(** ** Operations *)

(** [cpio_file_open_path]; [None] when a loop over the archive has not ended
    within [fuel] rounds. *)
Definition cpio_file_open_path (fuel : nat) (f : file P) (sb : superblock S)
    (path : list Z) (w : cpio_state) : option (cpio_state * file P * Z) :=
  let path := if deref path =? 0 then cstr "." else path in
  match cfdata_alloc w with
  | None => Some (w, f, - ENOMEM)
  | Some i =>
      let '(lw, af_, res) := file_open_dev lops chrdev_drivers (s_bdev sb) (backing w) in
      let cf := cfdata_at w i in
      let w := mk_cpio_state (<[i := mk_cfdata af_ (h cf) (foff cf)]> (cfdatas w)) lw in
      if res <? 0 then Some (cfdata_free w i, f, res)
      else
        match cpio_find_path fuel af_ path (backing w) with
        | None => None
        | Some (lw, af_, h_, res) =>
            let w := mk_cpio_state (<[i := mk_cfdata af_ h_ (foff cf)]> (cfdatas w)) lw in
            if res <? 0 then
              let '(lw, af_, _) := file_close lops af_ (backing w) in
              let w := mk_cpio_state (<[i := mk_cfdata af_ h_ (foff cf)]> (cfdatas w)) lw in
              Some (cfdata_free w i, f, res)
            else
              let '(st, res) := cpioh_fstat h_ (f_stat f) in
              let f := set_f_stat f st in
              if res <? 0 then
                let '(lw, af_, _) := file_close lops af_ (backing w) in
                let w := mk_cpio_state (<[i := mk_cfdata af_ h_ (foff cf)]> (cfdatas w)) lw in
                Some (cfdata_free w i, f, res)
              else
                let foff_ := wrap_s32 (hoff h_ + hsize h_ + psize h_ + ppad h_) in
                let w := set_cfdata w i (mk_cfdata af_ h_ foff_) in
                Some (w, set_f_driver_data f (Some i), 0)
        end
  end.

Definition cpio_file_release (f : file P) (w : cpio_state)
    : cpio_state * file P * Z :=
  match f_driver_data f with
  | Some i => (cfdata_free w i, f, 0)
  | None => (w, f, 0)
  end.

(** [count] is a [size_t]: the clamped value is [f_size - f->f_pos]
    converted to unsigned.  [res] is an [int]. *)
Definition cpio_file_read (f : file P) (count off : Z) (w : cpio_state)
    : cpio_state * list Z * Z * Z :=
  let cfd := cfdata_of f w in
  let aoff := wrap_s32 (off + foff cfd) in
  let count :=
    if wrap_s32 (off + wrap_s32 count) >? f_size (f_stat f)
    then wrap_u32 (f_size (f_stat f) - f_pos f)
    else count in
  let '(lw, dst, res) := file_pread lops (af cfd) count aoff (backing w) in
  let res := wrap_s32 res in
  let w := mk_cpio_state (cfdatas w) lw in
  if res <? 0 then (w, dst, off, res)
  else
    let aoff := wrap_s32 (aoff + res) in
    (w, dst, wrap_s32 (aoff - foff cfd), res).

(** The entries of [cpio_file_ops] that serve an open file.  [open_path] is
    [cpio_file_open_path] above, which needs its bound; [readdir] is not
    modelled. *)
Definition cpio_file_ops : file_operations cpio_state P S :=
  mk_file_operations None None (Some cpio_file_release) (Some cpio_file_read)
    None None.

End Driver.

End Cpio.

(* ================================================================== *)
(** * The kernel's own tables and the states used in examples          *)
(* ================================================================== *)

Module Kernel.
Import Cint Errno CString Vfs.

(** The addresses of the four [struct file_operations] of the kernel. *)
Inductive fops_ptr :=
| serial_fops
| ramdisk_fops
| tty_fops
| cpio_file_fops.

#[global] Instance fops_ptr_eq_dec : EqDecision fops_ptr.
Proof. solve_decision. Defined.

(** The address of the one [struct fs_operations], [cpio_fs_ops]. *)
Inductive fsops_ptr :=
| cpio_fs_fops.

#[global] Instance fsops_ptr_eq_dec : EqDecision fsops_ptr.
Proof. solve_decision. Defined.

(** [chrdev_drivers] and [fs_drivers] at boot. *)
Definition chrdev_drivers_init : list (option fops_ptr) :=
  replicate (Z.to_nat MAJORS_MAX) None.
Definition fs_drivers_init : list (option fsops_ptr) :=
  replicate (Z.to_nat FSTYPES_MAX) None.

(** The layer of the serial ports: its one table is [serial_ops]. *)
Definition port_ops (p : unit) : file_operations Serial.serial_state unit unit :=
  Serial.serial_ops.

(** [chrdev_drivers] of that layer once [init_driver_serial] has run. *)
Definition port_drivers : list (option unit) := [None; None; Some tt; None; None].

(** The layer of the ramdisks: its one table is [ramdisk_ops]. *)
Definition disk_ops (p : unit) : file_operations Ramdisk.rd_state unit unit :=
  Ramdisk.ramdisk_ops.

(** The serial ports before any is opened, nothing on the line. *)
Definition serial_boot : Serial.serial_state :=
  Serial.mk_serial_state Serial.serials_init
    (Serial.mk_uarts Serial.uart_init Serial.uart_init).

(** COM1 once it has been opened: slot 0 of [serials] holds its port base
    and the flag word [sflags], the UART is out of loopback mode with [rx_]
    waiting on the line and [tx_] sent so far, last byte first; and the file
    opened on it. *)
Definition com1_open (sflags : Z) (rx_ tx_ : list Z) : Serial.serial_state :=
  Serial.mk_serial_state [Serial.mk_serial 1016 sflags; Serial.mk_serial 0 0]
    (Serial.mk_uarts (Serial.mk_uart rx_ tx_ 15) Serial.uart_init).

Definition com1_file : file unit :=
  mk_file (mk_fstat 0 DT_CHR (MAKEDEV MAJ_SERIAL 1) 0) 0 (Some tt) (Some O).

(** An initialised TTY on COM1 with the flag word [flags], nothing buffered,
    and [ibuf_] in its line buffer. *)
Definition tty_on_com1 (flags : Z) (ibuf_ : list Z) : Tty.tty :=
  Tty.mk_tty com1_file flags true false false 0 ibuf_.

(** A character that goes into the line as it is: printable ASCII. *)
Definition plain (c : Z) : Prop := 32 <= c <= 126.

(** What the TTY echoes for a line of plain characters and the newline that
    ends it, as the port puts it on the wire. *)
Definition echo_of (fl sflags : Z) (chars : list Z) : list Z :=
  if Z.land fl Tty.TTY_ECHO =? 0 then [] else Serial.wire sflags chars.

(** A TTY on COM1 with [pre] in its line buffer and [junk] in the rest of
    the array. *)
Definition line_tty (fl : Z) (eol : bool) (pre junk : list Z) : Tty.tty :=
  Tty.mk_tty com1_file fl true eol false (Z.of_nat (length pre)) (pre ++ junk).

(** The file a process holds on TTY minor 1, slot 1 of [ttys]. *)
Definition tty1_file : file fops_ptr :=
  mk_file (mk_fstat 0 DT_CHR (MAKEDEV MAJ_TTY 1) 0) 0 (Some tty_fops) (Some 1%nat).

(** What [echoc] makes COM1 send for the character [ch] when the TTY has
    ECHO and ECHOCTL set and the port filters nothing. *)
Definition echoc_sent (ch : Z) : list Z :=
  Serial.sent
    (Serial.com1
       (Serial.hardware
          (Tty.echoc port_ops
             (tty_on_com1 (Z.lor Tty.TTY_ECHO Tty.TTY_ECHOCTL) [])
             ch (com1_open 0 [] [])).2)).

(** The same by ranges, read off the branches of [echoc]: printable
    characters, tab, newline, carriage return and NUL go out as they are;
    0x01 to 0x1e, those three apart, as a caret and the character plus 0x40;
    0x7f as "^?"; 0x1f and the characters from 0x80 on in hexadecimal. *)
Definition echoc_by_range (ch : Z) : list Z :=
  let u := wrap_u8 ch in
  if (32 <=? ch) && (ch <=? 126) then [u]
  else if (ch =? 9) || (ch =? 10) || (ch =? 13) || (ch =? 0) then [u]
  else if (1 <=? ch) && (ch <=? 30) then [94; ch + 64]
  else if ch =? 127 then [94; 63]
  else [92; 120; Sprintf.hexdigit (u / 16); Sprintf.hexdigit (u mod 16)].

(** A filesystem driver that, like [cpio_fs_ops], opens files through
    [cpio_file_ops], here without an [sb_open] entry, which [sb_open] allows
    for; and the file operations behind it, empty. *)
Definition bare_fs_ops (p : fsops_ptr) : fs_operations unit fops_ptr fsops_ptr :=
  mk_fs_operations None None (Some cpio_file_fops).

Definition bare_file_ops (p : fops_ptr) : file_operations unit fops_ptr fsops_ptr :=
  mk_file_operations None None None None None None.

(** vfs_fs.c once the filesystem driver is registered as FS_CPIO. *)
Definition vfs_boot : Mount.vfs_state fsops_ptr :=
  Mount.mk_vfs_state (fs_register fs_drivers_init FS_CPIO cpio_fs_fops).1
    (Mount.superblocks Mount.vfs_init)
    (Mount.vfs_mount_list (Mount.vfs_init (fsops := fsops_ptr))).

(** The ramdisk device 0 is mounted at "/bin" and then at "/". *)
Definition bin_then_root : Mount.vfs_state fsops_ptr * Z * Z :=
  let '(st, w, r1) :=
    Mount.fs_mountdev bare_fs_ops vfs_boot (MAKEDEV MAJ_RAMDISK 0) FS_CPIO
      (cstr "/bin") tt in
  let '(st, w, r2) :=
    Mount.fs_mountdev bare_fs_ops st (MAKEDEV MAJ_RAMDISK 0) FS_CPIO
      (cstr "/") w in
  (st, r1, r2).

(** The ramdisk device 0 is mounted at each of the paths in turn; the
    results of the calls come with the state. *)
Fixpoint mount_each (paths : list (list Z)) (st : Mount.vfs_state fsops_ptr)
    : Mount.vfs_state fsops_ptr * list Z :=
  match paths with
  | [] => (st, [])
  | p :: paths' =>
      let '(st, w, r) :=
        Mount.fs_mountdev bare_fs_ops st (MAKEDEV MAJ_RAMDISK 0) FS_CPIO p tt in
      let '(st, rs) := mount_each paths' st in
      (st, r :: rs)
  end.

(** As many mounts as there are superblocks. *)
Definition four_mounts : Mount.vfs_state fsops_ptr * list Z :=
  mount_each [cstr "/"; cstr "/bin"; cstr "/dev"; cstr "/tmp"] vfs_boot.

(** A newc archive of 468 bytes with the entries ".", "a" (the four bytes
    "abcd", at offset 224) and "b" (the three bytes "xyz", at offset 340),
    and the trailer. *)
Definition initrd : list Z :=
  cstr "07070100000001000041ED0000000000000000000000010000000000000000000000000000000000000000000000000000000200000000"
  ++ cstr "." ++ [0]
  ++ cstr "07070100000002000081A40000000000000000000000010000000000000004000000000000000000000000000000000000000200000000"
  ++ cstr "a" ++ [0] ++ cstr "abcd"
  ++ cstr "07070100000003000081A40000000000000000000000010000000000000003000000000000000000000000000000000000000200000000"
  ++ cstr "b" ++ [0] ++ cstr "xyz" ++ [0]
  ++ cstr "07070100000000000000000000000000000000000000010000000000000000000000000000000000000000000000000000000B00000000"
  ++ cstr "TRAILER!!!" ++ [0; 0; 0; 0].

(** The archive in memory at address 1048576, registered as ramdisk 0. *)
Definition initrd_disk : Ramdisk.rd_state :=
  Ramdisk.mk_rd_state (fun a => nth (Z.to_nat (a - 1048576)) initrd 0)
    (<[O := Ramdisk.mk_ramdisk (Some 1048576) 468]> Ramdisk.ramdisks_init).

(** [chrdev_drivers] of the ramdisk layer once [init_driver_ramdisk] has
    run. *)
Definition disk_drivers : list (option unit) := [None; None; None; None; Some tt].

(** The superblock of the archive mounted at "/": all the CPIO driver reads
    of it is the block device. *)
Definition initrd_sb : superblock unit :=
  mk_superblock 0 (MAKEDEV MAJ_RAMDISK 0) (cstr "/" ++ replicate 127 0)
    (mk_list_head None None) (Some tt) None.

(** "a" is opened on the archive: what [file_open_sb_path] hands to the
    driver's [open_path] and what comes back. *)
Definition initrd_open_a : option (Cpio.cpio_state * file unit * Z) :=
  Cpio.cpio_file_open_path disk_ops disk_drivers 8
    (set_f_op file_zero (Some tt)) initrd_sb (cstr "a")
    (Cpio.mk_cpio_state Cpio.cfdatas_init initrd_disk).

(** The driver's state and the file once "a" is open. *)
Definition initrd_a_open : Cpio.cpio_state :=
  match initrd_open_a with
  | Some (w, _, _) => w
  | None => Cpio.mk_cpio_state Cpio.cfdatas_init initrd_disk
  end.

Definition initrd_a_file : file unit :=
  match initrd_open_a with
  | Some (_, f, _) => f
  | None => file_zero
  end.

(** The layer of the CPIO files over the ramdisks. *)
Definition cpio_ops (p : unit) : file_operations Cpio.cpio_state unit unit :=
  Cpio.cpio_file_ops disk_ops.

(** A ramdisk of sixteen bytes, 0x10 to 0x1f, at address 4096, and a file
    opened on it (minor 0) that has been read up to offset 5. *)
Definition disk16 : Ramdisk.rd_state :=
  Ramdisk.mk_rd_state (fun a => a - 4096 + 16)
    (<[O := Ramdisk.mk_ramdisk (Some 4096) 16]> Ramdisk.ramdisks_init).

Definition disk16_file : file unit :=
  mk_file (mk_fstat 0 DT_CHR (MAKEDEV MAJ_RAMDISK 0) 16) 5 (Some tt) (Some O).

End Kernel.

(* ================================================================== *)
(** * Properties: driver registration                                  *)
(* ================================================================== *)

Section RegistryProperties.
Import Cint Errno Vfs.
Context {ops : Type} `{EqDecision ops}.

Lemma fs_register_invalid (tbl : list (option ops)) (id : Z) (o : ops) :
  id <= 0 \/ FSTYPES_MAX <= id ->
  fs_register tbl id o = (tbl, - EINVAL).
Proof.
  intros Hid. unfold fs_register, fs_register_inner.
  destruct ((id <=? 0) || (FSTYPES_MAX <=? id)) eqn:E; [reflexivity|].
  apply orb_false_iff in E as [E1 E2]. lia.
Qed.

Lemma fs_register_fresh (tbl : list (option ops)) (id : Z) (o : ops) :
  0 < id < FSTYPES_MAX ->
  tbl !! Z.to_nat id = Some None ->
  fs_register tbl id o = (<[Z.to_nat id := Some o]> tbl, 0).
Proof.
  intros Hid Hfree. unfold fs_register, fs_register_inner.
  destruct ((id <=? 0) || (FSTYPES_MAX <=? id)) eqn:E.
  - apply orb_true_iff in E as [E|E]; lia.
  - rewrite Hfree. reflexivity.
Qed.

Lemma fs_register_taken (tbl : list (option ops)) (id : Z) (cur o : ops) :
  0 < id < FSTYPES_MAX ->
  tbl !! Z.to_nat id = Some (Some cur) ->
  fs_register tbl id o = (tbl, if decide (cur = o) then 0 else - EBUSY).
Proof.
  intros Hid Hcur. unfold fs_register, fs_register_inner.
  destruct ((id <=? 0) || (FSTYPES_MAX <=? id)) eqn:E.
  - apply orb_true_iff in E as [E|E]; lia.
  - rewrite Hcur. reflexivity.
Qed.

(** [fs_register] does what the specification says of registration: a free
    in-range id takes the table, registering the same table again succeeds,
    another table is refused with EBUSY and leaves the entry as it is, and an
    id out of range is refused with EINVAL. *)
Lemma fs_register_contract (tbl : list (option ops)) (id : Z) (o other : ops) :
  (0 < id < FSTYPES_MAX ->
   tbl !! Z.to_nat id = Some None ->
   let tbl1 := <[Z.to_nat id := Some o]> tbl in
   fs_register tbl id o = (tbl1, 0)
   /\ fs_register tbl1 id o = (tbl1, 0)
   /\ (other <> o -> fs_register tbl1 id other = (tbl1, - EBUSY)))
  /\ (id <= 0 \/ FSTYPES_MAX <= id -> fs_register tbl id o = (tbl, - EINVAL)).
Proof.
  split; [|apply fs_register_invalid].
  intros Hid Hfree tbl1.
  assert (Hlen : (Z.to_nat id < length tbl)%nat)
    by (apply lookup_lt_is_Some; eauto).
  assert (Hnew : tbl1 !! Z.to_nat id = Some (Some o))
    by (apply list_lookup_insert_eq; exact Hlen).
  split; [apply fs_register_fresh; assumption|].
  split.
  - rewrite (fs_register_taken tbl1 id o o Hid Hnew).
    destruct (decide (o = o)); [reflexivity|contradiction].
  - intros Hne. rewrite (fs_register_taken tbl1 id o other Hid Hnew).
    destruct (decide (o = other)); [subst; contradiction|reflexivity].
Qed.

(** The inner function of [chrdev_register] keeps the same contract. *)
Lemma chrdev_register_inner_contract (tbl : list (option ops)) (maj : Z)
    (o other : ops) :
  (0 < maj < MAJORS_MAX ->
   tbl !! Z.to_nat maj = Some None ->
   let tbl1 := <[Z.to_nat maj := Some o]> tbl in
   chrdev_register_inner tbl maj o = (tbl1, 0)
   /\ chrdev_register_inner tbl1 maj o = (tbl1, 0)
   /\ (other <> o -> chrdev_register_inner tbl1 maj other = (tbl1, - EBUSY)))
  /\ (maj <= 0 \/ MAJORS_MAX <= maj ->
      chrdev_register_inner tbl maj o = (tbl, - EINVAL)).
Proof.
  split.
  - intros Hid Hfree tbl1.
    assert (Hlen : (Z.to_nat maj < length tbl)%nat)
      by (apply lookup_lt_is_Some; eauto).
    assert (Hnew : tbl1 !! Z.to_nat maj = Some (Some o))
      by (apply list_lookup_insert_eq; exact Hlen).
    unfold chrdev_register_inner.
    destruct ((maj <=? 0) || (MAJORS_MAX <=? maj)) eqn:E.
    { apply orb_true_iff in E as [E|E]; lia. }
    rewrite Hfree, Hnew. split; [reflexivity|]. split.
    + destruct (decide (o = o)); [reflexivity|contradiction].
    + intros Hne. destruct (decide (o = other)); [subst; contradiction|reflexivity].
  - intros Hid. unfold chrdev_register_inner.
    destruct ((maj <=? 0) || (MAJORS_MAX <=? maj)) eqn:E; [reflexivity|].
    apply orb_false_iff in E as [E1 E2]. lia.
Qed.

(** Whatever the inner function reports, [chrdev_register] returns the major
    number it was given. *)
Lemma chrdev_register_result (tbl : list (option ops)) (maj : Z) (o : ops) :
  chrdev_register tbl maj o = ((chrdev_register_inner tbl maj o).1, wrap_s32 maj).
Proof.
  unfold chrdev_register. destruct (chrdev_register_inner tbl maj o). reflexivity.
Qed.

End RegistryProperties.

(** C3.  [init_driver_tty] on the table at boot: [chrdev_register(MAJ_TTY,
    &tty_ops)] stores the table and returns 3, not 0; registering the same
    table again returns 3; registering another table for the major leaves the
    entry alone and returns 3, not -EBUSY; the out-of-range major 7 returns 7
    and major 0 returns 0, not -EINVAL. *)
Theorem chrdev_register_returns_major :
  let tbl0 := Kernel.chrdev_drivers_init in
  let tbl1 := <[3%nat := Some Kernel.tty_fops]> tbl0 in
  Vfs.chrdev_register tbl0 Vfs.MAJ_TTY Kernel.tty_fops = (tbl1, 3)
  /\ Vfs.chrdev_register tbl1 Vfs.MAJ_TTY Kernel.tty_fops = (tbl1, 3)
  /\ Vfs.chrdev_register tbl1 Vfs.MAJ_TTY Kernel.serial_fops = (tbl1, 3)
  /\ Vfs.chrdev_register tbl0 7 Kernel.tty_fops = (tbl0, 7)
  /\ Vfs.chrdev_register tbl0 0 Kernel.tty_fops = (tbl0, 0).
Proof. repeat split; reflexivity. Qed.

(* ================================================================== *)
(** * Properties: seeking                                              *)
(* ================================================================== *)

Section LseekProperties.
Import Cint Errno Vfs.
Context {W fops fsops : Type}.
Variable ops : fops -> file_operations W fops fsops.

(** C6, as the code has it.  For an open file whose driver's [lseek] entry,
    if there is one, leaves the position alone, [file_lseek(f, 0, SEEK_CUR)]
    leaves [f_pos] unchanged and returns the entry's result, 0 when the
    driver has no entry. *)
Theorem file_lseek_cur_zero (f : file fops) (p : fops) (w : W) :
  f_op f = Some p ->
  in_s32 (f_pos f) ->
  (forall hook, lseek (ops p) = Some hook ->
     f_pos (hook f 0 SEEK_CUR w).1.2 = f_pos f) ->
  f_pos (file_lseek ops f 0 SEEK_CUR w).1.2 = f_pos f
  /\ (file_lseek ops f 0 SEEK_CUR w).2 =
     match lseek (ops p) with
     | Some hook => wrap_s32 (hook f 0 SEEK_CUR w).2
     | None => 0
     end.
Proof.
  intros Hop Hpos Hhook. unfold file_lseek. rewrite Hop.
  assert (Hwrap : forall z, in_s32 z -> wrap_s32 (z + 0) = z).
  { intros z Hz. unfold in_s32 in Hz. unfold wrap_s32.
    rewrite Z.add_0_r, Z.mod_small by lia. lia. }
  destruct (lseek (ops p)) as [hook|] eqn:Hl.
  - specialize (Hhook hook eq_refl).
    destruct (hook f 0 SEEK_CUR w) as [[w' f'] r]. simpl in Hhook |- *.
    destruct (wrap_s32 r <? 0); simpl; [auto|].
    rewrite Hhook, Hwrap by assumption. auto.
  - simpl. rewrite Hwrap by assumption. auto.
Qed.

End LseekProperties.

(** The ramdisk file at offset 5: its driver has no [lseek] entry, the seek
    leaves the offset at 5 and returns 0. *)
Lemma file_lseek_cur_zero_witness :
  Vfs.f_pos (Vfs.file_lseek Kernel.disk_ops Kernel.disk16_file 0 Vfs.SEEK_CUR
               Kernel.disk16).1.2 = 5
  /\ (Vfs.file_lseek Kernel.disk_ops Kernel.disk16_file 0 Vfs.SEEK_CUR
        Kernel.disk16).2 = 0.
Proof.
  apply (file_lseek_cur_zero Kernel.disk_ops Kernel.disk16_file tt Kernel.disk16).
  - reflexivity.
  - unfold Cint.in_s32. simpl. lia.
  - intros hook H. discriminate H.
Defined.

(** C6 as stated fails: for the ramdisk file at offset 5 the seek returns 0,
    which is not the current position. *)
Lemma file_lseek_cur_zero_not_position :
  let r := Vfs.file_lseek Kernel.disk_ops Kernel.disk16_file 0 Vfs.SEEK_CUR
             Kernel.disk16 in
  Vfs.f_pos r.1.2 = 5 /\ r.2 = 0 /\ r.2 <> Vfs.f_pos r.1.2.
Proof. vm_compute. repeat split; discriminate. Qed.

(* ================================================================== *)
(** * Properties: opening a TTY                                        *)
(* ================================================================== *)

Section TtyOpenProperties.
Import Cint Errno Vfs Tty.
Context {LW LP LS P : Type}.
Variable lops : LP -> file_operations LW LP LS.

(** A minor above [TTY_CT] is refused. *)
Lemma tty_open_dev_refused (chr : list (option LP)) (f : file P) (min : Z)
    (w : tty_state) :
  TTY_CT < min ->
  tty_open_dev lops chr f min w = InBounds (w, f, - ENODEV).
Proof.
  intros Hmin. unfold tty_open_dev.
  destruct (min >? TTY_CT) eqn:E; [reflexivity|lia].
Qed.

(** Minors 0 and 1 stay inside the array of [TTY_CT] slots. *)
Lemma tty_open_dev_in_bounds (chr : list (option LP)) (f : file P) (min : Z)
    (w : tty_state) :
  0 <= min < TTY_CT ->
  length (ttys w) = Z.to_nat TTY_CT ->
  tty_open_dev lops chr f min w <> OutOfBounds.
Proof.
  intros Hmin Hlen. unfold tty_open_dev.
  destruct (min >? TTY_CT) eqn:E; [discriminate|].
  destruct (ttys w !! Z.to_nat min) as [t|] eqn:Ht.
  - destruct (initialized t); [discriminate|].
    destruct (min =? 0); [discriminate|].
    destruct (file_open_dev lops chr (MAKEDEV MAJ_SERIAL min) (port_state w))
      as [[lw pd] portres].
    destruct (portres <? 0); discriminate.
  - apply lookup_ge_None in Ht. unfold TTY_CT in *. lia.
Qed.

(** The minor [TTY_CT] itself passes the range test and indexes the slot
    after the last. *)
Lemma tty_open_dev_tty_ct (chr : list (option LP)) (f : file P) (t0 t1 : tty)
    (lw : LW) :
  tty_open_dev lops chr f TTY_CT (mk_tty_state [t0; t1] lw) = OutOfBounds.
Proof. reflexivity. Qed.

End TtyOpenProperties.

Lemma tty_open_dev_refused_witness :
  Tty.tty_open_dev Kernel.port_ops Kernel.port_drivers (@Vfs.file_zero unit) 3
    (Tty.mk_tty_state Tty.ttys_init Kernel.serial_boot)
  = Tty.InBounds
      (Tty.mk_tty_state Tty.ttys_init Kernel.serial_boot, Vfs.file_zero, - Errno.ENODEV).
Proof. apply tty_open_dev_refused. unfold Tty.TTY_CT. lia. Defined.

Lemma tty_open_dev_in_bounds_witness :
  Tty.tty_open_dev Kernel.port_ops Kernel.port_drivers (@Vfs.file_zero unit) 1
    (Tty.mk_tty_state Tty.ttys_init Kernel.serial_boot)
  <> Tty.OutOfBounds.
Proof.
  apply tty_open_dev_in_bounds.
  - unfold Tty.TTY_CT. lia.
  - reflexivity.
Defined.

(** C10.  On the kernel as booted, [tty_open_dev(file, 2)] neither fails with
    ENODEV nor stays inside [ttys]: minor 2 passes [min > TTY_CT] and
    [&ttys[2]] is dereferenced, one slot past the two the array has. *)
Theorem tty_open_dev_minor_2_out_of_bounds :
  Tty.tty_open_dev Kernel.port_ops Kernel.port_drivers (@Vfs.file_zero unit) 2
    (Tty.mk_tty_state Tty.ttys_init Kernel.serial_boot)
  = Tty.OutOfBounds.
Proof. reflexivity. Qed.

(* ================================================================== *)
(** * Properties: reading a ramdisk                                    *)
(* ================================================================== *)

Section RamdiskProperties.
Import Cint Errno Vfs Ramdisk.
Context {fops : Type}.

Lemma wrap_s32_range (z : Z) : in_s32 (wrap_s32 z).
Proof.
  unfold in_s32, wrap_s32.
  pose proof (Z.mod_pos_bound (z + 2 ^ 31) (2 ^ 32) ltac:(lia)). lia.
Qed.

Lemma wrap_s32_id (z : Z) : in_s32 z -> wrap_s32 z = z.
Proof.
  unfold in_s32, wrap_s32. intros Hz. rewrite Z.mod_small by lia. lia.
Qed.

(** The copy loop with as many rounds as bytes are left in the ramdisk:
    it appends the next [min (count - i) (size - off)] bytes. *)
Lemma ramdisk_read_loop_spec (fuel : nat) (mem_ : Z -> Z) (base size count : Z) :
  forall (i off : Z) (dst : list Z),
  Z.of_nat fuel = size - off ->
  i <= count ->
  ramdisk_read_loop fuel mem_ base size count i off dst =
    (dst ++ bytes_at mem_ base off (Z.min (count - i) (size - off)),
     off + Z.min (count - i) (size - off),
     i + Z.min (count - i) (size - off)).
Proof.
  induction fuel as [|fuel IH]; intros i off dst Hfuel Hi; simpl.
  - replace (Z.min (count - i) (size - off)) with 0 by lia.
    unfold bytes_at. rewrite seqZ_nil by lia. simpl.
    rewrite app_nil_r, !Z.add_0_r. reflexivity.
  - destruct (i <? count) eqn:Hlt; simpl.
    + destruct (off <? size) eqn:Hsz; [|lia].
      rewrite IH by lia.
      replace (Z.min (count - i) (size - off))
        with (Z.succ (Z.min (count - (i + 1)) (size - (off + 1)))) by lia.
      unfold bytes_at.
      rewrite (seqZ_cons off) by lia. rewrite Z.pred_succ. simpl.
      rewrite <- app_assoc. simpl.
      replace (Z.succ off) with (off + 1) by lia.
      f_equal; [f_equal|]; lia.
    + replace (Z.min (count - i) (size - off)) with 0 by lia.
      unfold bytes_at. rewrite seqZ_nil by lia. simpl.
      rewrite app_nil_r, !Z.add_0_r. reflexivity.
Qed.

(** What a successful [ramdisk_open_dev] leaves in the file: the slot of the
    ramdisk and its size, snapshotted into [f_size]. *)
Lemma ramdisk_open_dev_ok (f0 f : file fops) (min : Z) (w w' : rd_state) :
  0 <= min ->
  ramdisk_open_dev f0 min w = (w', f, 0) ->
  exists base size,
    ramdisks w !! Z.to_nat min = Some (mk_ramdisk (Some base) size)
    /\ w' = w
    /\ f_driver_data f = Some (Z.to_nat min)
    /\ f_size (f_stat f) = wrap_s32 size.
Proof.
  intros Hmin. unfold ramdisk_open_dev.
  destruct (min >=? RAMDISKS_MAX); [unfold ENODEV; intros H; inversion H|].
  destruct (ramdisks w !! Z.to_nat min) as [[[base|] size]|] eqn:Hrd;
    try (unfold ENODEV; intros H; inversion H; fail).
  intros H. inversion H; subst. exists base, size. simpl. auto.
Qed.

(** C7.  Reading through a file opened on a ramdisk, at offset [pos] with a
    request of [count] bytes: a negative offset is clamped to 0 first; at or
    past the snapshotted size the read returns 0; otherwise exactly
    [min count (size - pos)] bytes are copied from the ramdisk's memory at
    that offset, the offset advances by that amount and that amount is
    returned. *)
Theorem ramdisk_read_contract (f0 f : file fops) (min : Z) (w : rd_state)
    (count pos : Z) :
  0 <= min ->
  0 <= count ->
  ramdisk_open_dev f0 min w = (w, f, 0) ->
  exists base rd_size_,
    ramdisks w !! Z.to_nat min = Some (mk_ramdisk (Some base) rd_size_)
    /\ f_size (f_stat f) = wrap_s32 rd_size_
    /\ let size := f_size (f_stat f) in
       let pos0 := Z.max pos 0 in
       ramdisk_read f count pos w =
         if size <=? pos0 then (w, [], pos0, 0)
         else
           let n := Z.min count (size - pos0) in
           (w, bytes_at (mem w) base pos0 n, pos0 + n, n).
Proof.
  intros Hmin Hcount Hopen.
  destruct (ramdisk_open_dev_ok f0 f min w w Hmin Hopen)
    as (base & size & Hrd & _ & Hdata & Hsize).
  exists base, size. split; [exact Hrd|]. split; [exact Hsize|].
  intros fsz pos0. unfold ramdisk_read.
  assert (Hrange : in_s32 fsz) by (unfold fsz; rewrite Hsize; apply wrap_s32_range).
  replace (if pos <? 0 then 0 else pos) with pos0 by (unfold pos0; destruct (pos <? 0) eqn:E; lia).
  fold fsz.
  destruct (pos0 >=? fsz) eqn:Hge; destruct (fsz <=? pos0) eqn:Hle; try lia.
  - reflexivity.
  - rewrite ramdisk_read_loop_spec by lia.
    unfold rd_base. rewrite Hdata. simpl. rewrite Hrd. simpl.
    rewrite Z.sub_0_r, Z.add_0_l.
    rewrite wrap_s32_id; [reflexivity|].
    unfold in_s32 in *. lia.
Qed.

End RamdiskProperties.

(** The sixteen-byte ramdisk, opened as minor 0 and read at offset 12 with a
    request of 8 bytes: the last four bytes come back and the offset ends at
    16. *)
Lemma ramdisk_read_contract_witness :
  exists base rd_size_,
    Ramdisk.ramdisks Kernel.disk16 !! Z.to_nat 0
      = Some (Ramdisk.mk_ramdisk (Some base) rd_size_)
    /\ Vfs.f_size (Vfs.f_stat (Vfs.set_f_pos Kernel.disk16_file 0)) = Cint.wrap_s32 rd_size_
    /\ let size := Vfs.f_size (Vfs.f_stat (Vfs.set_f_pos Kernel.disk16_file 0)) in
       let pos0 := Z.max 12 0 in
       Ramdisk.ramdisk_read (Vfs.set_f_pos Kernel.disk16_file 0) 8 12
           Kernel.disk16 =
         if size <=? pos0 then (Kernel.disk16, [], pos0, 0)
         else
           let n := Z.min 8 (size - pos0) in
           (Kernel.disk16, Ramdisk.bytes_at (Ramdisk.mem Kernel.disk16) base pos0 n,
            pos0 + n, n).
Proof.
  apply (ramdisk_read_contract
           (Vfs.mk_file (Vfs.mk_fstat 0 Vfs.DT_CHR (Vfs.MAKEDEV Vfs.MAJ_RAMDISK 0) 0)
              0 (Some tt) None)
           (Vfs.set_f_pos Kernel.disk16_file 0) 0 Kernel.disk16 8 12).
  - lia.
  - lia.
  - reflexivity.
Defined.

(** The same read, evaluated. *)
Example ramdisk_read_tail :
  Ramdisk.ramdisk_read (Vfs.set_f_pos Kernel.disk16_file 0) 8 12
    Kernel.disk16 = (Kernel.disk16, [28; 29; 30; 31], 16, 4).
Proof. reflexivity. Qed.

(* ================================================================== *)
(** * Properties: path_join                                            *)
(* ================================================================== *)

Section PathProperties.
Import Cint CString Sprintf Path.

Lemma is_cstr_strlen (s : list Z) : is_cstr s -> strlen s = Z.of_nat (length s).
Proof.
  induction 1 as [|c s [Hc _] _ IH]; simpl; [reflexivity|].
  destruct (c =? 0) eqn:E; [lia|]. rewrite IH. lia.
Qed.

Lemma wrap_s8_id (c : Z) : -128 <= c <= 127 -> wrap_s8 c = c.
Proof. intros H. unfold wrap_s8. rewrite Z.mod_small by lia. lia. Qed.

Lemma outstr_spec (str : list Z) :
  forall (buf : list Z) (s t : Z),
  is_cstr str ->
  0 <= s ->
  s + Z.of_nat (length str) <= t ->
  t <= Z.of_nat (length buf) ->
  outstr buf s t str =
    (take (Z.to_nat s) buf ++ str ++ drop (Z.to_nat s + length str) buf,
     s + Z.of_nat (length str)).
Proof.
  induction str as [|c str IH]; intros buf s t Hstr Hs Ht Hbuf; simpl.
  - rewrite Nat.add_0_r, take_drop, Z.add_0_r. reflexivity.
  - apply Forall_cons in Hstr as [[Hc Hrange] Hstr].
    destruct (c =? 0) eqn:E; [lia|].
    unfold outchar. destruct (s <? t) eqn:Hlt; [|simpl in Ht; lia].
    rewrite wrap_s8_id by assumption.
    rewrite IH; try assumption; try (simpl in Ht; rewrite ?length_insert; lia).
    f_equal; [|simpl in Ht; lia].
    replace (Z.to_nat (s + 1)) with (S (Z.to_nat s)) by lia.
    assert (Hlen : (Z.to_nat s < length buf)%nat) by (simpl in Ht; lia).
    erewrite take_S_r by (apply list_lookup_insert_eq; exact Hlen).
    rewrite take_insert_ge by lia.
    rewrite drop_insert_lt by lia.
    rewrite <- app_assoc.
    replace (S (Z.to_nat s) + length str)%nat with (Z.to_nat s + S (length str))%nat by lia.
    reflexivity.

Qed.


Lemma strlen_nonneg (s : list Z) : 0 <= strlen s.
Proof. induction s as [|c s IH]; simpl; [lia|]. destruct (c =? 0); lia. Qed.

Lemma format_loop_percent_s (args : list varg) (buf : list Z) (s t : Z) :
  format_loop (cstr "%s") Literal args buf s t =
    let '(b, s', _) := format_str buf s t spec_init args in (b, Some s').
Proof.
  change (cstr "%s") with [37; 115].
  unfold format_loop.
  change (chr "%") with 37. change (chr "s") with 115.
  change (37 =? 0) with false. change (37 =? 37) with true.
  cbv iota.
  change (chr "-") with 45. change (chr "+") with 43. change (chr " ") with 32.
  change (chr "#") with 35. change (chr "0") with 48. change (chr "9") with 57.
  change (chr "*") with 42. change (chr ".") with 46. change (chr "h") with 104.
  change (chr "l") with 108. change (chr "j") with 106. change (chr "z") with 122.
  change (chr "t") with 116. change (chr "L") with 76.
  cbn [Z.eqb Pos.eqb Z.leb Z.compare Pos.compare Pos.compare_cont andb orb].
  destruct (format_str buf s t spec_init args) as [[b s'] args'].
  reflexivity.
Qed.

Lemma format_str_plain (buf str : list Z) (s t : Z) (args : list varg) :
  format_str buf s t spec_init (VStr str :: args) = (outstr buf s t str, args).
Proof.
  unfold format_str, va_str, spec_init. cbn [sp_p sp_w sp_left sp_zero].
  change (WP_NONE =? WP_NONE) with true. cbn [negb].
  unfold outpadded. cbn [sp_p sp_w sp_left sp_zero strlen].
  change (WP_NONE =? WP_NONE) with true. cbv iota.
  pose proof (strlen_nonneg str) as Hlen.
  assert (Hnw : 0 <= wrap_u32 (0 + strlen str)).
  { unfold wrap_u32. apply Z.mod_pos_bound. lia. }
  replace (Z.to_nat (if 0 >? wrap_u32 (0 + strlen str)
                     then 0 - wrap_u32 (0 + strlen str) else 0)) with O
    by (destruct (0 >? wrap_u32 (0 + strlen str)); lia).
  cbn [negb andb outpad outstr].
  destruct (outstr buf s t str). reflexivity.
Qed.

Lemma snprintf_percent_s (buf str : list Z) (s n : Z) :
  is_cstr str ->
  0 <= s ->
  Z.of_nat (length str) < n ->
  s + n <= Z.of_nat (length buf) ->
  n < 2 ^ 31 ->
  snprintf buf s n (cstr "%s") [VStr str] =
    (take (Z.to_nat s) buf ++ str ++ 0 :: drop (Z.to_nat s + length str + 1) buf,
     Z.of_nat (length str)).
Proof.
  intros Hstr Hs Hn Hbuf Hmax.
  unfold snprintf. rewrite format_loop_percent_s, format_str_plain.
  rewrite (outstr_spec str buf s (s + n)) by (try assumption; lia).
  destruct (n =? 0) eqn:En; [lia|].
  destruct (s + Z.of_nat (length str) <? s + n) eqn:Elt; [|lia].
  f_equal.
  - set (pre := take (Z.to_nat s) buf).
    assert (Hpre : length pre = Z.to_nat s) by (unfold pre; rewrite length_take; lia).
    replace (Z.to_nat (s + Z.of_nat (length str))) with (length pre + (length str + 0))%nat by lia.
    rewrite insert_app_r, insert_app_r.
    f_equal. f_equal.
    assert (Hd : (0 < length (drop (Z.to_nat s + length str) buf))%nat)
      by (rewrite length_drop; lia).
    destruct (drop (Z.to_nat s + length str) buf) as [|x rest] eqn:Hdrop; [simpl in Hd; lia|].
    simpl. f_equal.
    rewrite <- drop_drop, Hdrop. reflexivity.
  - replace (s + Z.of_nat (length str) - s) with (Z.of_nat (length str)) by lia.
    unfold wrap_s32. rewrite Z.mod_small by lia. lia.
Qed.

Lemma snprintf_at_end (pre rest str : list Z) (n : Z) :
  is_cstr str ->
  Z.of_nat (length str) < n ->
  n <= Z.of_nat (length rest) ->
  n < 2 ^ 31 ->
  snprintf (pre ++ rest) (Z.of_nat (length pre)) n (cstr "%s") [VStr str] =
    ((pre ++ str) ++ 0 :: drop (length str + 1) rest, Z.of_nat (length str)).
Proof.
  intros Hstr Hn Hrest Hmax.
  rewrite snprintf_percent_s; try assumption; try lia.
  - rewrite Nat2Z.id, take_app_length.
    replace (length pre + length str + 1)%nat with (length pre + (length str + 1))%nat by lia.
    rewrite drop_app_add'; [|reflexivity]. rewrite <- app_assoc. reflexivity.
  - rewrite length_app. lia.
Qed.

Lemma string_at_loop_app (pre rest : list Z) :
  is_cstr pre -> string_at_loop (pre ++ 0 :: rest) = pre.
Proof.
  induction 1 as [|c pre [Hc _] _ IH]; simpl; [reflexivity|].
  destruct (c =? 0) eqn:E; [lia|]. rewrite IH. reflexivity.
Qed.

Lemma is_cstr_app (s t : list Z) : is_cstr s -> is_cstr t -> is_cstr (s ++ t).
Proof. unfold is_cstr. intros. apply Forall_app; auto. Qed.

Lemma BUFREM_lt (pos end_ : Z) : pos < end_ -> BUFREM pos end_ = end_ - pos.
Proof. intros H. unfold BUFREM. destruct (pos <? end_) eqn:E; lia. Qed.

Lemma join_sep_cases (a : list Z) :
  (join_sep a = [47] /\ a <> [] /\ last a <> Some 47)
  \/ (join_sep a = [] /\ (a = [] \/ last a = Some 47)).
Proof.
  unfold join_sep. change (chr "/") with 47.
  destruct (last a) as [c|] eqn:Hl.
  - destruct (c =? 47) eqn:E.
    + right. split; [reflexivity|]. right. f_equal. lia.
    + left. split; [reflexivity|]. split.
      * intros ->. discriminate Hl.
      * intros H. inversion H. lia.
  - right. split; [reflexivity|]. left. apply last_None. exact Hl.
Qed.

Lemma is_cstr_slash : is_cstr (cstr "/").
Proof.
  change (cstr "/") with [47]. constructor; [lia|constructor].
Qed.

(** What [path_join] leaves in the buffer for a relative [b]. *)
Lemma path_join_relative (dst a b : list Z) :
  is_cstr a -> is_cstr b ->
  Z.of_nat (length dst) < 2 ^ 31 ->
  deref b <> 47 ->
  Z.of_nat (length (a ++ join_sep a ++ b)) < Z.of_nat (length dst) ->
  exists rest,
    path_join dst (Z.of_nat (length dst)) (Some a) (Some b) =
      ((a ++ join_sep a ++ b) ++ 0 :: rest,
       Z.of_nat (length (a ++ join_sep a ++ b))).
Proof.
  intros Ha Hb Hmax Hrel Hfit.
  rewrite !length_app in Hfit.
  unfold path_join. change (chr "/") with 47.
  destruct (deref b =? 47) eqn:Eabs; [lia|]. cbn [negb].
  rewrite Z.add_0_l.
  rewrite BUFREM_lt by lia. rewrite Z.sub_0_r.
  pose proof (snprintf_at_end [] dst a (Z.of_nat (length dst)) Ha) as H1.
  cbn [app length] in H1. change (Z.of_nat 0) with 0 in H1.
  rewrite H1 by lia. clear H1.
  rewrite Z.add_0_l.
  set (rest1 := 0 :: drop (length a + 1) dst).
  assert (Hrest1 : Z.of_nat (length rest1) = Z.of_nat (length dst) - Z.of_nat (length a)).
  { unfold rest1. simpl. rewrite length_drop. lia. }
  assert (Hlast : default 0 ((a ++ rest1) !! Z.to_nat (Z.of_nat (length a) - 1))
                  = default 0 (last a) \/ a = []).
  { destruct a as [|c a'] eqn:Ea; [right; reflexivity|left].
    rewrite <- Ea in *. rewrite last_lookup.
    replace (Z.to_nat (Z.of_nat (length a) - 1)) with (Init.Nat.pred (length a))
      by (rewrite Ea; simpl; lia).
    rewrite lookup_app_l by (rewrite Ea; simpl; lia). reflexivity. }
  cbn [bool_decide is_Some]. 
  destruct (join_sep_cases a) as [(Hsep & Hne & Hl)|(Hsep & Hcase)]; rewrite Hsep in *.
  - (* a slash is inserted *)
    destruct Hlast as [Hlast|]; [|contradiction].
    assert (Ecase : bool_decide (is_Some (Some b)) && negb (Z.of_nat (length a) =? 0)
              && negb (default 0 ((a ++ rest1) !! Z.to_nat (Z.of_nat (length a) - 1)) =? 47)
              = true).
    { rewrite Hlast. destruct a as [|c a']; [contradiction|].
      destruct (last (c :: a')) as [x|] eqn:Hx; simpl.
      - destruct (x =? 47) eqn:E; [|reflexivity]. exfalso. apply Hl. f_equal. lia.
      - reflexivity. }
    rewrite Ecase.
    rewrite BUFREM_lt by (simpl in Hfit; lia).
    pose proof (snprintf_at_end a rest1 (cstr "/")
                  (Z.of_nat (length dst) - Z.of_nat (length a))) as H2.
    rewrite H2; [|apply is_cstr_slash|simpl in *; lia|lia|lia]. clear H2.
    change (Z.of_nat (length (cstr "/"))) with 1.
    change (cstr "/") with [47].
    set (rest2 := 0 :: drop (length [47] + 1) rest1).
    assert (Hrest2 : Z.of_nat (length rest2) = Z.of_nat (length dst) - Z.of_nat (length a) - 1).
    { unfold rest2. simpl length at 1. rewrite length_drop. simpl in *. lia. }
    replace (Z.of_nat (length a) + 1) with (Z.of_nat (length (a ++ [47])))
      by (rewrite length_app; simpl; lia).
    rewrite BUFREM_lt by (rewrite length_app; simpl in *; lia).
    pose proof (snprintf_at_end (a ++ [47]) rest2 b
           (Z.of_nat (length dst) - Z.of_nat (length (a ++ [47]))) Hb) as H3.
    rewrite H3; [|rewrite length_app; simpl in *; lia..]. clear H3.
    eexists. f_equal.
    + rewrite <- !app_assoc. reflexivity.
    + rewrite !length_app. simpl. unfold wrap_s32.
      rewrite Z.mod_small by (simpl in *; lia). lia.
  - (* no slash is inserted *)
    assert (Ecase : bool_decide (is_Some (Some b)) && negb (Z.of_nat (length a) =? 0)
              && negb (default 0 ((a ++ rest1) !! Z.to_nat (Z.of_nat (length a) - 1)) =? 47)
              = false).
    { destruct Hcase as [->|Hl]; [reflexivity|].
      destruct Hlast as [Hlast| ->]; [|reflexivity].
      rewrite Hlast, Hl. simpl. rewrite andb_false_r. reflexivity. }
    rewrite Ecase.
    rewrite BUFREM_lt by (simpl in Hfit; lia).
    pose proof (snprintf_at_end a rest1 b
           (Z.of_nat (length dst) - Z.of_nat (length a)) Hb) as H3.
    rewrite H3; [|simpl in *; lia..]. clear H3.
    eexists. f_equal.
    rewrite !length_app. simpl. unfold wrap_s32.
    rewrite Z.mod_small by (simpl in *; lia). lia.
Qed.

Lemma path_join_absolute (dst a b : list Z) :
  is_cstr b ->
  Z.of_nat (length dst) < 2 ^ 31 ->
  deref b = 47 ->
  Z.of_nat (length b) < Z.of_nat (length dst) ->
  exists rest,
    path_join dst (Z.of_nat (length dst)) (Some a) (Some b) =
      (b ++ 0 :: rest, Z.of_nat (length b)).
Proof.
  intros Hb Hmax Habs Hfit.
  unfold path_join. change (chr "/") with 47.
  destruct (deref b =? 47) eqn:Eabs; [|lia]. cbn [negb].
  rewrite Z.add_0_l, BUFREM_lt by lia. rewrite Z.sub_0_r.
  pose proof (snprintf_at_end [] dst b (Z.of_nat (length dst)) Hb) as H1.
  cbn [app length] in H1. change (Z.of_nat 0) with 0 in H1.
  rewrite H1 by lia. eexists. f_equal.
  rewrite Z.add_0_l. unfold wrap_s32. rewrite Z.mod_small by lia. lia.
Qed.

(** C9.  For C strings [a] and [b] whose join fits in the destination
    buffer, terminator included: [path_join] returns the length of the string
    it leaves there; that string is [b] when [b] starts with a slash;
    otherwise it starts with [a] and ends with [b], a slash stands between
    them exactly when [a] is non-empty and does not end with one, and no two
    slashes in a row touch the splice. *)
Theorem path_join_contract (dst a b : list Z) :
  is_cstr a -> is_cstr b ->
  Z.of_nat (length dst) < 2 ^ 31 ->
  Z.of_nat (length (join_spec a b)) < Z.of_nat (length dst) ->
  let r := path_join dst (Z.of_nat (length dst)) (Some a) (Some b) in
  let res := string_at r.1 0 in
  r.2 = Z.of_nat (length res)
  /\ (deref b = chr "/" -> res = b)
  /\ (deref b <> chr "/" ->
      a `prefix_of` res
      /\ b `suffix_of` res
      /\ (a <> [] /\ last a <> Some (chr "/") -> res = a ++ chr "/" :: b)
      /\ (a = [] \/ last a = Some (chr "/") -> res = a ++ b)
      /\ forall i : nat,
           (length a <= S i)%nat -> (i < length (a ++ join_sep a))%nat ->
           ~ double_slash_at res i).
Proof.
  intros Ha Hb Hmax Hfit r res. change (chr "/") with 47 in *.
  unfold join_spec in Hfit. change (chr "/") with 47 in Hfit.
  destruct (deref b =? 47) eqn:Eabs.
  - destruct (path_join_absolute dst a b Hb Hmax ltac:(lia) Hfit) as [rest Hr].
    assert (Hres : res = b).
    { unfold res, r. rewrite Hr. unfold string_at. simpl.
      apply string_at_loop_app. exact Hb. }
    split; [unfold r; rewrite Hr, Hres; reflexivity|].
    split; [intros _; exact Hres|]. intros Hrel. lia.
  - destruct (path_join_relative dst a b Ha Hb Hmax ltac:(lia) Hfit) as [rest Hr].
    assert (Hsepc : is_cstr (join_sep a)).
    { destruct (join_sep_cases a) as [(-> & _)|(-> & _)];
        [apply is_cstr_slash|constructor]. }
    assert (Hres : res = a ++ join_sep a ++ b).
    { unfold res, r. rewrite Hr. unfold string_at. simpl.
      apply string_at_loop_app. repeat apply is_cstr_app; assumption. }
    split; [unfold r; rewrite Hr, Hres; reflexivity|].
    split; [intros Habs; lia|]. intros _.
    split; [rewrite Hres; apply prefix_app_r; reflexivity|].
    split; [rewrite Hres, app_assoc; apply suffix_app_r; reflexivity|].
    destruct (join_sep_cases a) as [(Hsep & Hne & Hl)|(Hsep & Hcase)];
      rewrite Hsep in Hres |- *.
    + split; [intros _; exact Hres|].
      split; [intros [->|Hl']; [contradiction|rewrite Hl' in Hl; contradiction]|].
      intros i Hi1 Hi2 [H1 H2]. rewrite length_app in Hi2. simpl in Hi2.
      change (chr "/") with 47 in H1, H2.
      rewrite Hres in H1, H2.
      assert (Hi : i = Init.Nat.pred (length a) \/ i = length a) by lia.
      destruct Hi as [-> | ->].
      * rewrite lookup_app_l in H1 by (destruct a; [contradiction|simpl; lia]).
        rewrite <- last_lookup in H1. contradiction.
      * rewrite app_assoc in H2.
        rewrite lookup_app_r in H2 by (rewrite length_app; simpl; lia).
        rewrite length_app in H2. simpl in H2.
        replace (S (length a) - (length a + 1))%nat with O in H2 by lia.
        destruct b as [|c b']; [discriminate H2|]. simpl in H2, Eabs.
        inversion H2. lia.
    + split; [intros [Hne Hl]; destruct Hcase; contradiction|].
      split; [intros _; exact Hres|].
      intros i Hi1 Hi2 [H1 H2]. rewrite length_app in Hi2. simpl in Hi2.
      change (chr "/") with 47 in H1, H2.
      rewrite Hres in H2. simpl in H2.
      assert (Hi : S i = length a) by lia.
      rewrite Hi in H2.
      replace (length a) with (length a + 0)%nat in H2 at 1 by lia.
      rewrite lookup_app_r in H2 by lia.
      replace (length a + 0 - length a)%nat with O in H2 by lia.
      destruct b as [|c b']; [discriminate H2|]. simpl in H2, Eabs.
      inversion H2. lia.
Qed.

End PathProperties.

(** A C string given by a literal has no NUL inside. *)
Ltac is_cstr_literal :=
  unfold CString.is_cstr;
  match goal with
  | |- Forall _ ?l => let l' := eval vm_compute in l in change l with l'
  end;
  repeat (constructor; [lia|]); constructor.

(** Joining "/usr" and "bin" in a buffer of sixteen bytes. *)
Lemma path_join_contract_witness :
  let a := CString.cstr "/usr" in
  let b := CString.cstr "bin" in
  let r := Path.path_join (replicate 16 0) 16 (Some a) (Some b) in
  let res := Path.string_at r.1 0 in
  r.2 = Z.of_nat (length res)
  /\ (CString.deref b = Sprintf.chr "/" -> res = b)
  /\ (CString.deref b <> Sprintf.chr "/" ->
      a `prefix_of` res
      /\ b `suffix_of` res
      /\ (a <> [] /\ last a <> Some (Sprintf.chr "/") -> res = a ++ Sprintf.chr "/" :: b)
      /\ (a = [] \/ last a = Some (Sprintf.chr "/") -> res = a ++ b)
      /\ forall i : nat,
           (length a <= S i)%nat -> (i < length (a ++ Path.join_sep a))%nat ->
           ~ Path.double_slash_at res i).
Proof.
  apply (path_join_contract (replicate 16 0) (CString.cstr "/usr") (CString.cstr "bin")).
  - is_cstr_literal.
  - is_cstr_literal.
  - vm_compute. reflexivity.
  - vm_compute. reflexivity.
Defined.

(** The same join and three more, evaluated. *)
Example path_join_examples :
  let join (a b : string) :=
    Path.string_at (Path.path_join (replicate 16 0) 16 (Some (CString.cstr a))
                      (Some (CString.cstr b))).1 0 in
  join "/usr"%string "bin"%string = CString.cstr "/usr/bin"
  /\ join "/usr/"%string "bin"%string = CString.cstr "/usr/bin"
  /\ join "/usr"%string "/bin"%string = CString.cstr "/bin"
  /\ join ""%string "bin"%string = CString.cstr "bin".
Proof. vm_compute. repeat split; reflexivity. Qed.

(* ================================================================== *)
(** * Properties: the TTY line discipline                              *)
(* ================================================================== *)

Section TtyProperties.
Import Cint Errno CString Vfs Kernel.

(** The input loop of [tty_read] on the seven bytes "ab\b\bcd\n": the line
    buffer ends up holding "cd\n" with the line complete, the bytes are gone
    from the port, and the echo has been sent. *)
Lemma tty_read_loop_editing (icrnl ocrnl : bool) (fuel : nat)
    (c0 c1 c2 : Z) (ib rest tx0 : list Z) :
  Tty.tty_read_loop port_ops (8 + fuel)
    (tty_on_com1 (Z.lor Tty.TTY_ECHO Tty.TTY_COOKED) (c0 :: c1 :: c2 :: ib))
    (com1_open (Serial.srl_flags icrnl ocrnl)
       (97 :: 98 :: 8 :: 8 :: 99 :: 100 :: 10 :: rest) tx0)
    (- EAGAIN) =
  Some (Tty.mk_tty com1_file 5 true true false 3 (99 :: 100 :: 10 :: ib),
        com1_open (Serial.srl_flags icrnl ocrnl) rest
          (rev (Serial.wire (Serial.srl_flags icrnl ocrnl)
                  [97; 98; 8; 32; 8; 8; 32; 8; 99; 100; 10]) ++ tx0),
        1, None).
Proof. destruct icrnl, ocrnl; vm_compute; reflexivity. Qed.

(** C5.  A TTY with ECHO|COOKED and nothing buffered, on a serial port where
    the bytes "ab\b\bcd\n" wait (whatever follows them, whatever the port's
    newline flags and whatever the line buffer held before): a read of at
    least 3 bytes returns exactly "cd\n" and leaves the buffer empty with no
    line pending; the seven bytes are consumed and the port has been handed
    exactly "ab\b \b\b \bcd\n", which it sent through its output filter,
    unchanged when OCRNL is off. *)
Theorem tty_cooked_editing (icrnl ocrnl : bool) (fuel : nat) (count off : Z)
    (ibuf_ rest tx0 : list Z) (other : Tty.tty) :
  length ibuf_ = Z.to_nat Tty.IBUFSZ ->
  (8 <= fuel)%nat ->
  3 <= count ->
  let sflags := Serial.srl_flags icrnl ocrnl in
  let echoed := [97; 98; 8; 32; 8; 8; 32; 8; 99; 100; 10] in
  let t0 := tty_on_com1 (Z.lor Tty.TTY_ECHO Tty.TTY_COOKED) ibuf_ in
  let w0 := com1_open sflags ([97; 98; 8; 8; 99; 100; 10] ++ rest) tx0 in
  exists t' w',
    Tty.tty_read port_ops fuel tty1_file count off (Tty.mk_tty_state [other; t0] w0)
      = Some (Tty.mk_tty_state [other; t'] w', [99; 100; 10], off, 3)
    /\ Tty.ilen t' = 0
    /\ Tty.ibuf_eol t' = false
    /\ Tty.ibuf_eof t' = false
    /\ Serial.rx (Serial.com1 (Serial.hardware w')) = rest
    /\ Serial.sent (Serial.com1 (Serial.hardware w')) =
         Serial.sent (Serial.com1 (Serial.hardware w0)) ++ Serial.wire sflags echoed
    /\ (ocrnl = false -> Serial.wire sflags echoed = echoed).
Proof.
  intros Hlen Hfuel Hcount sflags echoed t0 w0.
  destruct ibuf_ as [|c0 [|c1 [|c2 ib]]]; try discriminate Hlen.
  replace fuel with (8 + (fuel - 8))%nat by lia.
  unfold Tty.tty_read.
  cbn [f_driver_data tty1_file Tty.ttys Tty.port_state mbind option_bind
       lookup list_lookup default].
  unfold Tty.tty_read_tty, t0, w0, sflags.
  cbn [app].
  rewrite tty_read_loop_editing.
  cbn [Tty.ilen Tty.ibuf_eol Tty.ibuf_eof Tty.ibuf Tty.flags Tty.ISCOOKED].
  change (3 =? 0) with false.
  change (negb (Z.land 5 Tty.TTY_COOKED =? 0) && negb true) with false.
  cbv iota.
  assert (Hmin : MIN 3 count = 3).
  { unfold MIN. destruct (3 <=? count) eqn:E; lia. }
  rewrite Hmin.
  eexists _, _. split; [reflexivity|].
  repeat split.
  - unfold Serial.sent. cbn [Serial.tx Serial.com1 Serial.hardware com1_open].
    rewrite rev_app_distr, rev_involutive. reflexivity.
  - intros ->. destruct icrnl; reflexivity.
Qed.
End TtyProperties.

(** The read on the TTY as booted, with exactly the seven bytes on the line
    and both newline flags of the port off. *)
Lemma tty_cooked_editing_witness :
  let echoed := [97; 98; 8; 32; 8; 8; 32; 8; 99; 100; 10] in
  let t0 :=
    Kernel.tty_on_com1 (Z.lor Tty.TTY_ECHO Tty.TTY_COOKED)
      (replicate (Z.to_nat Tty.IBUFSZ) 0) in
  let w0 :=
    Kernel.com1_open (Serial.srl_flags false false)
      ([97; 98; 8; 8; 99; 100; 10] ++ []) [] in
  exists t' w',
    Tty.tty_read Kernel.port_ops 8 Kernel.tty1_file 3 0
        (Tty.mk_tty_state [Tty.tty_zero; t0] w0)
      = Some (Tty.mk_tty_state [Tty.tty_zero; t'] w', [99; 100; 10], 0, 3)
    /\ Tty.ilen t' = 0
    /\ Tty.ibuf_eol t' = false
    /\ Tty.ibuf_eof t' = false
    /\ Serial.rx (Serial.com1 (Serial.hardware w')) = []
    /\ Serial.sent (Serial.com1 (Serial.hardware w')) =
         Serial.sent (Serial.com1 (Serial.hardware w0))
         ++ Serial.wire (Serial.srl_flags false false) echoed
    /\ (false = false -> Serial.wire (Serial.srl_flags false false) echoed = echoed).
Proof.
  apply (tty_cooked_editing false false 8 3 0 (replicate (Z.to_nat Tty.IBUFSZ) 0)
           [] [] Tty.tty_zero).
  - reflexivity.
  - lia.
  - lia.
Defined.

(* ================================================================== *)
(** * Properties: the mount list                                       *)
(* ================================================================== *)

Section MountListProperties.
Import Vfs Mount.
Context {fsops : Type}.
Implicit Types (st : vfs_state fsops) (p q a b : list_ptr) (l : list nat).

Lemma sb_at_set_sb st i j sb :
  (i < length (superblocks st))%nat ->
  sb_at (set_sb st i sb) j = if decide (j = i) then sb else sb_at st j.
Proof.
  intros Hi. unfold sb_at, set_sb. simpl.
  destruct (decide (j = i)) as [->|Hne].
  - rewrite list_lookup_insert_eq by assumption. reflexivity.
  - rewrite list_lookup_insert_ne by congruence. reflexivity.
Qed.

Lemma node_set_node st p v q :
  valid st p ->
  node (set_node st p v) q = if decide (q = p) then v else node st q.
Proof.
  intros Hp. destruct p as [|i], q as [|j]; simpl.
  - reflexivity.
  - reflexivity.
  - reflexivity.
  - rewrite sb_at_set_sb by exact Hp.
    destruct (decide (j = i)) as [->|Hne].
    + rewrite decide_True by reflexivity. reflexivity.
    + rewrite decide_False by congruence. reflexivity.
Qed.

Lemma valid_set_node st p v q : valid (set_node st p v) q <-> valid st q.
Proof.
  destruct p, q; simpl; try tauto. rewrite length_insert. tauto.
Qed.

Lemma next_set_next st p v q :
  valid st p ->
  next (node (set_next st p v) q) = if decide (q = p) then v else next (node st q).
Proof.
  intros Hp. unfold set_next. rewrite node_set_node by assumption.
  destruct (decide (q = p)); reflexivity.
Qed.

Lemma prev_set_next st p v q :
  valid st p -> prev (node (set_next st p v) q) = prev (node st q).
Proof.
  intros Hp. unfold set_next. rewrite node_set_node by assumption.
  destruct (decide (q = p)) as [->|]; reflexivity.
Qed.

Lemma next_set_prev st p v q :
  valid st p -> next (node (set_prev st p v) q) = next (node st q).
Proof.
  intros Hp. unfold set_prev. rewrite node_set_node by assumption.
  destruct (decide (q = p)) as [->|]; reflexivity.
Qed.

Lemma prev_set_prev st p v q :
  valid st p ->
  prev (node (set_prev st p v) q) = if decide (q = p) then v else prev (node st q).
Proof.
  intros Hp. unfold set_prev. rewrite node_set_node by assumption.
  destruct (decide (q = p)); reflexivity.
Qed.

Lemma valid_set_next st p v q : valid (set_next st p v) q <-> valid st q.
Proof. apply valid_set_node. Qed.
Lemma valid_set_prev st p v q : valid (set_prev st p v) q <-> valid st q.
Proof. apply valid_set_node. Qed.

Ltac solve_valid :=
  repeat (rewrite valid_set_next || rewrite valid_set_prev); assumption.

(** The links after [_list_add]. *)
Lemma next_list_add st new a b q :
  valid st new -> valid st a -> valid st b ->
  next (node (_list_add st new a b) q) =
    if decide (q = new) then Some b
    else if decide (q = a) then Some new else next (node st q).
Proof.
  intros Hn Ha Hb. unfold _list_add.
  rewrite next_set_prev by solve_valid.
  rewrite next_set_next by solve_valid.
  destruct (decide (q = new)); [reflexivity|].
  rewrite next_set_prev by solve_valid.
  rewrite next_set_next by assumption. reflexivity.
Qed.

Lemma prev_list_add st new a b q :
  valid st new -> valid st a -> valid st b ->
  prev (node (_list_add st new a b) q) =
    if decide (q = b) then Some new
    else if decide (q = new) then Some a else prev (node st q).
Proof.
  intros Hn Ha Hb. unfold _list_add.
  rewrite prev_set_prev by solve_valid.
  destruct (decide (q = b)); [reflexivity|].
  rewrite prev_set_next by solve_valid.
  rewrite prev_set_prev by solve_valid.
  destruct (decide (q = new)); [reflexivity|].
  rewrite prev_set_next by assumption. reflexivity.
Qed.


Lemma tail_ptr_cons a i l : tail_ptr a (i :: l) = tail_ptr (LSb i) l.
Proof. unfold tail_ptr. destruct l as [|j l]; [reflexivity|]. rewrite last_cons.
  destruct (last (j :: l)); reflexivity. Qed.

Lemma tail_ptr_snoc a i l : tail_ptr a (l ++ [i]) = LSb i.
Proof. unfold tail_ptr. rewrite last_snoc. reflexivity. Qed.

Lemma tail_ptr_in i l : tail_ptr (LSb i) l ∈ LSb <$> (i :: l).
Proof.
  revert i. induction l as [|j l IH]; intros i.
  - left.
  - rewrite tail_ptr_cons. rewrite fmap_cons. right. apply IH.
Qed.

Lemma chain_prev_tail st a l b :
  chain st a l b -> prev (node st b) = Some (tail_ptr a l).
Proof.
  revert a. induction l as [|i l IH]; intros a.
  - intros [_ H]. exact H.
  - intros [_ H]. rewrite tail_ptr_cons. apply IH, H.
Qed.

Lemma chain_next_head st a l b :
  chain st a l b ->
  next (node st a) = Some (match l with [] => b | i :: _ => LSb i end).
Proof. destruct l; simpl; [intros [H _]|intros [[H _] _]]; exact H. Qed.

Lemma chain_snoc st a l i b :
  chain st a (l ++ [i]) b <-> chain st a l (LSb i) /\ linked st (LSb i) b.
Proof.
  revert a. induction l as [|j l IH]; intros a; simpl.
  - tauto.
  - rewrite IH. tauto.
Qed.

Lemma chain_list_add st sb l a :
  valid st (LSb sb) -> valid st a -> Forall (fun i => valid st (LSb i)) l ->
  a ∉ LSb <$> l -> NoDup l -> a <> LSb sb -> sb ∉ l ->
  chain st a l LHead ->
  chain (_list_add st (LSb sb) (tail_ptr a l) LHead) a (l ++ [sb]) LHead.
Proof.
  intros Hsb. revert a.
  induction l as [|i l IH]; intros a Ha Hl Hal Hnd Hne Hnin Hch.
  - assert (Hh : valid st LHead) by exact I.
    unfold tail_ptr. cbn [last app chain]. unfold linked.
    rewrite !next_list_add, !prev_list_add by assumption.
    repeat split; repeat case_decide; congruence.
  - destruct Hch as [[Hn Hp] Hch].
    apply Forall_cons in Hl as [Hi Hl].
    apply NoDup_cons in Hnd as [Hil Hnd].
    apply not_elem_of_cons in Hnin as [Hsi Hnin].
    rewrite fmap_cons in Hal. apply not_elem_of_cons in Hal as [Hai Hal].
    rewrite tail_ptr_cons.
    assert (Ht : valid st (tail_ptr (LSb i) l)).
    { pose proof (tail_ptr_in i l) as Hin.
      apply list_elem_of_fmap in Hin as (j & -> & Hj).
      apply elem_of_cons in Hj as [->|Hj]; [exact Hi|].
      rewrite Forall_forall in Hl. apply Hl. exact Hj. }
    assert (Hat : a <> tail_ptr (LSb i) l).
    { intros ->. pose proof (tail_ptr_in i l) as Hin.
      rewrite fmap_cons in Hin. apply elem_of_cons in Hin as [Hin|Hin]; auto. }
    cbn [app chain]. split.
    + unfold linked.
      rewrite next_list_add, prev_list_add by (assumption || exact I).
      split; repeat case_decide; congruence.
    + apply IH; try assumption.
      * intros Hin. apply list_elem_of_fmap in Hin as (j & Hj & Hjl).
        injection Hj as <-. contradiction.
      * congruence.
Qed.

Lemma mount_list_walk_head (fuel : nat) st : mount_list_walk fuel st LHead = [].
Proof. destruct fuel; reflexivity. Qed.

Lemma chain_walk st l i (fuel : nat) :
  chain st (LSb i) l LHead -> (length l < fuel)%nat ->
  mount_list_walk fuel st (LSb i) = i :: l.
Proof.
  revert i fuel. induction l as [|j l IH]; intros i fuel Hch Hlen.
  - destruct fuel as [|fuel]; [simpl in Hlen; lia|].
    destruct Hch as [Hn _]. simpl. simpl in Hn. rewrite Hn.
    rewrite mount_list_walk_head. reflexivity.
  - destruct fuel as [|fuel]; [simpl in Hlen; lia|].
    destruct Hch as [[Hn _] Hch]. simpl. simpl in Hn. rewrite Hn.
    rewrite (IH j fuel Hch) by (simpl in Hlen; lia). reflexivity.
Qed.

Lemma mounted_length st l : mounted st l -> (length l <= Z.to_nat SB_MAX)%nat.
Proof.
  intros [_ Hnd Hr _ _].
  assert (H : l ⊆+ seq 0 (Z.to_nat SB_MAX)).
  { apply NoDup_submseteq; [exact Hnd|].
    intros x Hx. rewrite Forall_forall in Hr. apply elem_of_seq.
    specialize (Hr x Hx). lia. }
  apply submseteq_length in H. rewrite length_seq in H. exact H.
Qed.

(** The walk over a well-formed list visits its slots in order. *)
Lemma mount_list_mounted st l : mounted st l -> mount_list st = l.
Proof.
  intros Hm. pose proof (mounted_length _ _ Hm) as Hlen.
  destruct Hm as [_ _ _ _ Hch]. unfold mount_list.
  pose proof (chain_next_head _ _ _ _ Hch) as Hn.
  change (node st LHead) with (vfs_mount_list st) in Hn. rewrite Hn.
  destruct l as [|i l]; cbn [default].
  - apply mount_list_walk_head.
  - destruct Hch as [_ Hch]. apply chain_walk; [exact Hch|]. simpl in Hlen. lia.
Qed.


Lemma s_op_set_node st p v i :
  s_op (sb_at (set_node st p v) i) = s_op (sb_at st i).
Proof.
  destruct p as [|j]; [reflexivity|]. simpl.
  destruct (decide (j < length (superblocks st))%nat) as [Hj|Hj].
  - rewrite sb_at_set_sb by assumption. case_decide; [subst|]; reflexivity.
  - unfold set_sb, sb_at. simpl. rewrite list_insert_ge by lia. reflexivity.
Qed.

Lemma s_mountpath_set_node st p v i :
  s_mountpath (sb_at (set_node st p v) i) = s_mountpath (sb_at st i).
Proof.
  destruct p as [|j]; [reflexivity|]. simpl.
  destruct (decide (j < length (superblocks st))%nat) as [Hj|Hj].
  - rewrite sb_at_set_sb by assumption. case_decide; [subst|]; reflexivity.
  - unfold set_sb, sb_at. simpl. rewrite list_insert_ge by lia. reflexivity.
Qed.

Lemma length_set_node st p v :
  length (superblocks (set_node st p v)) = length (superblocks st).
Proof. destruct p; simpl; [reflexivity|]. apply length_insert. Qed.

Lemma s_op_list_add st new a b i :
  s_op (sb_at (_list_add st new a b) i) = s_op (sb_at st i).
Proof. unfold _list_add, set_next, set_prev. rewrite !s_op_set_node. reflexivity. Qed.

Lemma s_mountpath_list_add st new a b i :
  s_mountpath (sb_at (_list_add st new a b) i) = s_mountpath (sb_at st i).
Proof.
  unfold _list_add, set_next, set_prev. rewrite !s_mountpath_set_node. reflexivity.
Qed.

Lemma length_list_add st new a b :
  length (superblocks (_list_add st new a b)) = length (superblocks st).
Proof. unfold _list_add, set_next, set_prev. rewrite !length_set_node. reflexivity. Qed.

(** On a well-formed list [vfs_mount_list_add] is [_list_add] between the
    last entry and the head. *)
Lemma vfs_mount_list_add_mounted st l sb :
  mounted st l ->
  vfs_mount_list_add st sb = _list_add st (LSb sb) (tail_ptr LHead l) LHead.
Proof.
  intros [_ _ _ _ Hch]. unfold vfs_mount_list_add, list_add_tail, _list_ensure_init.
  rewrite (chain_next_head _ _ _ _ Hch).
  rewrite (chain_prev_tail _ _ _ _ Hch). reflexivity.
Qed.

(** A slot in use that is not on the list goes to its end, whatever the
    mount paths are. *)
Lemma vfs_mount_list_add_appends st l sb :
  mounted st l -> (sb < Z.to_nat SB_MAX)%nat -> sb ∉ l ->
  s_op (sb_at st sb) <> None ->
  mounted (vfs_mount_list_add st sb) (l ++ [sb]).
Proof.
  intros Hm Hsb Hnin Hop. rewrite (vfs_mount_list_add_mounted _ _ _ Hm).
  destruct Hm as [Hlen Hnd Hr Hu Hch]. split.
  - rewrite length_list_add. exact Hlen.
  - apply NoDup_app. split; [exact Hnd|]. split.
    + intros x Hx Hx'. apply list_elem_of_singleton in Hx'. subst. contradiction.
    + apply NoDup_singleton.
  - apply Forall_app. split; [exact Hr|]. constructor; [exact Hsb|constructor].
  - apply Forall_app. split.
    + eapply Forall_impl; [exact Hu|]. intros i Hi. cbv beta.
      rewrite s_op_list_add. exact Hi.
    + constructor; [|constructor]. rewrite s_op_list_add. exact Hop.
  - apply chain_list_add; try assumption.
    + unfold valid. lia.
    + exact I.
    + eapply Forall_impl; [exact Hr|]. intros i Hi. unfold valid. cbv beta in Hi. lia.
    + intros Hin. apply list_elem_of_fmap in Hin as (j & Hj & _). discriminate.
    + discriminate.
Qed.


Lemma find_mount_loop_head (fuel : nat) st abspath :
  find_mount_loop fuel st abspath LHead = Some None.
Proof. destruct fuel; reflexivity. Qed.

Lemma find_mount_loop_chain st abspath l i (fuel : nat) :
  chain st LHead l (LSb i) -> (length l < fuel)%nat ->
  find_mount_loop fuel st abspath (LSb i)
    = Some (find (covers st abspath) (i :: rev l)).
Proof.
  revert i fuel. induction l as [|j l IH] using rev_ind; intros i fuel Hch Hlen.
  - destruct fuel as [|fuel]; [simpl in Hlen; lia|].
    destruct Hch as [_ Hp]. cbn [find_mount_loop rev find]. unfold covers at 1.
    destruct (bool_decide _); [reflexivity|].
    rewrite Hp. apply find_mount_loop_head.
  - destruct fuel as [|fuel]; [simpl in Hlen; lia|].
    apply chain_snoc in Hch as [Hch [_ Hp]].
    rewrite length_app in Hlen. simpl in Hlen.
    rewrite rev_unit. cbn [find_mount_loop]. cbn [find]. unfold covers at 1.
    destruct (bool_decide _); [reflexivity|].
    rewrite Hp. apply IH; [exact Hch|lia].
Qed.

(** On a well-formed list [find_mount_for_path] returns the entry nearest
    the end of the list whose mount path is a prefix of the path. *)
Lemma find_mount_for_path_mounted st l abspath :
  mounted st l ->
  find_mount_for_path st abspath = Some (find (covers st abspath) (rev l)).
Proof.
  intros Hm. pose proof (mounted_length _ _ Hm) as Hlen.
  destruct Hm as [_ _ _ _ Hch]. unfold find_mount_for_path.
  pose proof (chain_prev_tail _ _ _ _ Hch) as Hp.
  change (node st LHead) with (vfs_mount_list st) in Hp. rewrite Hp.
  destruct l as [|i l _] using rev_ind.
  - apply find_mount_loop_head.
  - rewrite tail_ptr_snoc, rev_unit. apply chain_snoc in Hch as [Hch _].
    apply find_mount_loop_chain; [exact Hch|].
    rewrite length_app in Hlen. simpl in Hlen. lia.
Qed.


Lemma agree_off_refl sb st : agree_off sb st st.
Proof. repeat split. Qed.

Lemma agree_off_trans sb st1 st2 st3 :
  agree_off sb st1 st2 -> agree_off sb st2 st3 -> agree_off sb st1 st3.
Proof.
  intros (H1 & H2 & H3 & H4) (G1 & G2 & G3 & G4). repeat split; try congruence.
  intros i Hi. rewrite G4, H4 by assumption. reflexivity.
Qed.

Lemma agree_off_set_sb sb st x : agree_off sb st (set_sb st sb x).
Proof.
  repeat split.
  - simpl. apply length_insert.
  - intros i Hi. unfold sb_at, set_sb. simpl.
    rewrite list_lookup_insert_ne by congruence. reflexivity.
Qed.

Lemma agree_off_set_node sb st v : agree_off sb st (set_node st (LSb sb) v).
Proof. apply agree_off_set_sb. Qed.

Lemma agree_off_node sb st st' p :
  agree_off sb st st' -> p <> LSb sb -> node st' p = node st p.
Proof.
  intros (_ & Hh & _ & Hs) Hp. destruct p as [|i]; simpl; [exact Hh|].
  rewrite Hs by congruence. reflexivity.
Qed.

Lemma chain_agree_off sb st st' a l b :
  agree_off sb st st' -> a <> LSb sb -> b <> LSb sb -> sb ∉ l ->
  chain st a l b -> chain st' a l b.
Proof.
  intros Hag. revert a. induction l as [|i l IH]; intros a Ha Hb Hl.
  - intros [Hn Hp]. split.
    + rewrite (agree_off_node _ _ _ _ Hag Ha). exact Hn.
    + rewrite (agree_off_node _ _ _ _ Hag Hb). exact Hp.
  - apply not_elem_of_cons in Hl as [Hi Hl].
    assert (Hi' : LSb i <> LSb sb) by congruence.
    intros [[Hn Hp] Hch]. split; [split|].
    + rewrite (agree_off_node _ _ _ _ Hag Ha). exact Hn.
    + rewrite (agree_off_node _ _ _ _ Hag Hi'). exact Hp.
    + apply IH; assumption.
Qed.

Lemma mounted_agree_off sb st st' l :
  agree_off sb st st' -> sb ∉ l -> mounted st l -> mounted st' l.
Proof.
  intros Hag Hl [Hlen Hnd Hr Hu Hch].
  pose proof Hag as (Hlen' & _ & _ & Hs). split.
  - congruence.
  - exact Hnd.
  - exact Hr.
  - rewrite Forall_forall in Hu. apply Forall_forall. intros i Hi.
    rewrite Hs; [apply Hu, Hi|]. intros ->. contradiction.
  - eapply chain_agree_off; try eassumption; discriminate.
Qed.

Lemma sb_alloc_from_spec (sbs : list (superblock fsops)) (i k : nat) :
  sb_alloc_from sbs i = Some k ->
  exists sb, (i <= k)%nat /\ sbs !! (k - i)%nat = Some sb /\ s_op sb = None.
Proof.
  revert i. induction sbs as [|sb sbs IH]; intros i; simpl; [discriminate|].
  destruct (s_op sb) eqn:E.
  - intros H. apply IH in H as (sb' & Hle & Hl & Hop).
    exists sb'. split; [lia|]. split; [|exact Hop].
    replace (k - i)%nat with (S (k - S i)) by lia. exact Hl.
  - intros [= <-]. exists sb. rewrite Nat.sub_diag. auto.
Qed.

Lemma sb_alloc_spec st sb :
  sb_alloc st = Some sb ->
  (sb < length (superblocks st))%nat /\ s_op (sb_at st sb) = None.
Proof.
  intros H. apply sb_alloc_from_spec in H as (x & _ & Hl & Hop).
  rewrite Nat.sub_0_r in Hl. split.
  - apply lookup_lt_Some in Hl. exact Hl.
  - unfold sb_at. rewrite Hl. exact Hop.
Qed.

Context {W fops : Type}.
Variable fs_ops : fsops -> fs_operations W fops fsops.

(** The [sb_open] entry of a driver leaves [sb->s_op] alone. *)
Hypothesis sb_open_keeps_s_op :
  forall d hook sb w,
    sb_open_hook (fs_ops d) = Some hook -> s_op (hook sb w).1.2 = s_op sb.

Lemma sb_open_spec st sb blockdev fstypeid w :
  (sb < length (superblocks st))%nat ->
  let r := sb_open fs_ops st sb blockdev fstypeid w in
  agree_off sb st r.1.1
  /\ (r.2 < 0 \/ r.2 = 0 /\ s_op (sb_at r.1.1 sb) <> None).
Proof.
  intros Hsb r. unfold r, sb_open.
  destruct (default None (fs_drivers st !! Z.to_nat fstypeid)) as [d|].
  2:{ simpl. split; [apply agree_off_refl|]. left. unfold Errno.ENODEV. lia. }
  set (sb0 := mk_superblock _ _ _ _ _ _).
  set (st1 := INIT_LIST_HEAD (set_sb st sb sb0) (LSb sb)).
  assert (Hag : agree_off sb st st1).
  { unfold st1, INIT_LIST_HEAD, set_next, set_prev.
    eapply agree_off_trans; [apply agree_off_set_sb|].
    eapply agree_off_trans; apply agree_off_set_node. }
  assert (Hop : s_op (sb_at st1 sb) = Some d).
  { unfold st1, INIT_LIST_HEAD, set_next, set_prev.
    rewrite !s_op_set_node. rewrite sb_at_set_sb by assumption.
    rewrite decide_True by reflexivity. reflexivity. }
  assert (Hlen : (sb < length (superblocks st1))%nat).
  { destruct Hag as [-> _]. exact Hsb. }
  destruct (sb_open_hook (fs_ops d)) as [hook|] eqn:Eh.
  - pose proof (sb_open_keeps_s_op d hook (sb_at st1 sb) w Eh) as Hk.
    destruct (hook (sb_at st1 sb) w) as [[w' sb'] res]. simpl in Hk.
    assert (Hag' : agree_off sb st (set_sb st1 sb sb')).
    { eapply agree_off_trans; [exact Hag|apply agree_off_set_sb]. }
    destruct (res <? 0) eqn:E; simpl.
    + split; [exact Hag'|]. left. lia.
    + split; [exact Hag'|]. right. split; [reflexivity|].
      rewrite sb_at_set_sb by assumption. rewrite decide_True by reflexivity.
      congruence.
  - simpl. split; [exact Hag|]. right. split; [reflexivity|]. congruence.
Qed.


Lemma mount_paths_mounted st l :
  mounted st l ->
  mount_paths st = map (fun i => Path.string_at (s_mountpath (sb_at st i)) 0) l.
Proof. intros Hm. unfold mount_paths. rewrite (mount_list_mounted _ _ Hm). reflexivity. Qed.

Lemma mount_paths_agree_off sb st st' l :
  agree_off sb st st' -> sb ∉ l ->
  map (fun i => Path.string_at (s_mountpath (sb_at st' i)) 0) l
  = map (fun i => Path.string_at (s_mountpath (sb_at st i)) 0) l.
Proof.
  intros (_ & _ & _ & Hs) Hl. apply map_ext_in. intros i Hi.
  rewrite Hs; [reflexivity|]. intros ->. apply Hl. apply list_elem_of_In. exact Hi.
Qed.

(** Whatever the mount paths, a mount that succeeds puts its superblock at
    the end of the mount list and leaves the entries before it as they
    were; one that fails leaves the list as it was. *)
Lemma fs_mountdev_mounted st l blockdev fstypeid mpath w :
  mounted st l ->
  let r := fs_mountdev fs_ops st blockdev fstypeid mpath w in
  (r.2 < 0 /\ mounted r.1.1 l /\ mount_paths r.1.1 = mount_paths st)
  \/ (r.2 = 0 /\ exists sb,
        sb_alloc st = Some sb /\ mounted r.1.1 (l ++ [sb])
        /\ mount_paths r.1.1 =
             mount_paths st ++ [Path.string_at (s_mountpath (sb_at r.1.1 sb)) 0]).
Proof.
  intros Hm r. unfold r, fs_mountdev.
  destruct (sb_alloc st) as [sb|] eqn:Ea.
  2:{ left. simpl. unfold Errno.ENOMEM. split; [lia|]. split; [exact Hm|reflexivity]. }
  apply sb_alloc_spec in Ea as [Hsb Hfree].
  assert (Hl : sb ∉ l).
  { intros Hin. destruct Hm as [_ _ _ Hu _]. rewrite Forall_forall in Hu.
    exact (Hu sb Hin Hfree). }
  pose proof (sb_open_spec st sb blockdev fstypeid w Hsb) as [Hag Hres].
  destruct (sb_open fs_ops st sb blockdev fstypeid w) as [[st1 w1] res].
  simpl in Hag, Hres.
  destruct (res <? 0) eqn:E.
  - left. simpl.
    assert (Hag' : agree_off sb st (sb_free st1 sb)).
    { eapply agree_off_trans; [exact Hag|apply agree_off_set_sb]. }
    pose proof (mounted_agree_off _ _ _ _ Hag' Hl Hm) as Hm'.
    split; [lia|]. split; [exact Hm'|].
    rewrite (mount_paths_mounted _ _ Hm'), (mount_paths_mounted _ _ Hm).
    apply (mount_paths_agree_off sb); assumption.
  - right. destruct Hres as [Hres|[-> Hop]]; [lia|].
    destruct (Sprintf.snprintf _ _ _ _ _) as [path n].
    set (st2 := set_sb st1 sb (set_s_mountpath (sb_at st1 sb) path)).
    assert (Hag2 : agree_off sb st st2).
    { eapply agree_off_trans; [exact Hag|apply agree_off_set_sb]. }
    assert (Hlen1 : (sb < length (superblocks st1))%nat).
    { destruct Hag as [-> _]. exact Hsb. }
    assert (Hop2 : s_op (sb_at st2 sb) <> None).
    { unfold st2. rewrite sb_at_set_sb by assumption.
      rewrite decide_True by reflexivity. exact Hop. }
    pose proof (mounted_agree_off _ _ _ _ Hag2 Hl Hm) as Hm2.
    assert (Hsb4 : (sb < Z.to_nat SB_MAX)%nat).
    { destruct Hm as [<- _ _ _ _]. exact Hsb. }
    pose proof (vfs_mount_list_add_appends _ _ _ Hm2 Hsb4 Hl Hop2) as Hm3.
    simpl. split; [reflexivity|]. exists sb.
    split; [reflexivity|]. split; [exact Hm3|].
    rewrite (mount_paths_mounted _ _ Hm3), (mount_paths_mounted _ _ Hm).
    rewrite map_app. f_equal.
    rewrite (vfs_mount_list_add_mounted _ _ _ Hm2).
    erewrite map_ext; [apply (mount_paths_agree_off sb); eassumption|].
    intros i. cbv beta. rewrite s_mountpath_list_add. reflexivity.
Qed.


(** [find_mount_for_path] returns, of the mounts whose path is a prefix of
    the path asked for, the one nearest the end of the mount list, that is
    the one mounted last; [Some None] is the NULL of a path no mount
    covers. *)
Theorem find_mount_for_path_last_covering st l abspath :
  mounted st l ->
  find_mount_for_path st abspath
    = Some (find (covers st abspath) (rev (mount_list st))).
Proof.
  intros Hm. rewrite (mount_list_mounted _ _ Hm).
  apply find_mount_for_path_mounted. exact Hm.
Qed.

End MountListProperties.


(** And it is after the mounts at "/bin" and "/". *)
Lemma mounted_bin_then_root : Mount.mounted Kernel.bin_then_root.1.1 [0%nat; 1%nat].
Proof.
  split.
  - reflexivity.
  - apply NoDup_ListNoDup. repeat constructor; simpl; intuition lia.
  - repeat constructor.
  - repeat constructor; vm_compute; discriminate.
  - vm_compute. repeat split; reflexivity.
Qed.


Lemma find_mount_for_path_last_covering_witness :
  let st := Kernel.bin_then_root.1.1 in
  Mount.find_mount_for_path st (CString.cstr "/bin/hello")
    = Some (find (Mount.covers st (CString.cstr "/bin/hello")) (rev (Mount.mount_list st))).
Proof.
  apply (find_mount_for_path_last_covering _ [0%nat; 1%nat]).
  exact mounted_bin_then_root.
Defined.

(** C1.  Mounting at "/bin" and then at "/" succeeds both times and leaves
    the mount list in the order of the calls, "/bin" before "/", although
    "/bin" is the greater path: the list is not sorted. *)
Theorem mount_list_keeps_call_order :
  let '(st, r1, r2) := Kernel.bin_then_root in
  r1 = 0 /\ r2 = 0
  /\ Mount.mount_paths st = [CString.cstr "/bin"; CString.cstr "/"]
  /\ CString.strcmp (CString.cstr "/bin") (CString.cstr "/") = 1
  /\ ~ Mount.mount_list_sorted st.
Proof.
  unfold Kernel.bin_then_root. vm_compute.
  split; [reflexivity|]. split; [reflexivity|].
  split; [reflexivity|]. split; [reflexivity|].
  intros Hsorted.
  specialize (Hsorted 0%nat 1%nat (CString.cstr "/bin") (CString.cstr "/")
                ltac:(lia) eq_refl eq_refl).
  vm_compute in Hsorted. apply Hsorted. reflexivity.
Qed.

(** C2.  With those two mounts, "/bin/hello" is routed to the mount at "/",
    slot 1, with the relative path "bin/hello", although the mount at
    "/bin", slot 0, covers the path with the longer prefix. *)
Theorem route_misses_longest_prefix :
  let '(st, r1, r2) := Kernel.bin_then_root in
  Mount.route st (CString.cstr "/bin/hello")
    = Some (Some (1%nat, CString.cstr "bin/hello"))
  /\ Path.string_at (Vfs.s_mountpath (Mount.sb_at st 1)) 0 = CString.cstr "/"
  /\ Path.string_at (Vfs.s_mountpath (Mount.sb_at st 0)) 0 = CString.cstr "/bin"
  /\ CString.strstr (CString.cstr "/bin/hello") (CString.cstr "/bin") = Some 0.
Proof. vm_compute. repeat split; reflexivity. Qed.

(* ================================================================== *)
(** * Properties: reading a CPIO file                                  *)
(* ================================================================== *)

Section CpioProperties.
Import Cint Errno Vfs Cpio.
Context {LW LP LS P : Type}.
Variable lops : LP -> file_operations LW LP LS.

(** A successful [cpio_file_read] leaves [*off] advanced by the number of
    bytes the archive file returned, as long as the offsets stay within
    [loff_t]. *)
Lemma cpio_file_read_advances (f : file P) (count off : Z) (w : cpio_state) :
  let fo := foff (cfdata_of f w) in
  let r := cpio_file_read lops f count off w in
  0 <= fo ->
  in_s32 off ->
  in_s32 (off + fo) ->
  0 <= r.2 ->
  in_s32 (off + fo + r.2) ->
  r.1.2 = off + r.2.
Proof.
  intros fo r. unfold r, cpio_file_read. fold fo.
  destruct (file_pread lops (af (cfdata_of f w)) _ _ (backing w)) as [[lw dst] res].
  intros Hfo Hoff Haoff.
  destruct (wrap_s32 res <? 0) eqn:E; simpl; [lia|].
  intros Hres Hsum.
  rewrite (wrap_s32_id (off + fo)) by assumption.
  rewrite (wrap_s32_id (off + fo + wrap_s32 res)) by assumption.
  rewrite wrap_s32_id; [lia|]. unfold in_s32 in *. lia.
Qed.

End CpioProperties.

Lemma cpio_file_read_advances_witness :
  let r := Cpio.cpio_file_read Kernel.disk_ops Kernel.initrd_a_file 2 1
             Kernel.initrd_a_open in
  r.1.2 = 1 + r.2.
Proof.
  apply (cpio_file_read_advances Kernel.disk_ops Kernel.initrd_a_file 2 1
           Kernel.initrd_a_open).
  - vm_compute. discriminate.
  - vm_compute. split; [discriminate|reflexivity].
  - vm_compute. split; [discriminate|reflexivity].
  - vm_compute. discriminate.
  - vm_compute. split; [discriminate|reflexivity].
Defined.

(** C4.  Opening "a" on the archive succeeds and gives a file of 4 bytes at
    position 0.  [file_pread] of 4 bytes at offset 2 then returns 4 bytes,
    the last two of them the start of the next header, where at most 2 are
    left in the file: the clamp computes [f_size - f->f_pos] = 4 - 0 from
    the file's own position instead of the offset the caller gave.  After
    [file_lseek] to offset 6, past the end, [file_read] of 1 byte returns
    the 238 bytes that are left in the archive: the clamp comes to 4 - 6 as
    a [size_t]. *)
Theorem cpio_pread_reads_past_end :
  match Kernel.initrd_open_a with
  | Some (w, f, res) =>
      res = 0 /\ Vfs.f_size (Vfs.f_stat f) = 4 /\ Vfs.f_pos f = 0
      /\ (let r := Vfs.file_pread Kernel.cpio_ops f 4 2 w in
          r.1.2 = CString.cstr "cd07" /\ r.2 = 4)
      /\ (let s := Vfs.file_lseek Kernel.cpio_ops f 6 Vfs.SEEK_SET w in
          let r := Vfs.file_read Kernel.cpio_ops s.1.2 1 s.1.1 in
          s.2 = 0 /\ r.2 = 238 /\ length r.1.2 = 238%nat /\ Vfs.f_pos r.1.1.2 = 244)
  | None => False
  end.
Proof. vm_compute. repeat split; reflexivity. Qed.

(** The archive's first three headers are found where the archive has them
    and "a" is the second: the search returns its index, and the driver
    records the offset of its data. *)
Example cpio_open_a_found :
  match Kernel.initrd_open_a with
  | Some (w, f, res) =>
      let cf := Cpio.cfdata_of f w in
      Vfs.f_type (Vfs.f_stat f) = Vfs.DT_REG
      /\ Cpio.hoff (Cpio.h cf) = 112 /\ Cpio.psize (Cpio.h cf) = 2
      /\ Cpio.fsize (Cpio.h cf) = 4 /\ Cpio.foff cf = 224
      /\ Vfs.f_pos (Cpio.af cf) = 224
  | None => False
  end.
Proof. vm_compute. repeat split; reflexivity. Qed.

(** A path the archive does not hold is not found, and the slot taken for
    the search is free again. *)
Example cpio_open_missing :
  match Cpio.cpio_file_open_path Kernel.disk_ops Kernel.disk_drivers 8
          (Vfs.set_f_op Vfs.file_zero (Some tt)) Kernel.initrd_sb (CString.cstr "c")
          (Cpio.mk_cpio_state Cpio.cfdatas_init Kernel.initrd_disk) with
  | Some (w, f, res) =>
      res = - Errno.ENOENT /\ Cpio.cfdata_alloc w = Some 0%nat
  | None => False
  end.
Proof. vm_compute. repeat split; reflexivity. Qed.

(** Reads that stay inside the file are clamped as the claim says: from the
    file's own position 2, a request of 4 bytes returns the last 2 and
    leaves the position at 4. *)
Example cpio_read_clamped :
  let r := Vfs.file_read Kernel.cpio_ops (Vfs.set_f_pos Kernel.initrd_a_file 2) 4
             Kernel.initrd_a_open in
  r.1.2 = CString.cstr "cd" /\ r.2 = 2 /\ Vfs.f_pos r.1.1.2 = 4.
Proof. vm_compute. repeat split; reflexivity. Qed.

(* ================================================================== *)
(** * Properties: echo of control characters                           *)
(* ================================================================== *)

Lemma echoc_table_check :
  forallb (fun ch => bool_decide (Kernel.echoc_sent ch = Kernel.echoc_by_range ch))
    (seqZ (-128) 256) = true.
Proof. vm_compute. reflexivity. Qed.

(** With ECHO and ECHOCTL set, what [echoc] sends for a character is what
    [echoc_by_range] lists; in particular the formatted branch always
    writes its four characters. *)
Lemma echoc_echoctl_by_range (ch : Z) :
  Cint.in_char ch -> Kernel.echoc_sent ch = Kernel.echoc_by_range ch.
Proof.
  intros Hch.
  pose proof echoc_table_check as H.
  rewrite forallb_forall in H.
  specialize (H ch).
  apply bool_decide_eq_true in H; [exact H|].
  apply list_elem_of_In, elem_of_seqZ. unfold Cint.in_char in Hch. lia.
Qed.

Lemma echoc_echoctl_by_range_witness :
  Kernel.echoc_sent 1 = Kernel.echoc_by_range 1.
Proof. apply echoc_echoctl_by_range. unfold Cint.in_char. lia. Defined.

(** C8.  With ECHO and ECHOCTL set: the control characters 0x01 and 0x1e are
    echoed as "^A" and "^^", 0x7f as "^?", tab as itself and 0x80, 0xff in
    hexadecimal, as claimed; but 0x1f is echoed as the four characters
    "\x1f", not as "^_", and 0x00 as the NUL itself, not as "^@". *)
Theorem echoc_misses_nul_and_unit_separator :
  Kernel.echoc_sent 1 = CString.cstr "^A"
  /\ Kernel.echoc_sent 30 = CString.cstr "^^"
  /\ Kernel.echoc_sent 127 = CString.cstr "^?"
  /\ Kernel.echoc_sent 9 = [9]
  /\ Kernel.echoc_sent (-128) = CString.cstr "\x80"
  /\ Kernel.echoc_sent (-1) = CString.cstr "\xff"
  /\ Kernel.echoc_sent 31 = CString.cstr "\x1f"
  /\ Kernel.echoc_sent 31 <> CString.cstr "^_"
  /\ Kernel.echoc_sent 0 = [0]
  /\ Kernel.echoc_sent 0 <> CString.cstr "^@".
Proof. vm_compute. repeat split; discriminate. Qed.

(* ================================================================== *)
(** * Properties: core/string.c                                        *)
(* ================================================================== *)

Section StringProperties.
Import Cint CString.

Lemma is_cstr_cons (c : Z) (s : list Z) :
  is_cstr (c :: s) <-> (c <> 0 /\ -128 <= c <= 127) /\ is_cstr s.
Proof. unfold is_cstr. rewrite Forall_cons. reflexivity. Qed.

Lemma cmp_exit_zero (a b : Z) : cmp_exit a b = 0 <-> a = b.
Proof.
  unfold cmp_exit. destruct (a <? b) eqn:E1; [lia|].
  destruct (a =? b) eqn:E2; lia.
Qed.

Lemma cmp_exit_swap (a b : Z) : cmp_exit b a = - cmp_exit a b.
Proof.
  unfold cmp_exit.
  destruct (a <? b) eqn:E1, (b <? a) eqn:E2, (a =? b) eqn:E3, (b =? a) eqn:E4; lia.
Qed.

Lemma cmp_exit_range (a b : Z) : cmp_exit a b = -1 \/ cmp_exit a b = 0 \/ cmp_exit a b = 1.
Proof. unfold cmp_exit. destruct (a <? b), (a =? b); auto. Qed.

Lemma strcmp_zero_iff (s t : list Z) :
  is_cstr s -> is_cstr t -> (strcmp s t = 0 <-> s = t).
Proof.
  revert t. induction s as [|a s IH]; intros [|b t] Hs Ht.
  - simpl. unfold cmp_exit. simpl. tauto.
  - apply is_cstr_cons in Ht as [[Hb _] _]. simpl. rewrite cmp_exit_zero.
    split; [lia|discriminate].
  - apply is_cstr_cons in Hs as [[Ha _] _]. simpl. rewrite cmp_exit_zero.
    split; [lia|discriminate].
  - apply is_cstr_cons in Hs as [[Ha _] Hs]. apply is_cstr_cons in Ht as [[Hb _] Ht].
    simpl. destruct (a =? 0) eqn:Ea; [lia|]. destruct (b =? 0) eqn:Eb; [lia|].
    simpl. destruct (a =? b) eqn:Eab.
    + rewrite (IH t Hs Ht). split; [intros ->; f_equal; lia|intros [= _ ->]; reflexivity].
    + rewrite cmp_exit_zero. split; [lia|intros [= -> _]; lia].
Qed.

Lemma strcmp_swap (s t : list Z) : strcmp t s = - strcmp s t.
Proof.
  revert t. induction s as [|a s IH]; intros [|b t]; simpl;
    try apply cmp_exit_swap.
  rewrite (Z.eqb_sym b a).
  destruct (a =? 0), (b =? 0), (a =? b); simpl; try apply cmp_exit_swap.
  apply IH.
Qed.

Lemma strcmp_range (s t : list Z) :
  strcmp s t = -1 \/ strcmp s t = 0 \/ strcmp s t = 1.
Proof.
  revert t. induction s as [|a s IH]; intros [|b t]; simpl;
    try apply cmp_exit_range.
  destruct (negb (a =? 0) && negb (b =? 0) && (a =? b)); [apply IH|apply cmp_exit_range].
Qed.

Lemma strcmp_app (p s t : list Z) :
  is_cstr p -> strcmp (p ++ s) (p ++ t) = strcmp s t.
Proof.
  induction 1 as [|c p [Hc _] _ IH]; [reflexivity|]. simpl.
  destruct (c =? 0) eqn:E; [lia|]. rewrite Z.eqb_refl. simpl. exact IH.
Qed.

(** [strcmp] is a three-way comparison of C strings: 0 exactly for equal
    strings, the sign turned round when the arguments are swapped, a common
    prefix skipped, and the first difference decided on the [char] values,
    the terminator counting as 0. *)
Theorem strcmp_three_way (s t : list Z) :
  is_cstr s -> is_cstr t ->
  (strcmp s t = 0 <-> s = t)
  /\ strcmp t s = - strcmp s t
  /\ (strcmp s t = -1 \/ strcmp s t = 0 \/ strcmp s t = 1)
  /\ (forall p a b s' t', s = p ++ a :: s' -> t = p ++ b :: t' -> a <> b ->
        strcmp s t = if a <? b then -1 else 1)
  /\ (forall b t', t = s ++ b :: t' -> strcmp s t = if 0 <? b then -1 else 1).
Proof.
  intros Hs Ht. split; [apply strcmp_zero_iff; assumption|].
  split; [apply strcmp_swap|]. split; [apply strcmp_range|]. split.
  - intros p a b s' t' -> -> Hab.
    apply Forall_app in Hs as [Hp _]. rewrite strcmp_app by exact Hp.
    simpl. destruct (a =? b) eqn:E; [lia|]. rewrite !andb_false_r.
    unfold cmp_exit. rewrite E. reflexivity.
  - intros b t' ->. apply Forall_app in Ht as [_ Hb].
    apply is_cstr_cons in Hb as [[Hb _] _].
    rewrite <- (app_nil_r s) at 1. rewrite strcmp_app by exact Hs.
    simpl. unfold cmp_exit. destruct (0 =? b) eqn:E; [lia|]. reflexivity.
Qed.


Lemma strncmp_loop_take (n : nat) (s t : list Z) :
  strncmp_loop n s t = strcmp (take n s) (take n t).
Proof.
  revert s t. induction n as [|n IH]; intros s t; [reflexivity|].
  destruct s as [|a s], t as [|b t]; simpl; try reflexivity.
  - destruct (negb (a =? 0)); reflexivity.
  - destruct (negb (a =? 0) && negb (b =? 0) && (a =? b)); [apply IH|reflexivity].
Qed.

(** [strncmp] is [strcmp] on the first [n] characters of both strings. *)
Theorem strncmp_is_strcmp_of_take (s t : list Z) (n : Z) :
  strncmp s t n = strcmp (take (Z.to_nat n) s) (take (Z.to_nat n) t).
Proof. apply strncmp_loop_take. Qed.

Lemma is_cstr_take (n : nat) (s : list Z) : is_cstr s -> is_cstr (take n s).
Proof. apply Forall_take. Qed.

Lemma is_cstr_drop (n : nat) (s : list Z) : is_cstr s -> is_cstr (drop n s).
Proof. apply Forall_drop. Qed.

(** The test [strncmp(str, sub, strlen(sub)) == 0]: [sub] is a prefix of
    [str]. *)
Lemma strncmp_prefix (str sub : list Z) :
  is_cstr str -> is_cstr sub ->
  strncmp_loop (length sub) str sub = 0 <-> sub `prefix_of` str.
Proof.
  intros Hstr Hsub. rewrite strncmp_loop_take, firstn_all.
  rewrite strcmp_zero_iff by (try apply is_cstr_take; assumption).
  split.
  - intros <-. apply prefix_take.
  - intros [k ->]. rewrite take_app_length. reflexivity.
Qed.

Lemma strstr_loop_spec (str sub : list Z) :
  is_cstr str -> is_cstr sub ->
  match strstr_loop (Z.of_nat (length sub)) str sub with
  | Some k =>
      0 <= k < Z.of_nat (length str)
      /\ sub `prefix_of` drop (Z.to_nat k) str
      /\ forall j, 0 <= j < k -> ~ sub `prefix_of` drop (Z.to_nat j) str
  | None =>
      forall j, 0 <= j < Z.of_nat (length str) -> ~ sub `prefix_of` drop (Z.to_nat j) str
  end.
Proof.
  intros Hstr Hsub. induction Hstr as [|c str [Hc Hr] Hstr IH].
  - simpl. intros j Hj. lia.
  - cbn [strstr_loop]. destruct (c =? 0) eqn:Ec; [lia|].
    unfold strncmp. rewrite Nat2Z.id.
    pose proof (strncmp_prefix (c :: str) sub) as Hp.
    destruct (strncmp_loop (length sub) (c :: str) sub =? 0) eqn:E.
    + apply Z.eqb_eq in E. split; [simpl; lia|]. split.
      * apply Hp; try assumption. constructor; auto.
      * intros j Hj. lia.
    + apply Z.eqb_neq in E.
      assert (Hnp : ~ sub `prefix_of` c :: str).
      { intros H. apply E, Hp; try assumption. constructor; auto. }
      destruct (strstr_loop (Z.of_nat (length sub)) str sub) as [k|]; simpl.
      * destruct IH as (Hk & Hpre & Hmin). unfold Z.succ. split; [simpl length; lia|]. split.
        -- replace (Z.to_nat (k + 1)) with (S (Z.to_nat k)) by lia. exact Hpre.
        -- intros j Hj. destruct (decide (j = 0)) as [->|Hj0]; [exact Hnp|].
           replace (Z.to_nat j) with (S (Z.to_nat (j - 1))) by lia.
           apply Hmin. lia.
      * intros j Hj. destruct (decide (j = 0)) as [->|Hj0]; [exact Hnp|].
        replace (Z.to_nat j) with (S (Z.to_nat (j - 1))) by lia.
        apply IH. simpl length in Hj. lia.
Qed.

Lemma strstr_unfold (str sub : list Z) :
  is_cstr sub -> Z.of_nat (length sub) < 2 ^ 31 ->
  strstr str sub = strstr_loop (Z.of_nat (length sub)) str sub.
Proof.
  intros Hsub Hlen. unfold strstr. rewrite (is_cstr_strlen _ Hsub).
  rewrite wrap_s32_id; [reflexivity|]. unfold in_s32. lia.
Qed.

(** What [strstr] returns, for use below. *)
Lemma strstr_first (str sub : list Z) :
  is_cstr str -> is_cstr sub -> Z.of_nat (length sub) < 2 ^ 31 ->
  match strstr str sub with
  | Some k =>
      0 <= k < Z.of_nat (length str)
      /\ sub `prefix_of` drop (Z.to_nat k) str
      /\ forall j, 0 <= j < k -> ~ sub `prefix_of` drop (Z.to_nat j) str
  | None =>
      forall j, 0 <= j < Z.of_nat (length str) -> ~ sub `prefix_of` drop (Z.to_nat j) str
  end.
Proof.
  intros Hstr Hsub Hlen. rewrite strstr_unfold by assumption.
  apply strstr_loop_spec; assumption.
Qed.

(** [strstr] returns the offset of the first place in [str], before its
    terminator, where [sub] occurs, and NULL when there is none; so it
    returns NULL for an empty [str] even when [sub] is empty too. *)
Theorem strstr_first_occurrence (str sub : list Z) :
  is_cstr str -> is_cstr sub -> Z.of_nat (length sub) < 2 ^ 31 ->
  match strstr str sub with
  | Some k =>
      0 <= k < Z.of_nat (length str)
      /\ sub `prefix_of` drop (Z.to_nat k) str
      /\ forall j, 0 <= j < k -> ~ sub `prefix_of` drop (Z.to_nat j) str
  | None =>
      forall j, 0 <= j < Z.of_nat (length str) -> ~ sub `prefix_of` drop (Z.to_nat j) str
  end.
Proof. apply strstr_first. Qed.

(** The test of [find_mount_for_path], [strstr(str, sub) == str]: [sub] is
    a prefix of the non-empty [str]. *)
Lemma strstr_at_start (str sub : list Z) :
  is_cstr str -> is_cstr sub -> Z.of_nat (length sub) < 2 ^ 31 ->
  strstr str sub = Some 0 <-> str <> [] /\ sub `prefix_of` str.
Proof.
  intros Hstr Hsub Hlen.
  pose proof (strstr_first str sub Hstr Hsub Hlen) as H.
  destruct (strstr str sub) as [k|].
  - destruct H as (Hk & Hpre & Hmin). split.
    + intros [= ->]. split; [|exact Hpre]. intros ->. simpl in Hk. lia.
    + intros [Hne Hp]. f_equal. destruct (decide (k = 0)) as [|Hk0]; [assumption|].
      exfalso. apply (Hmin 0); [lia|exact Hp].
  - split; [discriminate|]. intros [Hne Hp]. exfalso. apply (H 0); [|exact Hp].
    destruct str; [contradiction|simpl; lia].
Qed.

Lemma strchr_spec (s : list Z) (ch : Z) :
  is_cstr s ->
  let c := wrap_s8 ch in
  match strchr s ch with
  | Some k =>
      0 <= k <= Z.of_nat (length s)
      /\ (forall j, 0 <= j < k -> s !! Z.to_nat j <> Some c)
      /\ (if c =? 0 then k = Z.of_nat (length s) else s !! Z.to_nat k = Some c)
  | None => c <> 0 /\ c ∉ s
  end.
Proof.
  intros Hs c. induction Hs as [|a s [Ha Hr] Hs IH]; cbn [strchr]; fold c.
  - destruct (0 =? c) eqn:E.
    + apply Z.eqb_eq in E. rewrite <- E. simpl. split; [lia|]. split; [intros; lia|reflexivity].
    + split; [lia|]. apply not_elem_of_nil.
  - destruct (a =? c) eqn:E.
    + apply Z.eqb_eq in E. subst a. split; [simpl; lia|]. split; [intros; lia|].
      destruct (c =? 0) eqn:E0; [lia|reflexivity].
    + destruct (a =? 0) eqn:E0; [lia|].
      destruct (strchr s ch) as [k|]; simpl.
      * destruct IH as (Hk & Hmin & Hat). unfold Z.succ. split; [simpl length; lia|]. split.
        -- intros j Hj. destruct (decide (j = 0)) as [->|Hj0].
           ++ simpl. intros [= Hac]. lia.
           ++ replace (Z.to_nat j) with (S (Z.to_nat (j - 1))) by lia. simpl.
              apply Hmin. lia.
        -- destruct (c =? 0); [simpl length; lia|].
           replace (Z.to_nat (k + 1)) with (S (Z.to_nat k)) by lia. exact Hat.
      * destruct IH as [Hc Hnin]. split; [exact Hc|].
        apply not_elem_of_cons. split; [lia|exact Hnin].
Qed.

(** [strchr] returns the offset of the first character of the string equal
    to [(char) ch], and NULL when there is none; for [(char) ch == 0] it
    returns the offset of the terminator. *)
Theorem strchr_first_match (s : list Z) (ch : Z) :
  is_cstr s ->
  match strchr s ch with
  | Some k =>
      0 <= k <= Z.of_nat (length s)
      /\ (forall j, 0 <= j < k -> s !! Z.to_nat j <> Some (wrap_s8 ch))
      /\ (if wrap_s8 ch =? 0 then k = Z.of_nat (length s)
          else s !! Z.to_nat k = Some (wrap_s8 ch))
  | None => wrap_s8 ch <> 0 /\ wrap_s8 ch ∉ s
  end.
Proof. apply strchr_spec. Qed.

End StringProperties.

Lemma strcmp_three_way_witness :
  let s := CString.cstr "/" in
  let t := CString.cstr "/bin" in
  (CString.strcmp s t = 0 <-> s = t)
  /\ CString.strcmp t s = - CString.strcmp s t
  /\ (CString.strcmp s t = -1 \/ CString.strcmp s t = 0 \/ CString.strcmp s t = 1)
  /\ (forall p a b s' t', s = p ++ a :: s' -> t = p ++ b :: t' -> a <> b ->
        CString.strcmp s t = if a <? b then -1 else 1)
  /\ (forall b t', t = s ++ b :: t' -> CString.strcmp s t = if 0 <? b then -1 else 1).
Proof. apply strcmp_three_way; is_cstr_literal. Defined.

Lemma strstr_first_occurrence_witness :
  match CString.strstr (CString.cstr "/usr/bin") (CString.cstr "/bin") with
  | Some k =>
      0 <= k < Z.of_nat (length (CString.cstr "/usr/bin"))
      /\ CString.cstr "/bin" `prefix_of` drop (Z.to_nat k) (CString.cstr "/usr/bin")
      /\ forall j, 0 <= j < k ->
           ~ CString.cstr "/bin" `prefix_of` drop (Z.to_nat j) (CString.cstr "/usr/bin")
  | None =>
      forall j, 0 <= j < Z.of_nat (length (CString.cstr "/usr/bin")) ->
        ~ CString.cstr "/bin" `prefix_of` drop (Z.to_nat j) (CString.cstr "/usr/bin")
  end.
Proof.
  apply strstr_first_occurrence; [is_cstr_literal|is_cstr_literal|].
  vm_compute. reflexivity.
Defined.

Lemma strchr_first_match_witness :
  match CString.strchr (CString.cstr "a/b") 47 with
  | Some k =>
      0 <= k <= Z.of_nat (length (CString.cstr "a/b"))
      /\ (forall j, 0 <= j < k ->
            CString.cstr "a/b" !! Z.to_nat j <> Some (Cint.wrap_s8 47))
      /\ (if Cint.wrap_s8 47 =? 0 then k = Z.of_nat (length (CString.cstr "a/b"))
          else CString.cstr "a/b" !! Z.to_nat k = Some (Cint.wrap_s8 47))
  | None => Cint.wrap_s8 47 <> 0 /\ Cint.wrap_s8 47 ∉ CString.cstr "a/b"
  end.
Proof. apply strchr_first_match. is_cstr_literal. Defined.

(* ================================================================== *)
(** * Properties: core/path.c                                          *)
(* ================================================================== *)

Section PathMoreProperties.
Import Cint CString Sprintf Path.

Lemma strlen_terminated (s rest : list Z) :
  is_cstr s -> strlen (s ++ 0 :: rest) = Z.of_nat (length s).
Proof.
  induction 1 as [|c s [Hc _] _ IH]; [reflexivity|]. simpl.
  destruct (c =? 0) eqn:E; [lia|]. cbn [app] in IH. rewrite IH. lia.
Qed.

(** What [path_strip_prefix] returns, for use below. *)
Lemma path_strip_prefix_prefix (path prefix : list Z) :
  is_cstr path -> is_cstr prefix -> Z.of_nat (length prefix) < 2 ^ 31 ->
  path_strip_prefix (Some path) (Some prefix) =
    if bool_decide (prefix `prefix_of` path)
    then Some (Z.of_nat (length prefix)
               + (if deref (drop (length prefix) path) =? 47 then 1 else 0))
    else None.
Proof.
  intros Hpath Hprefix Hlen. unfold path_strip_prefix.
  rewrite (is_cstr_strlen _ Hprefix).
  rewrite wrap_s32_id by (unfold in_s32; lia).
  unfold wrap_u32. rewrite Z.mod_small by lia.
  unfold strncmp. rewrite !Nat2Z.id.
  pose proof (strncmp_prefix path prefix Hpath Hprefix) as Hp.
  change (chr "/") with 47.
  destruct (strncmp_loop (length prefix) path prefix =? 0) eqn:E; simpl.
  - apply Z.eqb_eq in E. rewrite bool_decide_true by (apply Hp; exact E).
    destruct (deref (drop (length prefix) path) =? 47); f_equal; lia.
  - apply Z.eqb_neq in E. rewrite bool_decide_false; [reflexivity|].
    intros H. apply E, Hp, H.
Qed.

(** [path_strip_prefix] on C strings: NULL unless [prefix] is a prefix of
    [path], and otherwise the offset just past the prefix, or one further
    when a slash follows the prefix. *)
Theorem path_strip_prefix_spec (path prefix : list Z) :
  is_cstr path -> is_cstr prefix -> Z.of_nat (length prefix) < 2 ^ 31 ->
  path_strip_prefix (Some path) (Some prefix) =
    if bool_decide (prefix `prefix_of` path)
    then Some (Z.of_nat (length prefix)
               + (if deref (drop (length prefix) path) =? 47 then 1 else 0))
    else None.
Proof. apply path_strip_prefix_prefix. Qed.

Lemma strncmp_loop_buffer (a tail : list Z) :
  is_cstr a -> strncmp_loop (length a) (a ++ tail) a = 0.
Proof.
  intros Ha. rewrite strncmp_loop_take, take_app_length, firstn_all.
  apply strcmp_zero_iff; auto.
Qed.

(** Joining and stripping undo each other: for a relative [b],
    [path_strip_prefix(path_join(a, b), a)] points at a copy of [b]. *)
Theorem path_strip_prefix_of_join (dst a b : list Z) :
  is_cstr a -> is_cstr b ->
  Z.of_nat (length dst) < 2 ^ 31 ->
  deref b <> 47 ->
  Z.of_nat (length (a ++ join_sep a ++ b)) < Z.of_nat (length dst) ->
  let joined := (path_join dst (Z.of_nat (length dst)) (Some a) (Some b)).1 in
  exists off,
    path_strip_prefix (Some joined) (Some a) = Some off
    /\ string_at joined off = b.
Proof.
  intros Ha Hb Hmax Hrel Hfit joined.
  destruct (path_join_relative dst a b Ha Hb Hmax Hrel Hfit) as [rest Hj].
  unfold joined. rewrite Hj. cbn [fst].
  assert (Hla : Z.of_nat (length a) < 2 ^ 31) by (rewrite !length_app in Hfit; lia).
  unfold path_strip_prefix.
  rewrite (is_cstr_strlen _ Ha), wrap_s32_id by (unfold in_s32; lia).
  unfold wrap_u32. rewrite Z.mod_small by lia.
  unfold strncmp. rewrite !Nat2Z.id.
  rewrite <- !app_assoc. rewrite strncmp_loop_buffer by exact Ha.
  cbn [Z.eqb negb]. rewrite drop_app_length. change (chr "/") with 47.
  unfold string_at.
  destruct (join_sep_cases a) as [(Hsep & _ & _)|(Hsep & _)]; rewrite Hsep.
  - cbn [app deref hd]. cbn [Z.eqb Pos.eqb]. eexists. split; [reflexivity|].
    replace (Z.to_nat (Z.of_nat (length a) + 1)) with (length a + 1)%nat by lia.
    rewrite <- drop_drop, drop_app_length. cbn [drop].
    apply string_at_loop_app. exact Hb.
  - cbn [app].
    assert (Hd : (deref (b ++ 0 :: rest) =? 47) = false).
    { apply Z.eqb_neq. destruct b as [|c b]; [cbn; lia|exact Hrel]. }
    rewrite Hd. eexists. split; [reflexivity|].
    rewrite Nat2Z.id, drop_app_length. apply string_at_loop_app. exact Hb.
Qed.


(** ** path_basename *)

Lemma basename_scan_app (q r : list Z) (pos prevslash lastslash : Z) :
  is_cstr q ->
  basename_scan (q ++ r) pos prevslash lastslash =
    let '(pos', prev', last') := basename_scan q pos prevslash lastslash in
    basename_scan r pos' prev' last'.
Proof.
  intros Hq. revert pos prevslash lastslash.
  induction Hq as [|c q [Hc _] _ IH]; intros pos prevslash lastslash.
  - simpl. reflexivity.
  - cbn [app basename_scan]. destruct (c =? 0) eqn:E; [lia|].
    destruct (c =? chr "/"); apply IH.
Qed.

Lemma basename_scan_name (name : list Z) (pos prevslash lastslash : Z) :
  is_cstr name -> 47 ∉ name ->
  basename_scan name pos prevslash lastslash =
    (pos + Z.of_nat (length name), prevslash, lastslash).
Proof.
  intros Hn. revert pos.
  induction Hn as [|c name [Hc _] _ IH]; intros pos Hno.
  - simpl. rewrite Z.add_0_r. reflexivity.
  - apply not_elem_of_cons in Hno as [Hc47 Hno].
    cbn [basename_scan]. destruct (c =? 0) eqn:E; [lia|].
    change (chr "/") with 47. destruct (c =? 47) eqn:E47; [lia|].
    rewrite IH by assumption. f_equal. f_equal. simpl length. lia.
Qed.

Lemma basename_scan_pos (q : list Z) (pos prevslash lastslash : Z) :
  is_cstr q ->
  (basename_scan q pos prevslash lastslash).1.1 = pos + Z.of_nat (length q).
Proof.
  intros Hq. revert pos prevslash lastslash.
  induction Hq as [|c q [Hc _] _ IH]; intros pos prevslash lastslash.
  - simpl. lia.
  - cbn [basename_scan]. destruct (c =? 0) eqn:E; [lia|].
    destruct (c =? chr "/"); rewrite IH; simpl length; lia.
Qed.

(** The scan of a path that ends in a name, with or without one slash after
    it: the name starts at [|pre|]. *)
Lemma basename_scan_path (pre name trail : list Z) :
  is_cstr pre -> is_cstr name -> 47 ∉ name -> name <> [] ->
  pre = [] \/ last pre = Some 47 ->
  trail = [] \/ trail = [47] ->
  let '(pend, prevslash, lastslash) := basename_scan (pre ++ name ++ trail) 0 0 0 in
  pend = Z.of_nat (length (pre ++ name ++ trail))
  /\ (if lastslash =? pend then prevslash else lastslash) = Z.of_nat (length pre)
  /\ (if lastslash =? pend then pend - 1 else pend) - Z.of_nat (length pre)
     = Z.of_nat (length name).
Proof.
  intros Hpre Hname Hno Hne Hp Ht.
  assert (Hlen : (0 < length name)%nat) by (destruct name; [contradiction|simpl; lia]).
  assert (Hscan : exists p0,
    basename_scan pre 0 0 0 = (Z.of_nat (length pre), p0, Z.of_nat (length pre))).
  { destruct Hp as [->|Hl]; [exists 0; reflexivity|].
    destruct pre as [|x pre0 _] using rev_ind; [discriminate|].
    rewrite last_snoc in Hl. injection Hl as ->.
    apply Forall_app in Hpre as [Hpre0 _].
    rewrite basename_scan_app by exact Hpre0.
    pose proof (basename_scan_pos pre0 0 0 0 Hpre0) as Hpos.
    destruct (basename_scan pre0 0 0 0) as [[p1 v1] l1]. simpl in Hpos. subst p1.
    exists l1. cbn [basename_scan]. change (chr "/") with 47. cbn [Z.eqb Pos.eqb].
    rewrite length_app. simpl length. repeat f_equal; lia. }
  destruct Hscan as [p0 Hscan].
  rewrite basename_scan_app by exact Hpre. rewrite Hscan.
  rewrite basename_scan_app by exact Hname.
  rewrite basename_scan_name by assumption.
  rewrite !length_app.
  destruct Ht as [->| ->].
  - cbn [basename_scan length].
    destruct (Z.of_nat (length pre) =? Z.of_nat (length pre) + Z.of_nat (length name)) eqn:E;
      [lia|]. lia.
  - cbn [basename_scan]. change (chr "/") with 47. cbn [Z.eqb Pos.eqb length].
    rewrite Z.eqb_refl. lia.
Qed.

Lemma format_loop_percent_star_s (k : Z) (str : list Z) (args : list varg)
    (buf : list Z) (s t : Z) :
  format_loop (cstr "%.*s") Literal (VInt k :: VStr str :: args) buf s t =
    let '(b, s', _) :=
      format_str buf s t (star_arg (with_p spec_init 0) true k) (VStr str :: args) in
    (b, Some s').
Proof.
  lazy -[format_str star_arg with_p spec_init].
  destruct (format_str buf s t _ _) as [[b s'] args']. reflexivity.
Qed.

Lemma format_str_precision (buf str : list Z) (s t k : Z) (args : list varg) :
  0 <= k < 2 ^ 31 ->
  format_str buf s t (star_arg (with_p spec_init 0) true k) (VStr str :: args) =
    (outstr buf s t (take (Z.to_nat k) str), args).
Proof.
  intros Hk. unfold star_arg. rewrite wrap_s32_id by (unfold in_s32; lia).
  destruct (k <? 0) eqn:E; [lia|].
  unfold format_str, va_str, with_p, spec_init. cbn [sp_p sp_w sp_left sp_zero sp_plus sp_space sp_alt sp_lenmodsz].
  unfold WP_NONE at 1. destruct (k =? -1) eqn:E1; [lia|]. cbn [negb].
  unfold outpadded. cbn [sp_p sp_w sp_left sp_zero strlen].
  change (WP_NONE =? WP_NONE) with true. cbv iota.
  set (v := take (Z.to_nat k) str).
  pose proof (strlen_nonneg v) as Hlen.
  assert (Hnw : 0 <= wrap_u32 (0 + strlen v)).
  { unfold wrap_u32. apply Z.mod_pos_bound. lia. }
  replace (Z.to_nat (if 0 >? wrap_u32 (0 + strlen v)
                     then 0 - wrap_u32 (0 + strlen v) else 0)) with O
    by (destruct (0 >? wrap_u32 (0 + strlen v)); lia).
  cbn [negb andb outpad outstr].
  destruct (outstr buf s t v). reflexivity.
Qed.

Lemma snprintf_percent_star_s (buf str : list Z) (n k : Z) :
  is_cstr (take (Z.to_nat k) str) ->
  0 <= k < 2 ^ 31 ->
  Z.of_nat (length (take (Z.to_nat k) str)) < n ->
  n <= Z.of_nat (length buf) ->
  n < 2 ^ 31 ->
  snprintf buf 0 n (cstr "%.*s") [VInt k; VStr str] =
    (take (Z.to_nat k) str ++ 0 :: drop (length (take (Z.to_nat k) str) + 1) buf,
     Z.of_nat (length (take (Z.to_nat k) str))).
Proof.
  intros Hstr Hk Hn Hbuf Hmax.
  pose proof (snprintf_percent_s buf (take (Z.to_nat k) str) 0 n Hstr ltac:(lia) Hn
                ltac:(lia) Hmax) as Href.
  unfold snprintf in *. rewrite format_loop_percent_s, format_str_plain in Href.
  rewrite format_loop_percent_star_s, format_str_precision by lia.
  exact Href.
Qed.


Lemma root_check (p : list Z) :
  is_cstr p -> (deref p =? 47) && (deref (drop 1 p) =? 0) = true -> p = [47].
Proof.
  intros Hp H. apply andb_true_iff in H as [H1 H2].
  apply Z.eqb_eq in H1. apply Z.eqb_eq in H2.
  destruct p as [|c [|d p]].
  - simpl in H1. lia.
  - simpl in H1. subst c. reflexivity.
  - apply Forall_cons in Hp as [_ Hp]. apply Forall_cons in Hp as [[Hd _] _].
    simpl in H2. lia.
Qed.

(** [path_basename] writes the last name of the path: what follows the last
    slash, or, when the path ends in one slash, what lies between the last
    two; "/" gives "/", and a NULL path writes nothing and returns 0. *)
Theorem path_basename_spec (dst pre name trail : list Z) :
  is_cstr pre -> is_cstr name -> 47 ∉ name -> name <> [] ->
  pre = [] \/ last pre = Some 47 ->
  trail = [] \/ trail = [47] ->
  Z.of_nat (length name) < Z.of_nat (length dst) ->
  Z.of_nat (length dst) < 2 ^ 31 ->
  Z.of_nat (length (pre ++ name ++ trail)) < 2 ^ 31 ->
  (exists rest,
     path_basename dst (Z.of_nat (length dst)) (Some (pre ++ name ++ trail))
       = (name ++ 0 :: rest, Z.of_nat (length name)))
  /\ (exists rest,
        path_basename dst (Z.of_nat (length dst)) (Some (cstr "/"))
          = (47 :: 0 :: rest, 1))
  /\ path_basename dst (Z.of_nat (length dst)) None = (dst, 0).
Proof.
  intros Hpre Hname Hno Hne Hp Ht Hfit Hmax Hpath.
  split; [|split; [|reflexivity]].
  - assert (Htrail : is_cstr trail).
    { destruct Ht as [->| ->]; [constructor|]. constructor; [lia|constructor]. }
    assert (Hcs : is_cstr (pre ++ name ++ trail)) by (repeat apply is_cstr_app; assumption).
    unfold path_basename. change (chr "/") with 47.
    destruct ((deref (pre ++ name ++ trail) =? 47)
              && (deref (drop 1 (pre ++ name ++ trail)) =? 0)) eqn:Eroot.
    { exfalso. apply root_check in Eroot; [|exact Hcs].
      destruct name as [|c name]; [contradiction|].
      apply not_elem_of_cons in Hno as [Hc _].
      destruct pre as [|x pre].
      - simpl in Eroot. injection Eroot as -> _. lia.
      - simpl in Eroot. injection Eroot as _ Eroot.
        destruct pre; discriminate Eroot. }
    pose proof (basename_scan_path pre name trail Hpre Hname Hno Hne Hp Ht) as Hscan.
    destruct (basename_scan (pre ++ name ++ trail) 0 0 0) as [[pend prevslash] lastslash].
    destruct Hscan as (Hpend & Hstart & Hnlen).
    replace (if lastslash =? pend then (prevslash, pend - 1) else (lastslash, pend))
      with (Z.of_nat (length pre), Z.of_nat (length pre) + Z.of_nat (length name))
      by (destruct (lastslash =? pend); f_equal; lia).
    replace (Z.of_nat (length pre) + Z.of_nat (length name) - Z.of_nat (length pre))
      with (Z.of_nat (length name)) by lia.
    rewrite wrap_s32_id by (unfold in_s32; rewrite !length_app in Hpath; lia).
    rewrite Nat2Z.id, drop_app_length.
    rewrite snprintf_percent_star_s.
    + rewrite Nat2Z.id, take_app_length. eexists. reflexivity.
    + rewrite Nat2Z.id, take_app_length. exact Hname.
    + rewrite !length_app in Hpath. lia.
    + rewrite Nat2Z.id, take_app_length. exact Hfit.
    + lia.
    + exact Hmax.
  - unfold path_basename. change (cstr "/") with [47].
    change (chr "/") with 47. cbn [deref hd drop Z.eqb Pos.eqb andb].
    destruct dst as [|d0 [|d1 dst]]; [simpl in Hfit; lia| |].
    + exfalso. destruct name; [contradiction|simpl in Hfit; lia].
    + exists dst. unfold snprintf. cbn [format_loop]. change (47 =? 0) with false.
      change (47 =? chr "%") with false. cbv iota. unfold outchar.
      simpl length in *. 
      destruct (0 <? 0 + Z.of_nat (S (S (length dst)))) eqn:E1; [|apply Z.ltb_ge in E1; lia].
      cbn [format_loop].
      destruct (Z.of_nat (S (S (length dst))) =? 0) eqn:E2; [apply Z.eqb_eq in E2; lia|].
      destruct (0 + 1 <? 0 + Z.of_nat (S (S (length dst)))) eqn:E3; [|apply Z.ltb_ge in E3; lia].
      rewrite wrap_s8_id by lia. reflexivity.
Qed.

End PathMoreProperties.

Lemma path_strip_prefix_spec_witness :
  Path.path_strip_prefix (Some (CString.cstr "/bin/ls")) (Some (CString.cstr "/bin")) =
    if bool_decide (CString.cstr "/bin" `prefix_of` CString.cstr "/bin/ls")
    then Some (Z.of_nat (length (CString.cstr "/bin"))
               + (if CString.deref (drop (length (CString.cstr "/bin")) (CString.cstr "/bin/ls")) =? 47
                  then 1 else 0))
    else None.
Proof.
  apply path_strip_prefix_spec; [is_cstr_literal|is_cstr_literal|].
  vm_compute. reflexivity.
Defined.

Lemma path_strip_prefix_of_join_witness :
  let dst := replicate 16 0 in
  let a := CString.cstr "/usr" in
  let b := CString.cstr "bin" in
  let joined := (Path.path_join dst (Z.of_nat (length dst)) (Some a) (Some b)).1 in
  exists off,
    Path.path_strip_prefix (Some joined) (Some a) = Some off
    /\ Path.string_at joined off = b.
Proof.
  apply path_strip_prefix_of_join.
  - is_cstr_literal.
  - is_cstr_literal.
  - vm_compute. reflexivity.
  - vm_compute. discriminate.
  - vm_compute. reflexivity.
Defined.

Lemma path_basename_spec_witness :
  let dst := replicate 16 0 in
  let pre := CString.cstr "/usr/" in
  let name := CString.cstr "bin" in
  let trail := CString.cstr "/" in
  (exists rest,
     Path.path_basename dst (Z.of_nat (length dst)) (Some (pre ++ name ++ trail))
       = (name ++ 0 :: rest, Z.of_nat (length name)))
  /\ (exists rest,
        Path.path_basename dst (Z.of_nat (length dst)) (Some (CString.cstr "/"))
          = (47 :: 0 :: rest, 1))
  /\ Path.path_basename dst (Z.of_nat (length dst)) None = (dst, 0).
Proof.
  apply path_basename_spec.
  - is_cstr_literal.
  - is_cstr_literal.
  - vm_compute. intros H. repeat (apply elem_of_cons in H as [H|H]; [discriminate H|]).
    inversion H.
  - discriminate.
  - right. reflexivity.
  - right. reflexivity.
  - vm_compute. reflexivity.
  - vm_compute. reflexivity.
  - vm_compute. reflexivity.
Defined.

(* ================================================================== *)
(** * Properties: device numbers and opening devices                   *)
(* ================================================================== *)

Section DeviceProperties.
Import Cint Errno Vfs.

Lemma MAJOR_MAKEDEV (maj min : Z) :
  0 <= maj -> 0 <= min ->
  MAJOR (MAKEDEV maj min) = Z.lor maj (Z.shiftr min 8).
Proof.
  intros Hmaj Hmin. unfold MAJOR, MAKEDEV.
  rewrite Z.shiftr_lor, Z.shiftr_shiftl_l by lia.
  rewrite Z.sub_diag, Z.shiftl_0_r. reflexivity.
Qed.

Lemma MINOR_MAKEDEV (maj min : Z) :
  0 <= maj -> 0 <= min ->
  MINOR (MAKEDEV maj min) = min mod 256.
Proof.
  intros Hmaj Hmin. unfold MINOR, MAKEDEV.
  change 255 with (Z.ones 8). rewrite Z.land_ones by lia.
  rewrite Z.shiftl_mul_pow2 by lia.
  rewrite <- (Z.land_ones _ 8) by lia.
  rewrite Z.land_lor_distr_l, !Z.land_ones by lia.
  rewrite Z.mod_mul by lia. apply Z.lor_0_l.
Qed.

(** MAKEDEV, MAJOR and MINOR: a minor below 256 and its major come back as
    they went in; the bits of a larger minor from bit 8 on end up in the
    major. *)
Theorem MAKEDEV_round_trip (maj min : Z) :
  0 <= maj -> 0 <= min ->
  MAJOR (MAKEDEV maj min) = Z.lor maj (Z.shiftr min 8)
  /\ MINOR (MAKEDEV maj min) = min mod 256
  /\ (min < 256 -> MAJOR (MAKEDEV maj min) = maj /\ MINOR (MAKEDEV maj min) = min).
Proof.
  intros Hmaj Hmin. split; [apply MAJOR_MAKEDEV; assumption|].
  split; [apply MINOR_MAKEDEV; assumption|].
  intros Hlt. rewrite MAJOR_MAKEDEV, MINOR_MAKEDEV by assumption.
  rewrite Z.shiftr_div_pow2, Z.div_small, Z.lor_0_r by lia.
  rewrite Z.mod_small by lia. auto.
Qed.

Lemma MAKEDEV_small (maj min : Z) :
  0 <= maj -> 0 <= min < 256 ->
  MAJOR (MAKEDEV maj min) = maj /\ MINOR (MAKEDEV maj min) = min.
Proof.
  intros Hmaj Hmin. rewrite MAJOR_MAKEDEV, MINOR_MAKEDEV by lia.
  rewrite Z.shiftr_div_pow2, Z.div_small, Z.lor_0_r by lia.
  rewrite Z.mod_small by lia. auto.
Qed.

Context {W fops fsops : Type} `{EqDecision fops}.
Variable ops : fops -> file_operations W fops fsops.


End DeviceProperties.

Lemma MAKEDEV_round_trip_witness :
  Vfs.MAJOR (Vfs.MAKEDEV 4 1) = Z.lor 4 (Z.shiftr 1 8)
  /\ Vfs.MINOR (Vfs.MAKEDEV 4 1) = 1 mod 256
  /\ (1 < 256 -> Vfs.MAJOR (Vfs.MAKEDEV 4 1) = 4 /\ Vfs.MINOR (Vfs.MAKEDEV 4 1) = 1).
Proof. apply MAKEDEV_round_trip; lia. Defined.


(* ================================================================== *)
(** * Properties: ramdisks through the VFS                             *)
(* ================================================================== *)

Section RamdiskFileProperties.
Import Cint Errno Vfs Ramdisk.

Lemma ramdisk_free_slot_spec (rds : list ramdisk) (k i : Z) :
  ramdisk_free_slot rds k = Some i ->
  k <= i < k + Z.of_nat (length rds)
  /\ (exists rd, rds !! Z.to_nat (i - k) = Some rd /\ addr rd = None)
  /\ forall j rd, (j < Z.to_nat (i - k))%nat -> rds !! j = Some rd -> addr rd <> None.
Proof.
  revert k. induction rds as [|rd rds IH]; intros k; simpl; [discriminate|].
  destruct (addr rd) as [a|] eqn:Ea.
  - intros H. apply IH in H as (Hi & (rd' & Hrd' & Ha') & Hmin).
    split; [lia|]. split.
    + exists rd'. split; [|exact Ha'].
      replace (Z.to_nat (i - k)) with (S (Z.to_nat (i - (k + 1)))) by lia. exact Hrd'.
    + intros j rd0 Hj Hl. destruct j as [|j]; simpl in Hl.
      * injection Hl as <-. congruence.
      * apply (Hmin j); [lia|exact Hl].
  - intros [= <-]. split; [lia|]. split.
    + exists rd. rewrite Z.sub_diag. auto.
    + intros j rd0 Hj. rewrite Z.sub_diag in Hj. simpl in Hj. lia.
Qed.

Lemma ramdisk_free_slot_none (rds : list ramdisk) (k : Z) :
  ramdisk_free_slot rds k = None <-> Forall (fun rd => addr rd <> None) rds.
Proof.
  revert k. induction rds as [|rd rds IH]; intros k; simpl.
  - split; [constructor|reflexivity].
  - destruct (addr rd) as [a|] eqn:Ea.
    + rewrite IH. split; [intros H; constructor; [congruence|exact H]|].
      intros H. apply Forall_cons in H as [_ H]. exact H.
    + split; [discriminate|]. intros H. apply Forall_cons in H as [H _]. congruence.
Qed.

Context {fops fsops : Type}.

(** [ramdisk_read] on a file that holds the slot of a ramdisk at [base]. *)
Lemma ramdisk_read_at (f : file fops) (i : nat) (base sz count pos : Z)
    (w : rd_state) :
  f_driver_data f = Some i ->
  ramdisks w !! i = Some (mk_ramdisk (Some base) sz) ->
  in_s32 (f_size (f_stat f)) ->
  0 <= count ->
  let size := f_size (f_stat f) in
  let pos0 := Z.max pos 0 in
  ramdisk_read f count pos w =
    if size <=? pos0 then (w, [], pos0, 0)
    else
      let n := Z.min count (size - pos0) in
      (w, bytes_at (mem w) base pos0 n, pos0 + n, n).
Proof.
  intros Hdata Hrd Hrange Hcount fsz pos0. unfold ramdisk_read.
  replace (if pos <? 0 then 0 else pos) with pos0
    by (unfold pos0; destruct (pos <? 0) eqn:E; lia).
  fold fsz.
  destruct (pos0 >=? fsz) eqn:Hge; destruct (fsz <=? pos0) eqn:Hle; try lia.
  - reflexivity.
  - rewrite ramdisk_read_loop_spec by lia.
    unfold rd_base. rewrite Hdata. simpl. rewrite Hrd. simpl.
    rewrite Z.sub_0_r, Z.add_0_l.
    rewrite wrap_s32_id; [reflexivity|].
    unfold in_s32 in *. lia.
Qed.

Lemma bytes_at_app (mem_ : Z -> Z) (base off n m : Z) :
  0 <= n -> 0 <= m ->
  bytes_at mem_ base off (n + m) =
    bytes_at mem_ base off n ++ bytes_at mem_ base (off + n) m.
Proof.
  intros Hn Hm. unfold bytes_at. rewrite seqZ_app by lia.
  rewrite map_app. reflexivity.
Qed.


End RamdiskFileProperties.

Section RamdiskKernelProperties.
Import Cint Errno Vfs Ramdisk Kernel.

Lemma disk_file_read (f : file unit) (count : Z) (w : rd_state) :
  f_op f = Some tt ->
  file_read disk_ops f count w =
    if count =? 0 then (w, f, [], 0)
    else let '(w, dst, off, res) := ramdisk_read f count (f_pos f) w in
         (w, set_f_pos f off, dst, res).
Proof. intros Hop. unfold file_read. rewrite Hop. reflexivity. Qed.

(** A ramdisk that is created can be opened under the minor
    [ramdisk_create] returned and read back: the file has the size given at
    creation, starts at offset 0, and [file_read] returns the bytes of memory
    from the address given, as many as asked for and the ramdisk holds.  The
    ramdisk takes the first free slot and the other slots stay as they
    are. *)
Theorem ramdisk_create_open_read (w : rd_state) (a size i : Z) :
  length (ramdisks w) = Z.to_nat RAMDISKS_MAX ->
  ramdisk_free_slot (ramdisks w) 0 = Some i ->
  0 < size < 2 ^ 31 ->
  let r := ramdisk_create (Some a) size w in
  r.2 = i
  /\ mem r.1 = mem w
  /\ (forall j, j <> Z.to_nat i -> ramdisks r.1 !! j = ramdisks w !! j)
  /\ exists f,
       file_open_dev disk_ops disk_drivers (MAKEDEV MAJ_RAMDISK i) r.1 = (r.1, f, 0)
       /\ f_size (f_stat f) = size /\ f_pos f = 0
       /\ forall count, 0 <= count ->
            let n := Z.min count size in
            file_read disk_ops f count r.1
              = (r.1, set_f_pos f n, bytes_at (mem w) a 0 n, n).
Proof.
  intros Hlen Hslot Hsize r.
  pose proof (ramdisk_free_slot_spec _ _ _ Hslot) as (Hi & _ & _).
  rewrite Hlen in Hi. unfold RAMDISKS_MAX in Hi.
  assert (Hr : r = (mk_rd_state (mem w)
                      (<[Z.to_nat i := mk_ramdisk (Some a) size]> (ramdisks w)), i)).
  { unfold r, ramdisk_create, ramdisk_create_inner.
    destruct (size =? 0) eqn:E; [lia|]. rewrite Hslot. reflexivity. }
  rewrite Hr. cbn [fst snd mem ramdisks].
  split; [reflexivity|]. split; [reflexivity|]. split.
  { intros j Hj. apply list_lookup_insert_ne. congruence. }
  set (w' := mk_rd_state _ _).
  assert (Hrd : ramdisks w' !! Z.to_nat i = Some (mk_ramdisk (Some a) size)).
  { unfold w'. cbn [ramdisks]. apply list_lookup_insert_eq. rewrite Hlen.
    unfold RAMDISKS_MAX. lia. }
  destruct (MAKEDEV_small MAJ_RAMDISK i ltac:(unfold MAJ_RAMDISK; lia) ltac:(lia))
    as [HM Hm].
  exists (mk_file (mk_fstat 0 DT_CHR (MAKEDEV MAJ_RAMDISK i) size) 0 (Some tt)
            (Some (Z.to_nat i))).
  split; [|split; [|split]].
  - unfold file_open_dev, file_open_dev_inner. cbv zeta. rewrite HM, Hm.
    change ((MAJ_RAMDISK <=? 0) || (MAJORS_MAX <=? MAJ_RAMDISK)) with false.
    change (disk_drivers !! Z.to_nat MAJ_RAMDISK) with (Some (Some tt)).
    cbv iota. change (open_dev (disk_ops tt)) with (Some (@ramdisk_open_dev unit)).
    cbv iota. unfold ramdisk_open_dev.
    destruct (i >=? RAMDISKS_MAX) eqn:E; [unfold RAMDISKS_MAX in E; lia|].
    rewrite Hrd. cbn. rewrite wrap_s32_id by (unfold in_s32; lia). reflexivity.
  - reflexivity.
  - reflexivity.
  - intros count Hcount. set (n := Z.min count size).
    rewrite disk_file_read by reflexivity.
    destruct (count =? 0) eqn:Ec.
    + apply Z.eqb_eq in Ec. subst count. unfold n.
      rewrite Z.min_l by lia. unfold bytes_at. rewrite seqZ_nil by lia. reflexivity.
    + erewrite ramdisk_read_at; [|reflexivity|exact Hrd| |exact Hcount].
      2:{ cbn. unfold in_s32. lia. }
      cbn [f_stat f_size f_pos].
      rewrite Z.max_r by lia.
      destruct (size <=? 0) eqn:E0; [lia|].
      cbv zeta. rewrite Z.sub_0_r, Z.add_0_l. reflexivity.
Qed.

(** Reading through a file on a ramdisk in two steps returns what one read
    of both counts returns: the bytes one after the other, the counts added
    up, and the same final offset. *)
Theorem ramdisk_reads_compose (f : file unit) (i : nat) (base sz n1 n2 : Z)
    (w : rd_state) :
  f_op f = Some tt ->
  f_driver_data f = Some i ->
  ramdisks w !! i = Some (mk_ramdisk (Some base) sz) ->
  in_s32 (f_size (f_stat f)) ->
  0 <= f_pos f -> 0 <= n1 -> 0 <= n2 ->
  let r1 := file_read disk_ops f n1 w in
  let r2 := file_read disk_ops r1.1.1.2 n2 r1.1.1.1 in
  file_read disk_ops f (n1 + n2) w
    = (r2.1.1.1, r2.1.1.2, r1.1.2 ++ r2.1.2, r1.2 + r2.2).
Proof.
  intros Hop Hdata Hrd Hrange Hpos Hn1 Hn2 r1 r2.
  set (size := f_size (f_stat f)) in *.
  set (pos := f_pos f) in *.
  assert (Hread : forall count p, 0 <= count -> 0 <= p ->
    file_read disk_ops (set_f_pos f p) count w =
      if count =? 0 then (w, set_f_pos f p, [], 0)
      else if size <=? p then (w, set_f_pos f p, [], 0)
      else (w, set_f_pos f (p + Z.min count (size - p)),
            bytes_at (mem w) base p (Z.min count (size - p)),
            Z.min count (size - p))).
  { intros count p Hc Hp. rewrite disk_file_read by exact Hop.
    destruct (count =? 0); [reflexivity|].
    erewrite ramdisk_read_at; [|exact Hdata|exact Hrd|exact Hrange|exact Hc].
    cbn [f_pos set_f_pos f_stat]. fold size. rewrite Z.max_l by lia.
    destruct (size <=? p); reflexivity. }
  assert (Hf : f = set_f_pos f pos) by (destruct f; reflexivity).
  assert (Hr1 : r1 = file_read disk_ops (set_f_pos f pos) n1 w)
    by (unfold r1; rewrite <- Hf; reflexivity).
  rewrite Hf at 1. rewrite Hread by lia.
  unfold r2. rewrite Hr1. rewrite (Hread n1 pos) by lia.
  destruct (n1 =? 0) eqn:E1.
  - apply Z.eqb_eq in E1. subst n1. cbn [fst snd]. rewrite Z.add_0_l.
    rewrite (Hread n2 pos) by lia.
    destruct (n2 =? 0); [reflexivity|].
    destruct (size <=? pos); reflexivity.
  - apply Z.eqb_neq in E1.
    destruct (n1 + n2 =? 0) eqn:E12; [lia|].
    destruct (size <=? pos) eqn:Es.
    + cbn [fst snd]. rewrite (Hread n2 pos) by lia. rewrite Es.
      destruct (n2 =? 0); reflexivity.
    + cbn [fst snd].
      set (m1 := Z.min n1 (size - pos)).
      assert (Hm1 : 0 <= m1) by (unfold m1; lia).
      pose proof (Hread n2 (pos + m1) Hn2 ltac:(lia)) as H2.
      rewrite H2.
      destruct (n2 =? 0) eqn:E2.
      * apply Z.eqb_eq in E2. subst n2. cbn [fst snd].
        rewrite !Z.add_0_r, app_nil_r. fold m1. reflexivity.
      * apply Z.eqb_neq in E2.
        destruct (size <=? pos + m1) eqn:Es2; cbn [fst snd].
        -- replace (Z.min (n1 + n2) (size - pos)) with m1 by (unfold m1; lia).
           rewrite app_nil_r, !Z.add_0_r. reflexivity.
        -- replace (Z.min (n1 + n2) (size - pos))
             with (m1 + Z.min n2 (size - (pos + m1))) by (unfold m1; lia).
           rewrite bytes_at_app by lia.
           rewrite Z.add_assoc. reflexivity.
Qed.

(** The ramdisk driver has no [lseek] entry, so [file_lseek] to an absolute
    offset accepts any offset, a negative one or one past the end included,
    and only stores it.  A [file_read] after it returns what [file_pread] at
    that offset returns, and leaves the position at the offset, clamped to 0
    from below, plus the bytes read. *)
Theorem ramdisk_seek_then_read (f : file unit) (i : nat) (base sz off count : Z)
    (w : rd_state) :
  f_op f = Some tt ->
  f_driver_data f = Some i ->
  ramdisks w !! i = Some (mk_ramdisk (Some base) sz) ->
  in_s32 (f_size (f_stat f)) ->
  0 <= count ->
  file_lseek disk_ops f off SEEK_SET w = (w, set_f_pos f off, 0)
  /\ let r := file_read disk_ops (set_f_pos f off) count w in
     let p := file_pread disk_ops f count off w in
     r.1.1.1 = p.1.1 /\ r.1.2 = p.1.2 /\ r.2 = p.2
     /\ (count <> 0 -> f_pos r.1.1.2 = Z.max off 0 + r.2).
Proof.
  intros Hop Hdata Hrd Hrange Hcount. split.
  - unfold file_lseek. rewrite Hop. reflexivity.
  - cbv zeta. rewrite disk_file_read by exact Hop.
    unfold file_pread. rewrite Hop.
    change (read (disk_ops tt)) with (Some (@ramdisk_read unit)). cbv iota.
    destruct (count =? 0) eqn:Ec.
    + apply Z.eqb_eq in Ec. repeat split; try reflexivity. intros H. contradiction.
    + cbn [f_pos set_f_pos].
      assert (Heq : ramdisk_read (set_f_pos f off) count off w
                    = ramdisk_read f count off w) by reflexivity.
      rewrite Heq.
      erewrite ramdisk_read_at; [|exact Hdata|exact Hrd|exact Hrange|exact Hcount].
      destruct (f_size (f_stat f) <=? Z.max off 0); cbn; repeat split; intros; lia.
Qed.

End RamdiskKernelProperties.

Lemma ramdisk_create_open_read_witness :
  let w := Ramdisk.mk_rd_state (fun a => a) Ramdisk.ramdisks_init in
  let r := Ramdisk.ramdisk_create (Some 4096) 16 w in
  r.2 = 0
  /\ Ramdisk.mem r.1 = Ramdisk.mem w
  /\ (forall j, j <> Z.to_nat 0 -> Ramdisk.ramdisks r.1 !! j = Ramdisk.ramdisks w !! j)
  /\ exists f,
       Vfs.file_open_dev Kernel.disk_ops Kernel.disk_drivers
         (Vfs.MAKEDEV Vfs.MAJ_RAMDISK 0) r.1 = (r.1, f, 0)
       /\ Vfs.f_size (Vfs.f_stat f) = 16 /\ Vfs.f_pos f = 0
       /\ forall count, 0 <= count ->
            let n := Z.min count 16 in
            Vfs.file_read Kernel.disk_ops f count r.1
              = (r.1, Vfs.set_f_pos f n, Ramdisk.bytes_at (Ramdisk.mem w) 4096 0 n, n).
Proof.
  apply (ramdisk_create_open_read (Ramdisk.mk_rd_state (fun a => a) Ramdisk.ramdisks_init)
           4096 16 0).
  - reflexivity.
  - reflexivity.
  - lia.
Defined.

Lemma ramdisk_reads_compose_witness :
  let r1 := Vfs.file_read Kernel.disk_ops Kernel.disk16_file 3 Kernel.disk16 in
  let r2 := Vfs.file_read Kernel.disk_ops r1.1.1.2 4 r1.1.1.1 in
  Vfs.file_read Kernel.disk_ops Kernel.disk16_file (3 + 4) Kernel.disk16
    = (r2.1.1.1, r2.1.1.2, r1.1.2 ++ r2.1.2, r1.2 + r2.2).
Proof.
  apply (ramdisk_reads_compose Kernel.disk16_file 0 4096 16 3 4 Kernel.disk16).
  - reflexivity.
  - reflexivity.
  - reflexivity.
  - vm_compute. split; [discriminate|reflexivity].
  - vm_compute. discriminate.
  - lia.
  - lia.
Defined.

Lemma ramdisk_seek_then_read_witness :
  Vfs.file_lseek Kernel.disk_ops Kernel.disk16_file (-3) Vfs.SEEK_SET Kernel.disk16
    = (Kernel.disk16, Vfs.set_f_pos Kernel.disk16_file (-3), 0)
  /\ let r := Vfs.file_read Kernel.disk_ops (Vfs.set_f_pos Kernel.disk16_file (-3)) 4
                Kernel.disk16 in
     let p := Vfs.file_pread Kernel.disk_ops Kernel.disk16_file 4 (-3) Kernel.disk16 in
     r.1.1.1 = p.1.1 /\ r.1.2 = p.1.2 /\ r.2 = p.2
     /\ (4 <> 0 -> Vfs.f_pos r.1.1.2 = Z.max (-3) 0 + r.2).
Proof.
  apply (ramdisk_seek_then_read Kernel.disk16_file 0 4096 16 (-3) 4 Kernel.disk16).
  - reflexivity.
  - reflexivity.
  - reflexivity.
  - vm_compute. split; [discriminate|reflexivity].
  - lia.
Defined.

(* ================================================================== *)
(** * Properties: mounting, superblock slots and routing               *)
(* ================================================================== *)

Section MountSlotProperties.
Import Cint Errno CString Vfs Mount.
Context {W fops fsops : Type}.
Variable fs_ops : fsops -> fs_operations W fops fsops.
Implicit Types (st : vfs_state fsops) (l : list nat).


Lemma sb_alloc_from_none (sbs : list (superblock fsops)) (i : nat) :
  Forall (fun sb => s_op sb <> None) sbs -> sb_alloc_from sbs i = None.
Proof.
  intros H. revert i. induction H as [|sb sbs Hsb _ IH]; intros i; simpl; [reflexivity|].
  destruct (s_op sb); [apply IH|congruence].
Qed.






(** With SB_MAX filesystems on the mount list every slot is in use: the next
    mount fails with -ENOMEM and changes nothing. *)
Theorem fs_mountdev_full st l blockdev fstypeid (mpath : list Z) (w : W) :
  mounted st l -> length l = Z.to_nat SB_MAX ->
  fs_mountdev fs_ops st blockdev fstypeid mpath w = (st, w, - ENOMEM).
Proof.
  intros [Hlen Hnd Hr Hu _] Hl.
  assert (Hperm : l ≡ₚ seq 0 (Z.to_nat SB_MAX)).
  { apply submseteq_length_Permutation.
    - apply NoDup_submseteq; [exact Hnd|].
      intros x Hx. rewrite Forall_forall in Hr. apply elem_of_seq.
      specialize (Hr x Hx). lia.
    - rewrite length_seq. lia. }
  assert (Hall : Forall (fun sb => s_op sb <> None) (superblocks st)).
  { apply Forall_lookup. intros i sb Hi.
    assert (Hin : i ∈ l).
    { rewrite Hperm. apply elem_of_seq. apply lookup_lt_Some in Hi. lia. }
    rewrite Forall_forall in Hu. specialize (Hu i Hin).
    unfold sb_at in Hu. rewrite Hi in Hu. exact Hu. }
  unfold fs_mountdev, sb_alloc. rewrite sb_alloc_from_none by exact Hall.
  reflexivity.
Qed.

End MountSlotProperties.

Section RoutingProperties.
Import Cint Errno CString Vfs Mount.
Context {W fops fsops : Type}.
Variable ops : fops -> file_operations W fops fsops.
Variable fs_ops : fsops -> fs_operations W fops fsops.
Implicit Types (st : vfs_state fsops) (l : list nat).

(** Where an array holds a C string, [strstr] and [path_strip_prefix] see
    the string and not what follows its terminator. *)
Lemma strstr_loop_take (n : nat) (str x y : list Z) :
  take n x = take n y ->
  strstr_loop (Z.of_nat n) str x = strstr_loop (Z.of_nat n) str y.
Proof.
  intros Hxy. induction str as [|c str IH]; [reflexivity|].
  cbn [strstr_loop]. unfold strncmp. rewrite Nat2Z.id.
  rewrite !strncmp_loop_take, Hxy, IH. reflexivity.
Qed.

Lemma strstr_buffer (str sub tail : list Z) :
  is_cstr sub -> Z.of_nat (length sub) < 2 ^ 31 ->
  strstr str (sub ++ 0 :: tail) = strstr str sub.
Proof.
  intros Hsub Hlen. unfold strstr.
  rewrite (strlen_terminated _ _ Hsub), (is_cstr_strlen _ Hsub).
  rewrite wrap_s32_id by (unfold in_s32; lia).
  apply strstr_loop_take. rewrite take_app_length, firstn_all. reflexivity.
Qed.

Lemma path_strip_prefix_buffer (path prefix tail : list Z) :
  is_cstr prefix -> Z.of_nat (length prefix) < 2 ^ 31 ->
  Path.path_strip_prefix (Some path) (Some (prefix ++ 0 :: tail))
    = Path.path_strip_prefix (Some path) (Some prefix).
Proof.
  intros Hp Hlen. unfold Path.path_strip_prefix.
  rewrite (strlen_terminated _ _ Hp), (is_cstr_strlen _ Hp).
  rewrite wrap_s32_id by (unfold in_s32; lia).
  unfold wrap_u32. rewrite Z.mod_small by lia.
  unfold strncmp. rewrite Nat2Z.id, !strncmp_loop_take.
  rewrite take_app_length, firstn_all. reflexivity.
Qed.

(** The [sb_open] entry of a driver leaves [sb->s_op] alone, and the array
    [sb->s_mountpath] is as long after it as before. *)
Hypothesis sb_open_keeps :
  forall d hook sb w,
    sb_open_hook (fs_ops d) = Some hook ->
    s_op (hook sb w).1.2 = s_op sb
    /\ length (s_mountpath (hook sb w).1.2) = length (s_mountpath sb).

Lemma sb_open_mountpath_length st sb blockdev fstypeid (w : W) :
  (sb < length (superblocks st))%nat ->
  let r := sb_open fs_ops st sb blockdev fstypeid w in
  r.2 = 0 -> length (s_mountpath (sb_at r.1.1 sb)) = Z.to_nat PATH_MAX.
Proof.
  intros Hsb r. unfold r, sb_open.
  destruct (default None (fs_drivers st !! Z.to_nat fstypeid)) as [d|];
    [|cbn; unfold ENODEV; lia].
  set (sb0 := mk_superblock _ _ _ _ _ _).
  set (st1 := INIT_LIST_HEAD (set_sb st sb sb0) (LSb sb)).
  assert (Hmp : length (s_mountpath (sb_at st1 sb)) = Z.to_nat PATH_MAX).
  { unfold st1, INIT_LIST_HEAD, set_next, set_prev.
    rewrite !s_mountpath_set_node. rewrite sb_at_set_sb by exact Hsb.
    rewrite decide_True by reflexivity. apply length_replicate. }
  assert (Hlen : (sb < length (superblocks st1))%nat).
  { unfold st1, INIT_LIST_HEAD, set_next, set_prev.
    rewrite !length_set_node. cbn. rewrite length_insert. exact Hsb. }
  destruct (sb_open_hook (fs_ops d)) as [hook|] eqn:Eh; [|intros _; exact Hmp].
  pose proof (sb_open_keeps d hook (sb_at st1 sb) w Eh) as [_ Hk].
  destruct (hook (sb_at st1 sb) w) as [[w' sb'] res]. cbn [fst snd] in Hk.
  destruct (res <? 0) eqn:E; cbn [fst snd]; [lia|]. intros _.
  rewrite sb_at_set_sb by exact Hlen. rewrite decide_True by reflexivity. congruence.
Qed.

Lemma sb_open_keeps_s_op :
  forall d hook sb (w : W),
    sb_open_hook (fs_ops d) = Some hook -> s_op (hook sb w).1.2 = s_op sb.
Proof. intros d hook sb w H. apply (sb_open_keeps d hook sb w H). Qed.

Lemma s_mountpath_vfs_mount_list_add st sb i :
  s_mountpath (sb_at (vfs_mount_list_add st sb) i) = s_mountpath (sb_at st i).
Proof.
  unfold vfs_mount_list_add, list_add_tail, _list_ensure_init.
  destruct (next (node st LHead));
    [|unfold INIT_LIST_HEAD, set_next, set_prev];
    (match goal with
     | |- context [match ?x with Some _ => _ | None => _ end] => destruct x
     end);
    rewrite ?s_mountpath_list_add, ?s_mountpath_set_node; reflexivity.
Qed.

(** The mount path a successful mount leaves in its superblock. *)
Lemma fs_mountdev_mountpath st l blockdev fstypeid (mpath : list Z) (w : W) :
  mounted st l -> is_cstr mpath -> Z.of_nat (length mpath) < PATH_MAX ->
  let r := fs_mountdev fs_ops st blockdev fstypeid mpath w in
  r.2 = 0 ->
  exists sb tail,
    sb_alloc st = Some sb /\ mounted r.1.1 (l ++ [sb])
    /\ s_mountpath (sb_at r.1.1 sb) = mpath ++ 0 :: tail.
Proof.
  intros Hm Hcs Hfit r Hres.
  destruct (fs_mountdev_mounted fs_ops sb_open_keeps_s_op st l blockdev fstypeid mpath w Hm)
    as [(Hneg & _)|(_ & sb & Ha & Hm' & _)]; [fold r in Hneg; lia|fold r in Hm'].
  exists sb. revert Hres Hm'. unfold r, fs_mountdev. rewrite Ha.
  pose proof (sb_alloc_spec _ _ Ha) as [Hsb _].
  pose proof (sb_open_spec fs_ops sb_open_keeps_s_op st sb blockdev fstypeid w Hsb)
    as [Hag Hr].
  pose proof (sb_open_mountpath_length st sb blockdev fstypeid w Hsb) as Hmp.
  destruct (sb_open fs_ops st sb blockdev fstypeid w) as [[st1 w1] res].
  cbn [fst snd] in Hag, Hmp, Hr.
  destruct (res <? 0) eqn:E; [cbn; intros; lia|].
  destruct Hr as [Hr|[Hr _]]; [lia|]. specialize (Hmp Hr).
  unfold PATH_MAX in *.
  rewrite snprintf_percent_s; try assumption; try lia.
  cbn [fst snd]. intros _ Hm'.
  eexists. split; [reflexivity|]. split; [exact Hm'|].
  rewrite s_mountpath_vfs_mount_list_add.
  rewrite sb_at_set_sb by (destruct Hag as [-> _]; exact Hsb).
  rewrite decide_True by reflexivity. cbn. reflexivity.
Qed.

(** A mount captures every path under its mount path: after a successful
    [fs_mountdev] of [mpath], a path that starts with [mpath] is routed to
    the new superblock, whatever else is mounted, and the path handed to the
    driver is the rest of it, less one slash at its start. *)
Theorem mount_then_route st l blockdev fstypeid (mpath : list Z) (w : W) :
  mounted st l -> is_cstr mpath -> Z.of_nat (length mpath) < PATH_MAX ->
  let r := fs_mountdev fs_ops st blockdev fstypeid mpath w in
  r.2 = 0 ->
  exists sb,
    sb_alloc st = Some sb
    /\ forall rest, is_cstr rest -> mpath ++ rest <> [] ->
         route r.1.1 (mpath ++ rest)
           = Some (Some (sb, if deref rest =? 47 then drop 1 rest else rest)).
Proof.
  intros Hm Hcs Hfit r Hres.
  destruct (fs_mountdev_mountpath st l blockdev fstypeid mpath w Hm Hcs Hfit Hres)
    as (sb & tail & Ha & Hm' & Hmp).
  fold r in Hm', Hmp. exists sb. split; [exact Ha|].
  intros rest Hrest Hne. unfold route.
  assert (Hlen : Z.of_nat (length mpath) < 2 ^ 31) by (unfold PATH_MAX in Hfit; lia).
  assert (Hcov : covers r.1.1 (mpath ++ rest) sb = true).
  { unfold covers. apply bool_decide_eq_true. rewrite Hmp.
    rewrite strstr_buffer by assumption.
    apply strstr_at_start; try assumption.
    - apply is_cstr_app; assumption.
    - split; [exact Hne|]. apply prefix_app_r. reflexivity. }
  rewrite (find_mount_for_path_mounted _ _ _ Hm').
  rewrite rev_unit. cbn [find]. rewrite Hcov.
  rewrite Hmp, path_strip_prefix_buffer by assumption.
  rewrite path_strip_prefix_prefix; try assumption; [|apply is_cstr_app; assumption].
  rewrite bool_decide_true by (apply prefix_app_r; reflexivity).
  rewrite drop_app_length. f_equal. f_equal. f_equal.
  destruct (deref rest =? 47).
  - replace (Z.to_nat (Z.of_nat (length mpath) + 1)) with (length mpath + 1)%nat by lia.
    rewrite <- drop_drop, drop_app_length. reflexivity.
  - rewrite Z.add_0_r, Nat2Z.id, drop_app_length. reflexivity.
Qed.

(** Without a mount whose path is a prefix of the path, there is nothing
    to open: -ENOENT, with no driver called. *)
Theorem file_open_path_abs_no_mount st l (abspath : list Z) (w : W) :
  mounted st l ->
  (forall i, i ∈ l -> covers st abspath i = false) ->
  file_open_path_abs ops fs_ops st abspath w = Some (w, file_zero, - ENOENT).
Proof.
  intros Hm Hnone. unfold file_open_path_abs.
  rewrite (find_mount_for_path_mounted _ _ _ Hm).
  assert (Hf : find (covers st abspath) (rev l) = None).
  { assert (Hall : forall i, In i (rev l) -> covers st abspath i = false).
    { intros i Hi. apply Hnone. apply list_elem_of_In. apply in_rev. exact Hi. }
    induction (rev l) as [|i k IH]; [reflexivity|]. cbn [find].
    rewrite (Hall i) by (left; reflexivity). apply IH.
    intros j Hj. apply Hall. right. exact Hj. }
  rewrite Hf. reflexivity.
Qed.

(** An absolute path is opened the same from every working directory: the
    path itself is what is looked up. *)
Theorem file_open_path_absolute st (cwd path : list Z) (w : W) :
  is_cstr path -> deref path = 47 -> Z.of_nat (length path) < PATH_MAX ->
  file_open_path ops fs_ops st cwd path w
    = file_open_path_abs ops fs_ops st
        (path ++ replicate (Z.to_nat PATH_MAX - length path) 0) w.
Proof.
  intros Hp Habs Hfit. unfold file_open_path, Path.path_join. cbv zeta.
  change (Sprintf.chr "/") with 47.
  destruct (deref path =? 47) eqn:E; [|lia]. cbn [negb].
  unfold PATH_MAX in *.
  rewrite Z.add_0_l, BUFREM_lt by lia. rewrite Z.sub_0_r.
  rewrite snprintf_percent_s; try assumption; try lia;
    [|rewrite length_replicate; lia].
  change (Z.to_nat 0) with O. rewrite take_0. cbn [app Nat.add].
  f_equal. f_equal. rewrite drop_replicate.
  replace (Z.to_nat 128 - length path)%nat
    with (S (Z.to_nat 128 - (length path + 1)))%nat by lia.
  reflexivity.
Qed.

End RoutingProperties.

Lemma mounted_four_mounts : Mount.mounted Kernel.four_mounts.1 [0; 1; 2; 3]%nat.
Proof.
  split.
  - reflexivity.
  - apply NoDup_ListNoDup. repeat constructor; simpl; intuition lia.
  - repeat constructor.
  - repeat constructor; vm_compute; discriminate.
  - vm_compute. repeat split; reflexivity.
Qed.

Lemma fs_mountdev_full_witness :
  Mount.fs_mountdev Kernel.bare_fs_ops Kernel.four_mounts.1
    (Vfs.MAKEDEV Vfs.MAJ_RAMDISK 0) Vfs.FS_CPIO (CString.cstr "/usr") tt
  = (Kernel.four_mounts.1, tt, - Errno.ENOMEM).
Proof.
  apply (fs_mountdev_full Kernel.bare_fs_ops _ [0; 1; 2; 3]%nat).
  - exact mounted_four_mounts.
  - reflexivity.
Defined.

Lemma mount_then_route_witness :
  let st := Kernel.bin_then_root.1.1 in
  let r := Mount.fs_mountdev Kernel.bare_fs_ops st (Vfs.MAKEDEV Vfs.MAJ_RAMDISK 0)
             Vfs.FS_CPIO (CString.cstr "/usr") tt in
  exists sb,
    Mount.sb_alloc st = Some sb
    /\ forall rest, CString.is_cstr rest -> CString.cstr "/usr" ++ rest <> [] ->
         Mount.route r.1.1 (CString.cstr "/usr" ++ rest)
           = Some (Some (sb, if CString.deref rest =? 47 then drop 1 rest else rest)).
Proof.
  apply (mount_then_route Kernel.bare_fs_ops) with (l := [0; 1]%nat).
  - intros d hook sb w H. vm_compute in H. discriminate.
  - exact mounted_bin_then_root.
  - is_cstr_literal.
  - vm_compute. reflexivity.
  - vm_compute. reflexivity.
Defined.

Lemma file_open_path_abs_no_mount_witness :
  Mount.file_open_path_abs Kernel.bare_file_ops Kernel.bare_fs_ops
    Kernel.bin_then_root.1.1 (CString.cstr "etc") tt
  = Some (tt, Vfs.file_zero, - Errno.ENOENT).
Proof.
  apply (file_open_path_abs_no_mount _ _ _ [0; 1]%nat).
  - exact mounted_bin_then_root.
  - intros i Hi.
    apply elem_of_cons in Hi as [->|Hi]; [vm_compute; reflexivity|].
    apply elem_of_cons in Hi as [->|Hi]; [vm_compute; reflexivity|].
    inversion Hi.
Defined.

Lemma file_open_path_absolute_witness :
  Mount.file_open_path Kernel.bare_file_ops Kernel.bare_fs_ops
    Kernel.bin_then_root.1.1 (CString.cstr "/home") (CString.cstr "/bin/ls") tt
  = Mount.file_open_path_abs Kernel.bare_file_ops Kernel.bare_fs_ops
      Kernel.bin_then_root.1.1
      (CString.cstr "/bin/ls"
       ++ replicate (Z.to_nat Vfs.PATH_MAX - length (CString.cstr "/bin/ls")) 0) tt.
Proof.
  apply file_open_path_absolute.
  - is_cstr_literal.
  - reflexivity.
  - vm_compute. reflexivity.
Defined.

(* ================================================================== *)
(** * Properties: the serial driver                                    *)
(* ================================================================== *)

Section SerialProperties.
Import Cint Errno Vfs Serial.
Context {fops fsops : Type}.

Lemma com1_with_id (hw : uarts) : com1_with hw (rx (com1 hw)) (tx (com1 hw)) = hw.
Proof. destruct hw as [[r t m] c2]. reflexivity. Qed.

Lemma serial_readch_com1 (s : serial) (hw : uarts) :
  port s = 1016 ->
  serial_readch s hw =
    match rx (com1 hw) with
    | [] => (- EAGAIN, hw)
    | b :: rest => (wrap_u8 b, com1_with hw rest (tx (com1 hw)))
    end.
Proof.
  intros Hp. unfold serial_readch, check_linestat, inb. rewrite Hp.
  change (Z.land (1016 + POFF_LINESTAT) 7) with 5.
  change (1016 + POFF_LINESTAT - 5) with 1016.
  change (uart_at hw 1016) with (Some (com1 hw)). cbv iota.
  change (5 =? POFF_LINESTAT) with true. cbv iota. cbn [fst].
  destruct (rx (com1 hw)) as [|b rest] eqn:Hrx.
  - reflexivity.
  - change (Z.land (Z.lor LS_THRE LS_DR) LS_DR =? 0) with false. cbv iota.
    change (Z.land 1016 7) with 0. change (1016 - 0) with 1016.
    change (uart_at hw 1016) with (Some (com1 hw)). cbv iota.
    change (0 =? POFF_LINESTAT) with false. change (0 =? POFF_DATA) with true.
    cbv iota. rewrite Hrx. reflexivity.
Qed.

Lemma serial_writech_com1 (s : serial) (ch : Z) (hw : uarts) :
  port s = 1016 -> Z.land (modemctl (com1 hw)) MC_LOOP = 0 ->
  serial_writech s ch hw =
    (ch, com1_with hw (rx (com1 hw)) (wrap_u8 ch :: tx (com1 hw))).
Proof.
  intros Hp Hl. unfold serial_writech, outb. rewrite Hp.
  change (Z.land 1016 7) with 0. change (1016 - 0) with 1016.
  change (uart_at hw 1016) with (Some (com1 hw)). cbv iota.
  change (0 =? POFF_DATA) with true. cbv iota. rewrite Hl. reflexivity.
Qed.


(** What [serial_read] stores for a byte that arrived. *)
Lemma serial_read_loop_spec (s : serial) (count : Z) (fuel : nat) :
  port s = 1016 ->
  forall (data dst : list Z) (n : Z) (hw : uarts),
  rx (com1 hw) = data -> 0 <= n ->
  let stored := map (fun b => wrap_u8 (ifilter s (wrap_s8 (wrap_u8 b)))) in
  serial_read_loop fuel s count n dst hw =
    if (fuel <=? length data)%nat
    then (com1_with hw (drop fuel data) (tx (com1 hw)),
          dst ++ stored (take fuel data), wrap_s32 count)
    else if (n =? 0) && bool_decide (data = []) then (hw, dst, - EAGAIN)
    else (com1_with hw [] (tx (com1 hw)), dst ++ stored data,
          wrap_s32 (n + Z.of_nat (length data))).
Proof.
  intros Hp. induction fuel as [|fuel IH]; intros data dst n hw Hrx Hn stored.
  - cbn [serial_read_loop Nat.leb drop take]. unfold stored. cbn [map].
    rewrite app_nil_r, <- Hrx, com1_with_id. reflexivity.
  - cbn [serial_read_loop]. rewrite (serial_readch_com1 s hw Hp), Hrx.
    destruct data as [|b data].
    + cbn [Nat.leb length]. change (- EAGAIN =? - EAGAIN) with true. cbn [andb].
      rewrite bool_decide_true by reflexivity. rewrite andb_true_r.
      destruct (n =? 0) eqn:En; cbn [negb].
      * reflexivity.
      * unfold stored. cbn [map length]. rewrite app_nil_r, Z.add_0_r.
        rewrite <- Hrx, com1_with_id. reflexivity.
    + assert (Hb : 0 <= wrap_u8 b < 256) by (unfold wrap_u8; apply Z.mod_pos_bound; lia).
      destruct (wrap_u8 b =? - EAGAIN) eqn:E1; [unfold EAGAIN in E1; lia|].
      cbn [andb]. destruct (wrap_u8 b <? 0) eqn:E2; [lia|].
      rewrite (IH data) by (try reflexivity; lia).
      cbn [com1_with com1 tx modemctl com2 length Nat.leb drop take].
      rewrite (bool_decide_false (b :: data = [])) by (intro; discriminate).
      rewrite andb_false_r.
      destruct (fuel <=? length data)%nat eqn:Ef.
      * unfold stored. cbn [map]. rewrite <- app_assoc. reflexivity.
      * destruct ((n + 1 =? 0) && bool_decide (data = [])) eqn:E3.
        { apply andb_true_iff in E3 as [E3 _]. lia. }
        unfold stored. cbn [map]. rewrite <- app_assoc. cbn [app].
        replace (n + 1 + Z.of_nat (length data)) with (n + Z.of_nat (S (length data)))
          by lia.
        reflexivity.
Qed.

(** [serial_read] on COM1: it returns the bytes that have arrived, as many
    as asked for, CR turned into NL when SRL_ICRNL is set, and leaves the
    rest waiting; with nothing waiting it returns -EAGAIN, and 0 for a count
    of 0. *)
Theorem serial_read_spec (f : file fops) (count off : Z) (w : serial_state) :
  port (serial_of f w) = 1016 ->
  0 <= count < 2 ^ 31 ->
  let s := serial_of f w in
  let data := rx (com1 (hardware w)) in
  let n := Z.to_nat (Z.min count (Z.of_nat (length data))) in
  serial_read f count off w =
    if (0 <? count) && bool_decide (data = [])
    then (w, [], off, - EAGAIN)
    else (mk_serial_state (serials w)
            (com1_with (hardware w) (drop n data) (tx (com1 (hardware w)))),
          map (fun b => wrap_u8 (ifilter s (wrap_s8 (wrap_u8 b)))) (take n data),
          off, Z.of_nat n).
Proof.
  intros Hp Hcount s data n. unfold serial_read. fold s.
  rewrite (serial_read_loop_spec s count (Z.to_nat count) Hp data [] 0 (hardware w))
    by (reflexivity || lia).
  cbn [app]. rewrite Z.add_0_l. change (0 =? 0) with true. cbn [andb].
  destruct (Z.to_nat count <=? length data)%nat eqn:Ef.
  - apply Nat.leb_le in Ef.
    assert (Hn : n = Z.to_nat count) by (unfold n; lia).
    destruct ((0 <? count) && bool_decide (data = [])) eqn:E.
    { apply andb_true_iff in E as [E1 E2]. apply bool_decide_eq_true in E2.
      rewrite E2 in Ef. simpl in Ef. lia. }
    rewrite Hn. rewrite wrap_s32_id by (unfold in_s32; lia).
    rewrite Z2Nat.id by lia. reflexivity.
  - apply Nat.leb_gt in Ef.
    assert (Hn : n = length data) by (unfold n; lia).
    assert (Hc : (0 <? count) = true) by (apply Z.ltb_lt; lia).
    rewrite Hc. cbn [andb].
    destruct (bool_decide (data = [])) eqn:Ed.
    + destruct w. reflexivity.
    + rewrite Hn, drop_all, firstn_all.
      rewrite wrap_s32_id by (unfold in_s32; lia). reflexivity.
Qed.

Lemma serial_write_out_clean (s : serial) (out : list Z) (hw : uarts) :
  port s = 1016 -> Z.land (modemctl (com1 hw)) MC_LOOP = 0 ->
  Forall (fun c => 0 <= c) out ->
  serial_write_out s out hw =
    (None, com1_with hw (rx (com1 hw)) (rev (map wrap_u8 out) ++ tx (com1 hw))).
Proof.
  intros Hp. revert hw. induction out as [|c out IH]; intros hw Hl Hout.
  - cbn. rewrite com1_with_id. reflexivity.
  - apply Forall_cons in Hout as [Hc Hout]. cbn [serial_write_out].
    rewrite serial_writech_com1 by assumption.
    destruct (c <? 0) eqn:E; [lia|].
    rewrite IH by (try assumption; exact Hl).
    cbn [com1_with com1 rx tx modemctl com2 map rev].
    rewrite <- app_assoc. reflexivity.
Qed.

Lemma ofilter_clean (s : serial) (b : Z) :
  0 <= b < 128 ->
  Forall (fun c => 0 <= c) (ofilter s (wrap_s8 b))
  /\ map wrap_u8 (ofilter s (wrap_s8 b)) = ofilter s (wrap_s8 b).
Proof.
  intros Hb. rewrite wrap_s8_id by lia. unfold ofilter.
  destruct (negb (Z.land (flags s) SRL_OCRNL =? 0) && (b =? 10)) eqn:E.
  - apply andb_true_iff in E as [_ E]. apply Z.eqb_eq in E. subst b.
    split; [repeat constructor; lia|reflexivity].
  - split; [repeat constructor; lia|]. cbn. unfold wrap_u8.
    rewrite Z.mod_small by lia. reflexivity.
Qed.

Lemma ofilter_flags (s : serial) (c : Z) :
  ofilter (mk_serial 0 (flags s)) c = ofilter s c.
Proof. reflexivity. Qed.

Lemma serial_write_loop_spec (s : serial) (count : Z) (clean : list Z) :
  port s = 1016 ->
  Forall (fun b => 0 <= b < 128) clean ->
  forall (tail : list Z) (hw : uarts),
  Z.land (modemctl (com1 hw)) MC_LOOP = 0 ->
  match tail with [] => True | b :: _ => 128 <= b < 256 end ->
  serial_write_loop (length (clean ++ tail)) s (clean ++ tail) count hw =
    match tail with
    | [] =>
        (com1_with hw (rx (com1 hw)) (rev (wire (flags s) clean) ++ tx (com1 hw)),
         wrap_s32 count)
    | b :: _ =>
        (com1_with hw (rx (com1 hw)) (b :: rev (wire (flags s) clean) ++ tx (com1 hw)),
         b - 256)
    end.
Proof.
  intros Hp Hclean. induction Hclean as [|b clean Hb Hclean IH]; intros tail hw Hl Htail.
  - cbn [app wire flat_map rev]. destruct tail as [|b tail].
    + cbn. rewrite com1_with_id. reflexivity.
    + cbn [length serial_write_loop hd].
      assert (Hs8 : wrap_s8 b = b - 256).
      { unfold wrap_s8. replace (b + 2 ^ 7) with (b - 128 + 1 * 2 ^ 8) by lia.
        rewrite Z.mod_add by lia. rewrite Z.mod_small by lia. lia. }
      assert (Hof : ofilter s (wrap_s8 b) = [b - 256]).
      { rewrite Hs8. unfold ofilter.
        destruct (b - 256 =? 10) eqn:E; [lia|]. rewrite andb_false_r. reflexivity. }
      rewrite Hof. cbn [serial_write_out]. rewrite serial_writech_com1 by assumption.
      destruct (b - 256 <? 0) eqn:E; [|lia].
      repeat f_equal. unfold wrap_u8.
      replace (b - 256) with (b + (-1) * 2 ^ 8) by lia.
      rewrite Z.mod_add by lia. apply Z.mod_small. lia.
  - cbn [app length serial_write_loop hd tl].
    destruct (ofilter_clean s b Hb) as [Hpos Hmap].
    rewrite serial_write_out_clean by assumption. rewrite Hmap.
    rewrite IH; [|exact Hl|exact Htail].
    cbn [com1_with com1 rx tx modemctl com2 wire flat_map].
    rewrite ofilter_flags, rev_app_distr, <- !app_assoc.
    destruct tail; reflexivity.
Qed.

(** [serial_write] on COM1 puts every byte below 0x80 on the line, NL as
    CR NL when SRL_OCRNL is set, and returns the count.  At the first byte
    from 0x80 on it stops: [serial_writech] returns the [char] it has sent,
    which is negative, and [serial_write] returns that as its error after the
    byte has gone out. *)
Theorem serial_write_spec (f : file fops) (clean tail : list Z) (off : Z)
    (w : serial_state) :
  port (serial_of f w) = 1016 ->
  Z.land (modemctl (com1 (hardware w))) MC_LOOP = 0 ->
  Forall (fun b => 0 <= b < 128) clean ->
  match tail with [] => True | b :: _ => 128 <= b < 256 end ->
  Z.of_nat (length (clean ++ tail)) < 2 ^ 31 ->
  let r := serial_write f (clean ++ tail) (Z.of_nat (length (clean ++ tail))) off w in
  let line := sent (com1 (hardware r.1.1)) in
  rx (com1 (hardware r.1.1)) = rx (com1 (hardware w))
  /\ match tail with
     | [] =>
         line = sent (com1 (hardware w)) ++ wire (flags (serial_of f w)) clean
         /\ r.2 = Z.of_nat (length clean)
     | b :: _ =>
         line = sent (com1 (hardware w)) ++ wire (flags (serial_of f w)) clean ++ [b]
         /\ r.2 = b - 256
     end.
Proof.
  intros Hp Hl Hclean Htail Hlen r line. unfold line, r, serial_write.
  rewrite Nat2Z.id.
  rewrite (serial_write_loop_spec _ _ clean Hp Hclean tail (hardware w) Hl Htail).
  unfold sent. destruct tail as [|b tail].
  - cbn [fst snd hardware com1_with com1 rx tx]. split; [reflexivity|].
    rewrite rev_app_distr, rev_involutive. split; [reflexivity|].
    rewrite app_nil_r in *. apply wrap_s32_id. unfold in_s32. lia.
  - cbn [fst snd hardware com1_with com1 rx tx]. split; [reflexivity|].
    split; [|reflexivity].
    cbn [rev]. rewrite rev_app_distr, rev_involutive, <- app_assoc. reflexivity.
Qed.

Lemma serial_open_dev_initialised (f : file fops) (min : Z) (s : serial)
    (w : serial_state) :
  1 <= min <= 2 ->
  serials w !! Z.to_nat (min - 1) = Some s -> port s <> 0 ->
  serial_open_dev f min w = (w, set_f_driver_data f (Some (Z.to_nat (min - 1))), 0).
Proof.
  intros Hmin Hs Hport. unfold serial_open_dev.
  change (Z.of_nat (length PORT_NOS)) with 2.
  destruct ((min <? 1) || (2 <? min)) eqn:Erange.
  { apply orb_true_iff in Erange as [E|E]; lia. }
  rewrite Hs. change (default (mk_serial 0 0) (Some s)) with s.
  destruct (port s =? 0) eqn:E; [lia|]. reflexivity.
Qed.

Lemma serial_open_dev_eio (f : file fops) (min : Z) (w : serial_state) :
  length (serials w) = length PORT_NOS ->
  (serial_open_dev f min w).2 = - EIO ->
  1 <= min <= 2
  /\ exists s,
       serials (serial_open_dev f min w).1.1 !! Z.to_nat (min - 1) = Some s
       /\ port s <> 0.
Proof.
  intros Hlen. unfold serial_open_dev.
  change (Z.of_nat (length PORT_NOS)) with 2.
  destruct ((min <? 1) || (2 <? min)) eqn:Erange.
  { cbn [snd]. unfold EIO, ENODEV. intros H. lia. }
  apply orb_false_iff in Erange as [E1 E2].
  set (idx := Z.to_nat (min - 1)).
  assert (Hidx : (idx < 2)%nat) by (unfold idx; lia).
  assert (Hlt : (idx < length (serials w))%nat) by (rewrite Hlen; exact Hidx).
  destruct (negb (port (default (mk_serial 0 0) (serials w !! idx)) =? 0)) eqn:Eport.
  { cbn [snd]. unfold EIO. intros H. lia. }
  set (s1 := mk_serial _ _).
  assert (Hport : port s1 <> 0).
  { unfold s1. cbn [port]. destruct idx as [|[|idx]]; cbn; lia. }
  destruct (inb (port s1) _) as [got hw].
  destruct (negb (got =? 10)) eqn:Egot; cbn [fst snd].
  - intros _. split; [lia|]. exists s1. split; [|exact Hport].
    cbn [serials]. apply list_lookup_insert_eq. exact Hlt.
  - unfold EIO. intros H. lia.
Qed.

(** [serial_open_dev] stores the port base before it tests the port.  When
    the test fails with -EIO the unit is left marked as initialised: the next
    open of the same minor returns 0 without a test and changes nothing.  A
    minor other than 1 and 2 is refused with -ENODEV. *)
Theorem serial_open_dev_after_failure (f f' : file fops) (min : Z)
    (w : serial_state) :
  length (serials w) = length PORT_NOS ->
  let r := serial_open_dev f min w in
  (r.2 = - EIO ->
   serial_open_dev f' min r.1.1
     = (r.1.1, set_f_driver_data f' (Some (Z.to_nat (min - 1))), 0))
  /\ (min < 1 \/ 2 < min -> r = (w, f, - ENODEV)).
Proof.
  intros Hlen r. split.
  - intros Hr. destruct (serial_open_dev_eio f min w Hlen Hr) as (Hmin & s & Hs & Hp).
    apply (serial_open_dev_initialised f' min s); assumption.
  - intros Hmin. unfold r, serial_open_dev.
    change (Z.of_nat (length PORT_NOS)) with 2.
    destruct ((min <? 1) || (2 <? min)) eqn:Erange; [reflexivity|].
    apply orb_false_iff in Erange as [E1 E2]. lia.
Qed.

End SerialProperties.

Lemma serial_read_spec_witness :
  let f := Kernel.com1_file in
  let w := Kernel.com1_open Serial.SRL_ICRNL [104; 105; 13; 120] [] in
  let s := Serial.serial_of f w in
  let data := Serial.rx (Serial.com1 (Serial.hardware w)) in
  let n := Z.to_nat (Z.min 3 (Z.of_nat (length data))) in
  Serial.serial_read f 3 0 w =
    if (0 <? 3) && bool_decide (data = [])
    then (w, [], 0, - Errno.EAGAIN)
    else (Serial.mk_serial_state (Serial.serials w)
            (Serial.com1_with (Serial.hardware w) (drop n data)
               (Serial.tx (Serial.com1 (Serial.hardware w)))),
          map (fun b => Cint.wrap_u8 (Serial.ifilter s (Cint.wrap_s8 (Cint.wrap_u8 b))))
            (take n data),
          0, Z.of_nat n).
Proof.
  apply (serial_read_spec Kernel.com1_file 3 0
           (Kernel.com1_open Serial.SRL_ICRNL [104; 105; 13; 120] [])).
  - reflexivity.
  - lia.
Defined.

Lemma serial_write_spec_witness :
  let f := Kernel.com1_file in
  let w := Kernel.com1_open Serial.SRL_OCRNL [] [] in
  let clean := [104; 105; 10] in
  let tail := [233; 33] in
  let r := Serial.serial_write f (clean ++ tail) (Z.of_nat (length (clean ++ tail))) 0 w in
  let line := Serial.sent (Serial.com1 (Serial.hardware r.1.1)) in
  Serial.rx (Serial.com1 (Serial.hardware r.1.1)) = Serial.rx (Serial.com1 (Serial.hardware w))
  /\ (line = Serial.sent (Serial.com1 (Serial.hardware w))
              ++ Serial.wire (Serial.flags (Serial.serial_of f w)) clean ++ [233]
      /\ r.2 = 233 - 256).
Proof.
  apply (serial_write_spec Kernel.com1_file [104; 105; 10] [233; 33] 0
           (Kernel.com1_open Serial.SRL_OCRNL [] [])).
  - reflexivity.
  - reflexivity.
  - repeat constructor; lia.
  - lia.
  - vm_compute. reflexivity.
Defined.

Lemma serial_open_dev_after_failure_witness :
  let w := Serial.mk_serial_state Serial.serials_init
             (Serial.mk_uarts (Serial.mk_uart [7] [] 0) Serial.uart_init) in
  let r := Serial.serial_open_dev (@Vfs.file_zero unit) 1 w in
  (r.2 = - Errno.EIO ->
   Serial.serial_open_dev (@Vfs.file_zero unit) 1 r.1.1
     = (r.1.1, Vfs.set_f_driver_data Vfs.file_zero (Some (Z.to_nat (1 - 1))), 0))
  /\ (1 < 1 \/ 2 < 1 -> r = (w, Vfs.file_zero, - Errno.ENODEV)).
Proof.
  apply (serial_open_dev_after_failure (@Vfs.file_zero unit) (@Vfs.file_zero unit) 1).
  reflexivity.
Defined.

(** With a byte other than the test byte waiting on COM1, the first open
    fails with -EIO and the second succeeds. *)
Example serial_open_dev_fails_then_succeeds :
  let w := Serial.mk_serial_state Serial.serials_init
             (Serial.mk_uarts (Serial.mk_uart [7] [] 0) Serial.uart_init) in
  let r := Serial.serial_open_dev (@Vfs.file_zero unit) 1 w in
  r.2 = - Errno.EIO
  /\ (Serial.serial_open_dev (@Vfs.file_zero unit) 1 r.1.1).2 = 0.
Proof. vm_compute. split; reflexivity. Qed.

(* ================================================================== *)
(** * Properties: the TTY line buffer                                  *)
(* ================================================================== *)

Section TtyBufferProperties.
Import Cint Errno CString Vfs Tty.
Context {LW LP LS : Type}.
Variable lops : LP -> file_operations LW LP LS.
Implicit Types (t : tty (LP := LP)) (lw : LW).

Lemma same_line_set_portdev t pd : same_line t (set_portdev t pd).
Proof. repeat split. Qed.

Lemma same_line_refl t : same_line t t.
Proof. repeat split. Qed.

Lemma same_line_trans t1 t2 t3 : same_line t1 t2 -> same_line t2 t3 -> same_line t1 t3.
Proof.
  intros (A1 & A2 & A3 & A4 & A5 & A6) (B1 & B2 & B3 & B4 & B5 & B6).
  repeat split; congruence.
Qed.

Lemma port_write_same_line t src count lw :
  same_line t (port_write lops t src count lw).1.
Proof.
  unfold port_write. destruct (file_write lops (portdev t) src count lw) as [[lw' pd] r].
  apply same_line_set_portdev.
Qed.

Lemma echoc_same_line t ch lw : same_line t (echoc lops t ch lw).1.
Proof.
  unfold echoc.
  repeat (match goal with
          | |- context [if ?b then _ else _] => destruct b
          end; try apply port_write_same_line; try apply same_line_refl).
  destruct (file_printf lops (portdev t) _ _ lw) as [[[lw' pd] r]|];
    [apply same_line_set_portdev|apply same_line_refl].
Qed.

Lemma echos_same_line t str lw : same_line t (echos lops t str lw).1.
Proof.
  unfold echos. destruct (negb _); [apply port_write_same_line|apply same_line_refl].
Qed.


Lemma line_ok_same_line t t' : same_line t t' -> line_ok t -> line_ok t'.
Proof. intros (_ & _ & _ & _ & Hi & Hb) [H1 H2]. unfold line_ok. rewrite Hi, Hb. auto. Qed.

Lemma add_to_inbuf_line_ok t ch lw :
  line_ok t -> line_ok (add_to_inbuf lops t ch lw).1.1.
Proof.
  intros [Hi Hb]. unfold add_to_inbuf.
  destruct (ilen t =? IBUFSZ) eqn:E; [split; assumption|].
  set (t1 := set_ilen _ _).
  pose proof (echoc_same_line t1 ch lw) as Hs.
  destruct (echoc lops t1 ch lw) as [t2 lw2]. cbn [fst] in *.
  apply (line_ok_same_line t1 t2 Hs). unfold t1, line_ok. cbn [ilen ibuf set_ilen set_ibuf].
  rewrite length_insert. split; [lia|exact Hb].
Qed.

Lemma backspace_line_ok t lw : line_ok t -> line_ok (backspace lops t lw).1.
Proof.
  intros [Hi Hb]. unfold backspace.
  destruct (ilen t =? 0) eqn:E; [split; assumption|].
  set (t1 := set_ilen _ _).
  apply (line_ok_same_line t1 _ (echos_same_line t1 _ lw)).
  unfold t1, line_ok. cbn [ilen ibuf set_ilen]. split; [lia|exact Hb].
Qed.

Lemma clearline_loop_line_ok (n : nat) t lw :
  line_ok t -> line_ok (clearline_loop lops n t lw).1.
Proof.
  revert t lw. induction n as [|n IH]; intros t lw Hok; [exact Hok|].
  cbn [clearline_loop]. pose proof (backspace_line_ok t lw Hok) as H1.
  destruct (backspace lops t lw) as [t1 lw1]. apply IH. exact H1.
Qed.

Lemma on_eof_line_ok t lw : line_ok t -> line_ok (on_eof t lw).1.
Proof.
  intros Hok. unfold on_eof. cbn [ilen set_ibuf_eol].
  destruct (ilen t =? 0); exact Hok.
Qed.

Lemma tty_inchar_line_ok t ch lw :
  line_ok t -> line_ok (tty_inchar lops t ch lw).1.1.
Proof.
  intros Hok. unfold tty_inchar.
  destruct (negb (ISCOOKED t)); [apply add_to_inbuf_line_ok; exact Hok|].
  destruct (ibuf_eol t); [exact Hok|].
  unfold SPECIALCHARS. cbn [tty_inchar_loop sc_ch sc_flags special_echo onrecv].
  change (negb (Z.land SP_NONE SP_ENDLINE =? 0)) with false.
  change (negb (Z.land SP_NONE SP_ISINPUT =? 0)) with false.
  change (negb (Z.land SP_ENDLINE SP_ENDLINE =? 0)) with true.
  change (negb (Z.land SP_ENDLINE SP_ISINPUT =? 0)) with false.
  change (negb (Z.land (Z.lor SP_ENDLINE SP_ISINPUT) SP_ENDLINE =? 0)) with true.
  change (negb (Z.land (Z.lor SP_ENDLINE SP_ISINPUT) SP_ISINPUT =? 0)) with true.
  cbv iota.
  repeat (match goal with
          | |- context [if negb (ch =? ?c) then _ else _] => destruct (negb (ch =? c))
          end); try (apply add_to_inbuf_line_ok; exact Hok).
  - unfold clearline.
    pose proof (clearline_loop_line_ok (Z.to_nat (wrap_s32 (ilen t))) t lw Hok) as H1.
    destruct (clearline_loop lops _ t lw). exact H1.
  - pose proof (backspace_line_ok t lw Hok) as H1.
    destruct (backspace lops t lw). exact H1.
  - pose proof (backspace_line_ok t lw Hok) as H1.
    destruct (backspace lops t lw). exact H1.
  - set (t0 := set_ibuf_eol t true).
    assert (H0 : line_ok t0) by exact Hok.
    pose proof (echos_same_line t0 [94; 68; 10] lw) as Hs.
    destruct (echos lops t0 [94; 68; 10] lw) as [t1 lw1]. cbn [fst] in Hs.
    pose proof (on_eof_line_ok t1 lw1 (line_ok_same_line _ _ Hs H0)) as H2.
    destruct (on_eof t1 lw1) as [t2 lw2]. exact H2.
Qed.

Lemma tty_read_loop_line_ok (fuel : nat) t lw (portres : Z) r :
  line_ok t ->
  tty_read_loop lops fuel t lw portres = Some r ->
  line_ok r.1.1.1 /\ (forall res, r.2 = Some res -> res < 0).
Proof.
  revert t lw portres. induction fuel as [|fuel IH]; intros t lw portres Hok;
    [discriminate|].
  cbn [tty_read_loop].
  destruct ((ilen t <? IBUFSZ) && negb (ibuf_eol t));
    [|intros [= <-]; split; [exact Hok|discriminate]].
  destruct (file_read lops (portdev t) 1 lw) as [[[lw1 pd] dst] res].
  destruct (wrap_s32 res <=? 0); [intros [= <-]; split; [exact Hok|discriminate]|].
  pose proof (tty_inchar_line_ok (set_portdev t pd) (wrap_s8 (hd 0 dst)) lw1 Hok) as H1.
  destruct (tty_inchar lops (set_portdev t pd) (wrap_s8 (hd 0 dst)) lw1) as [[t1 lw2] res1].
  cbn [fst] in H1.
  destruct (res1 <? 0) eqn:E.
  - intros [= <-]. split; [exact H1|]. intros res0 [= <-]. lia.
  - apply IH. exact H1.
Qed.

(** The line buffer stays in order: whatever the port delivers, [tty_inchar]
    and [tty_read] leave [ilen] between 0 and IBUFSZ, so no character is
    stored outside [ibuf]; and a [tty_read] that succeeds returns as many
    bytes as it says, never more than were asked for. *)
Theorem tty_line_buffer_bounded (fuel : nat) t (ch count : Z) lw :
  line_ok t -> 0 <= count < 2 ^ 31 ->
  line_ok (tty_inchar lops t ch lw).1.1
  /\ match tty_read_tty lops fuel t count lw with
     | Some (t', _, dst, res) =>
         line_ok t'
         /\ (0 <= res -> Z.of_nat (length dst) = res /\ res <= count)
     | None => True
     end.
Proof.
  intros Hok Hcount. split; [apply tty_inchar_line_ok; exact Hok|].
  unfold tty_read_tty.
  destruct (tty_read_loop lops fuel t lw (- EAGAIN)) as [[[[t1 lw1] portres] early]|] eqn:El;
    [|exact I].
  pose proof (tty_read_loop_line_ok _ _ _ _ _ Hok El) as [H1 Hneg].
  cbn [fst snd] in H1, Hneg.
  destruct early as [res|].
  { split; [exact H1|]. specialize (Hneg res eq_refl). intros; lia. }
  destruct H1 as [Hi Hb].
  destruct (ilen t1 =? 0) eqn:E0.
  { destruct (portres =? 0); [cbn; split; [split; assumption|intros; lia]|].
    destruct (ISCOOKED t1 && ibuf_eof t1); cbn [length];
      (split; [split; assumption|unfold EAGAIN; intros; lia]). }
  destruct (ISCOOKED t1 && negb (ibuf_eol t1)).
  { cbn [length]. split; [split; assumption|unfold EAGAIN; intros; lia]. }
  unfold IBUFSZ in *.
  assert (Hret : 0 <= MIN (ilen t1) count <= ilen t1 /\ MIN (ilen t1) count <= count).
  { unfold MIN. destruct (ilen t1 <=? count) eqn:E; lia. }
  set (retct := MIN (ilen t1) count) in *.
  split.
  - set (t2 := set_ilen _ _).
    assert (H2 : line_ok t2).
    { unfold t2, line_ok. cbn [ilen ibuf set_ilen set_ibuf]. unfold IBUFSZ.
      split; [lia|]. rewrite length_app, length_take, !length_drop. lia. }
    destruct (ilen t2 =? 0); exact H2.
  - intros _. rewrite wrap_s32_id by (unfold in_s32; lia).
    rewrite length_map, length_take. lia.
Qed.

End TtyBufferProperties.

Lemma tty_line_buffer_bounded_witness :
  let t := Kernel.tty_on_com1 (Z.lor Tty.TTY_ECHO Tty.TTY_COOKED)
             (replicate 256 0) in
  let lw := Kernel.com1_open 0 [104; 105; 10; 120] [] in
  Tty.line_ok t /\ 0 <= 10 < 2 ^ 31
  /\ Tty.line_ok (Tty.tty_inchar Kernel.port_ops t 97 lw).1.1
  /\ match Tty.tty_read_tty Kernel.port_ops 5 t 10 lw with
     | Some (t', _, dst, res) =>
         Tty.line_ok t'
         /\ (0 <= res -> Z.of_nat (length dst) = res /\ res <= 10)
     | None => True
     end.
Proof.
  assert (H : Tty.line_ok
                (Kernel.tty_on_com1 (Z.lor Tty.TTY_ECHO Tty.TTY_COOKED)
                   (replicate 256 0))).
  { split; [cbn; unfold Tty.IBUFSZ; lia|reflexivity]. }
  assert (H10 : 0 <= 10 < 2 ^ 31) by lia.
  split; [exact H|]. split; [exact H10|].
  exact (tty_line_buffer_bounded Kernel.port_ops 5 _ 97 10
           (Kernel.com1_open 0 [104; 105; 10; 120] []) H H10).
Defined.

Example tty_read_line_on_com1 :
  let t := Kernel.tty_on_com1 (Z.lor Tty.TTY_ECHO Tty.TTY_COOKED)
             (replicate 256 0) in
  let lw := Kernel.com1_open 0 [104; 105; 10; 120] [] in
  match Tty.tty_read_tty Kernel.port_ops 5 t 10 lw with
  | Some (t', lw', dst, res) =>
      dst = [104; 105; 10] /\ res = 3 /\ Tty.ilen t' = 0
      /\ Serial.rx (Serial.com1 (Serial.hardware lw')) = [120]
  | None => False
  end.
Proof. vm_compute. repeat split. Qed.

(* ================================================================== *)
(** * Properties: reading lines from a TTY                             *)
(* ================================================================== *)

Section TtyPiecesProperties.
Import Cint Errno CString Vfs Tty.
Context {LW LP LS : Type}.
Variable lops : LP -> file_operations LW LP LS.
Implicit Types (t : tty (LP := LP)) (lw : LW).

(** [tty_read] on a TTY whose line is complete: the port is left alone and
    the first [count] characters of the line are handed out. *)
Lemma tty_read_complete (fuel : nat) t (count : Z) lw :
  line_ok t -> ibuf_eol t = true -> 0 < ilen t -> 0 <= count < 2 ^ 31 ->
  let n := Z.min (ilen t) count in
  exists t',
    tty_read_tty lops (S fuel) t count lw
      = Some (t', lw, map wrap_u8 (take (Z.to_nat n) (ibuf t)), n)
    /\ line_ok t' /\ portdev t' = portdev t /\ flags t' = flags t
    /\ ibuf_eof t' = ibuf_eof t
    /\ ilen t' = ilen t - n
    /\ ibuf_eol t' = negb (ilen t - n =? 0)
    /\ take (Z.to_nat (ilen t - n)) (ibuf t')
       = take (Z.to_nat (ilen t - n)) (drop (Z.to_nat n) (ibuf t)).
Proof.
  intros [Hi Hb] Heol Hlen Hcount n. unfold IBUFSZ in *.
  unfold tty_read_tty. cbn [tty_read_loop]. rewrite Heol, andb_false_r.
  destruct (ilen t =? 0) eqn:E0; [apply Z.eqb_eq in E0; lia|].
  rewrite Heol, andb_false_r.
  assert (Hmin : MIN (ilen t) count = n).
  { unfold MIN, n. destruct (ilen t <=? count) eqn:E;
      [apply Z.leb_le in E|apply Z.leb_gt in E]; lia. }
  rewrite Hmin. assert (Hn : 0 <= n <= ilen t) by (unfold n; lia).
  rewrite wrap_s32_id by (unfold in_s32; lia).
  eexists. split; [reflexivity|].
  cbn [ilen ibuf set_ilen set_ibuf].
  destruct (ilen t - n =? 0) eqn:E1; cbn [negb ilen ibuf ibuf_eol portdev flags ibuf_eof
    set_ibuf_eol set_ilen set_ibuf];
    (split; [split; cbn [ilen ibuf set_ibuf_eol set_ilen set_ibuf]; unfold IBUFSZ;
             [lia|rewrite length_app, length_take, !length_drop; lia]|]);
    repeat (split; [reflexivity|]); try (split; [exact Heol|]);
    rewrite take_app_le by (rewrite length_take, length_drop; lia);
    rewrite take_take; f_equal; lia.
Qed.

(** A completed line that is longer than the reader's buffer comes out in
    pieces: a read of [c1] characters, fewer than the line has, returns the
    first [c1], and the next read goes on where it stopped, up to the end of
    the line.  The port is not read in between, and the line counts as
    complete until its last character has been handed out. *)
Theorem tty_read_in_pieces (fuel1 fuel2 : nat) t (c1 c2 : Z) lw :
  line_ok t -> ibuf_eol t = true ->
  0 <= c1 < ilen t -> 0 <= c2 < 2 ^ 31 ->
  let n2 := Z.min (ilen t - c1) c2 in
  exists t1 t2,
    tty_read_tty lops (S fuel1) t c1 lw
      = Some (t1, lw, map wrap_u8 (take (Z.to_nat c1) (ibuf t)), c1)
    /\ tty_read_tty lops (S fuel2) t1 c2 lw
      = Some (t2, lw,
              map wrap_u8 (take (Z.to_nat n2) (drop (Z.to_nat c1) (ibuf t))), n2)
    /\ ilen t2 = ilen t - c1 - n2
    /\ ibuf_eol t2 = negb (ilen t2 =? 0).
Proof.
  intros Hok Heol Hc1 Hc2 n2.
  assert (Hi : 0 <= ilen t <= 256) by (destruct Hok as [Hi _]; exact Hi).
  destruct (tty_read_complete fuel1 t c1 lw Hok Heol) as
    (t1 & E1 & Hok1 & _ & _ & _ & Hl1 & He1 & Hb1); [lia|lia|].
  replace (Z.min (ilen t) c1) with c1 in * by lia.
  assert (He1' : ibuf_eol t1 = true).
  { rewrite He1. destruct (ilen t - c1 =? 0) eqn:E; [apply Z.eqb_eq in E; lia|reflexivity]. }
  destruct (tty_read_complete fuel2 t1 c2 lw Hok1 He1') as
    (t2 & E2 & _ & _ & _ & _ & Hl2 & He2 & _); [lia|lia|].
  rewrite Hl1 in *. fold n2 in E2, Hl2, He2.
  exists t1, t2. split; [exact E1|]. split.
  - rewrite E2. do 3 f_equal.
    assert (Hn2 : (Z.to_nat n2 <= Z.to_nat (ilen t - c1))%nat) by (unfold n2; lia).
    assert (Htt : forall l : list Z,
              take (Z.to_nat n2) l
              = take (Z.to_nat n2) (take (Z.to_nat (ilen t - c1)) l)).
    { intros l. rewrite take_take. f_equal. lia. }
    rewrite (Htt (ibuf t1)), Hb1, <- Htt. reflexivity.
  - split; [lia|]. rewrite He2. f_equal. f_equal. lia.
Qed.

End TtyPiecesProperties.

Lemma tty_read_in_pieces_witness :
  let t := Tty.mk_tty Kernel.com1_file Tty.TTY_COOKED true true false 5
             ([104; 101; 108; 108; 10] ++ replicate 251 0) in
  let lw := Kernel.com1_open 0 [120] [] in
  Tty.line_ok t /\ Tty.ibuf_eol t = true
  /\ 0 <= 2 < Tty.ilen t /\ 0 <= 10 < 2 ^ 31
  /\ exists t1 t2,
       Tty.tty_read_tty Kernel.port_ops 1 t 2 lw
         = Some (t1, lw, map Cint.wrap_u8 (take (Z.to_nat 2) (Tty.ibuf t)), 2)
       /\ Tty.tty_read_tty Kernel.port_ops 1 t1 10 lw
         = Some (t2, lw,
                 map Cint.wrap_u8
                   (take (Z.to_nat (Z.min (Tty.ilen t - 2) 10))
                      (drop (Z.to_nat 2) (Tty.ibuf t))),
                 Z.min (Tty.ilen t - 2) 10)
       /\ Tty.ilen t2 = Tty.ilen t - 2 - Z.min (Tty.ilen t - 2) 10
       /\ Tty.ibuf_eol t2 = negb (Tty.ilen t2 =? 0).
Proof.
  intros t lw.
  assert (H1 : Tty.line_ok t) by (split; [cbn; unfold Tty.IBUFSZ; lia|reflexivity]).
  assert (H2 : Tty.ibuf_eol t = true) by reflexivity.
  assert (H3 : 0 <= 2 < Tty.ilen t) by (cbn; lia).
  assert (H4 : 0 <= 10 < 2 ^ 31) by lia.
  split; [exact H1|]. split; [exact H2|]. split; [exact H3|]. split; [exact H4|].
  exact (tty_read_in_pieces Kernel.port_ops 0 0 t 2 10 lw H1 H2 H3 H4).
Defined.

(* ================================================================== *)
(** * Properties: a line typed on COM1                                 *)
(* ================================================================== *)

Section TtyOnCom1Properties.
Import Cint Errno CString Vfs Serial Tty Kernel.

Lemma com1_read_byte (sflags b : Z) (rest tx_ : list Z) :
  file_read port_ops com1_file 1 (com1_open sflags (b :: rest) tx_) =
    (com1_open sflags rest tx_, com1_file,
     [wrap_u8 (ifilter (mk_serial 1016 sflags) (wrap_s8 (wrap_u8 b)))], 1).
Proof.
  unfold file_read. cbn [f_op com1_file port_ops read serial_ops].
  change (1 =? 0) with false. cbv iota.
  unfold serial_read. change (Z.to_nat 1) with 1%nat.
  change (serial_of com1_file (com1_open sflags (b :: rest) tx_))
    with (mk_serial 1016 sflags).
  rewrite (serial_read_loop_spec (mk_serial 1016 sflags) 1 1 eq_refl (b :: rest) [] 0
             (hardware (com1_open sflags (b :: rest) tx_)) eq_refl) by lia.
  reflexivity.
Qed.

Lemma com1_read_none (sflags : Z) (tx_ : list Z) :
  file_read port_ops com1_file 1 (com1_open sflags [] tx_) =
    (com1_open sflags [] tx_, com1_file, [], - EAGAIN).
Proof. reflexivity. Qed.

Lemma com1_write_clean (sflags : Z) (clean rx_ tx_ : list Z) :
  Forall (fun b => 0 <= b < 128) clean -> clean <> [] ->
  Z.of_nat (length clean) < 2 ^ 31 ->
  file_write port_ops com1_file clean (Z.of_nat (length clean))
      (com1_open sflags rx_ tx_) =
    (com1_open sflags rx_ (rev (wire sflags clean) ++ tx_), com1_file,
     Z.of_nat (length clean)).
Proof.
  intros Hclean Hne Hlen. unfold file_write.
  cbn [f_op com1_file port_ops write serial_ops].
  destruct (Z.of_nat (length clean) =? 0) eqn:E.
  { apply Z.eqb_eq in E. destruct clean; [congruence|simpl in E; lia]. }
  unfold serial_write. rewrite Nat2Z.id.
  pose proof (serial_write_loop_spec (mk_serial 1016 sflags)
                (Z.of_nat (length clean)) clean eq_refl Hclean []
                (hardware (com1_open sflags rx_ tx_)) eq_refl I) as Hw.
  rewrite app_nil_r in Hw.
  change (serial_of com1_file (com1_open sflags rx_ tx_)) with (mk_serial 1016 sflags).
  rewrite Hw. rewrite wrap_s32_id by (unfold in_s32; lia). reflexivity.
Qed.

Lemma echo_of_app (fl sflags : Z) (l1 l2 : list Z) :
  echo_of fl sflags (l1 ++ l2) = echo_of fl sflags l1 ++ echo_of fl sflags l2.
Proof.
  unfold echo_of, wire. destruct (Z.land fl TTY_ECHO =? 0); [reflexivity|].
  apply flat_map_app.
Qed.

Lemma echoc_com1 (fl sflags ch : Z) (eol : bool) (pre junk rx_ tx_ : list Z) :
  plain ch \/ ch = 10 ->
  echoc port_ops (line_tty fl eol pre junk) ch (com1_open sflags rx_ tx_) =
    (line_tty fl eol pre junk,
     com1_open sflags rx_ (rev (echo_of fl sflags [ch]) ++ tx_)).
Proof.
  intros Hch. unfold echoc, echo_of. cbn [flags line_tty].
  destruct (Z.land fl TTY_ECHO =? 0); [reflexivity|].
  assert (Hu : wrap_u8 ch = ch).
  { unfold wrap_u8. apply Z.mod_small. unfold plain in Hch. lia. }
  assert (Hp : (Z.land fl TTY_ECHOCTL =? 0) || Ctype.isprint ch
               || bool_decide (is_Some (strchr [10; 13; 9] ch)) = true).
  { destruct Hch as [Hch| ->].
    - unfold Ctype.isprint, plain in *.
      replace (32 <=? ch) with true by (symmetry; apply Z.leb_le; lia).
      replace (ch <=? 126) with true by (symmetry; apply Z.leb_le; lia).
      cbn [andb]. rewrite orb_true_r. reflexivity.
    - rewrite orb_true_r. reflexivity. }
  rewrite Hp. unfold port_write. cbn [portdev line_tty]. rewrite Hu.
  pose proof (com1_write_clean sflags [ch] rx_ tx_) as Hw.
  cbn [length] in Hw. change (Z.of_nat 1) with 1 in Hw.
  rewrite Hw.
  - reflexivity.
  - constructor; [unfold plain in Hch; lia|constructor].
  - discriminate.
  - lia.
Qed.

Lemma insert_at_end (pre junk : list Z) (j c : Z) :
  <[Z.to_nat (Z.of_nat (length pre)) := c]> (pre ++ j :: junk) = (pre ++ [c]) ++ junk.
Proof.
  rewrite Nat2Z.id, <- app_assoc. cbn [app].
  induction pre as [|p pre IH]; [reflexivity|].
  cbn [app length]. cbn. f_equal. exact IH.
Qed.

Lemma line_tty_step (fl : Z) (eol : bool) (pre junk : list Z) (j c : Z) :
  mk_tty com1_file fl true eol false (Z.of_nat (length pre) + 1)
    (<[Z.to_nat (Z.of_nat (length pre)) := c]> (pre ++ j :: junk))
  = line_tty fl eol (pre ++ [c]) junk.
Proof.
  unfold line_tty. rewrite insert_at_end. f_equal.
  rewrite length_app. cbn [length]. lia.
Qed.

Lemma tty_inchar_plain (fl sflags ch j : Z) (pre junk rx_ tx_ : list Z) :
  Z.land fl TTY_COOKED <> 0 -> plain ch -> (length pre < 256)%nat ->
  tty_inchar port_ops (line_tty fl false pre (j :: junk)) ch
      (com1_open sflags rx_ tx_) =
    (line_tty fl false (pre ++ [ch]) junk,
     com1_open sflags rx_ (rev (echo_of fl sflags [ch]) ++ tx_), 0).
Proof.
  intros Hc Hch Hlen. unfold tty_inchar, ISCOOKED. cbn [flags line_tty ibuf_eol].
  destruct (Z.land fl TTY_COOKED =? 0) eqn:E; [apply Z.eqb_eq in E; contradiction|].
  cbn [negb]. unfold SPECIALCHARS. cbn [tty_inchar_loop sc_ch].
  unfold plain, CTRL_D, CTRL_U in *.
  replace (ch =? 10) with false by (symmetry; apply Z.eqb_neq; lia).
  replace (ch =? 4) with false by (symmetry; apply Z.eqb_neq; lia).
  replace (ch =? 8) with false by (symmetry; apply Z.eqb_neq; lia).
  replace (ch =? 127) with false by (symmetry; apply Z.eqb_neq; lia).
  replace (ch =? 21) with false by (symmetry; apply Z.eqb_neq; lia).
  cbn [negb]. unfold add_to_inbuf, set_ilen, set_ibuf.
  cbn [portdev flags initialized ibuf_eol ibuf_eof ilen ibuf line_tty]. unfold IBUFSZ.
  replace (Z.of_nat (length pre) =? 256) with false by (symmetry; apply Z.eqb_neq; lia).
  rewrite line_tty_step, echoc_com1 by (left; exact Hch). reflexivity.
Qed.

Lemma tty_inchar_newline (fl sflags j : Z) (pre junk rx_ tx_ : list Z) :
  Z.land fl TTY_COOKED <> 0 -> (length pre < 256)%nat ->
  tty_inchar port_ops (line_tty fl false pre (j :: junk)) 10
      (com1_open sflags rx_ tx_) =
    (line_tty fl true (pre ++ [10]) junk,
     com1_open sflags rx_ (rev (echo_of fl sflags [10]) ++ tx_), 0).
Proof.
  intros Hc Hlen. unfold tty_inchar, ISCOOKED. cbn [flags line_tty ibuf_eol].
  destruct (Z.land fl TTY_COOKED =? 0) eqn:E; [apply Z.eqb_eq in E; contradiction|].
  cbn [negb]. unfold SPECIALCHARS. cbn [tty_inchar_loop sc_ch sc_flags special_echo onrecv].
  change (10 =? 10) with true. cbn [negb].
  change (negb (Z.land (Z.lor SP_ENDLINE SP_ISINPUT) SP_ENDLINE =? 0)) with true.
  change (negb (Z.land (Z.lor SP_ENDLINE SP_ISINPUT) SP_ISINPUT =? 0)) with true.
  cbv iota. unfold add_to_inbuf, set_ibuf_eol, set_ilen, set_ibuf.
  cbn [portdev flags initialized ibuf_eol ibuf_eof ilen ibuf line_tty]. unfold IBUFSZ.
  replace (Z.of_nat (length pre) =? 256) with false by (symmetry; apply Z.eqb_neq; lia).
  rewrite line_tty_step, echoc_com1 by (right; reflexivity). reflexivity.
Qed.

Lemma stored_plain (sflags c : Z) :
  plain c \/ c = 10 ->
  wrap_s8 (hd 0 [wrap_u8 (ifilter (mk_serial 1016 sflags) (wrap_s8 (wrap_u8 c)))]) = c.
Proof.
  intros Hc. cbn [hd].
  assert (Hr : 0 <= c <= 126) by (unfold plain in Hc; lia).
  assert (Hu : wrap_u8 c = c) by (unfold wrap_u8; apply Z.mod_small; lia).
  rewrite Hu, (wrap_s8_id c) by lia. unfold ifilter.
  replace (c =? 13) with false
    by (symmetry; apply Z.eqb_neq; unfold plain in Hc; lia).
  rewrite andb_false_r, Hu. apply wrap_s8_id. lia.
Qed.

(** The loop of [tty_read] takes the plain characters that wait on COM1 into
    the line buffer one by one and echoes them. *)
Lemma tty_read_loop_plain (fl sflags : Z) (line : list Z) :
  Z.land fl TTY_COOKED <> 0 -> Forall plain line ->
  forall (fuel : nat) (pre junk rest tx_ : list Z) (portres : Z),
  (length line <= length junk)%nat -> (length pre + length junk = 256)%nat ->
  tty_read_loop port_ops (length line + fuel) (line_tty fl false pre junk)
      (com1_open sflags (line ++ rest) tx_) portres =
    tty_read_loop port_ops fuel
      (line_tty fl false (pre ++ line) (drop (length line) junk))
      (com1_open sflags rest (rev (echo_of fl sflags line) ++ tx_))
      (match line with [] => portres | _ => 1 end).
Proof.
  intros Hc Hline. induction Hline as [|c line Hch Hline IH];
    intros fuel pre junk rest tx_ portres Hroom Hsz.
  - cbn [length Nat.add app drop]. rewrite app_nil_r.
    unfold echo_of, wire. destruct (Z.land fl TTY_ECHO =? 0); reflexivity.
  - destruct junk as [|j junk]; [cbn in Hroom; lia|].
    cbn [length] in Hroom, Hsz.
    cbn [length Nat.add tty_read_loop app]. cbn [ilen ibuf_eol portdev line_tty].
    unfold IBUFSZ.
    replace (Z.of_nat (length pre) <? 256) with true by (symmetry; apply Z.ltb_lt; lia).
    cbn [andb negb]. rewrite com1_read_byte.
    change (wrap_s32 1 <=? 0) with false. cbv iota.
    rewrite stored_plain by (left; exact Hch).
    change (set_portdev (line_tty fl false pre (j :: junk)) com1_file)
      with (line_tty fl false pre (j :: junk)).
    rewrite tty_inchar_plain by (try assumption; lia).
    change (0 <? 0) with false. cbv iota. change (wrap_s32 1) with 1.
    rewrite IH by (rewrite ?length_app; cbn [length]; lia).
    rewrite <- app_assoc. cbn [app drop].
    replace (c :: line) with ([c] ++ line) by reflexivity.
    rewrite echo_of_app, rev_app_distr, <- app_assoc.
    destruct line; reflexivity.
Qed.

Lemma plain_bytes (l : list Z) : Forall plain l -> map wrap_u8 l = l.
Proof.
  induction 1 as [|c l Hc _ IH]; [reflexivity|]. cbn [map]. rewrite IH.
  f_equal. unfold wrap_u8. apply Z.mod_small. unfold plain in Hc. lia.
Qed.

(** The line is complete: [tty_read] takes it from COM1 up to the newline
    and hands it out. *)
Lemma tty_read_line_complete (fl sflags : Z) (pre line rest tx_ junk : list Z)
    (fuel : nat) (count : Z) :
  Z.land fl TTY_COOKED <> 0 -> Forall plain pre -> Forall plain line ->
  (length pre + length junk = 256)%nat -> (length line < length junk)%nat ->
  Z.of_nat (length (pre ++ line)) + 1 <= count < 2 ^ 31 ->
  tty_read_tty port_ops (length line + 2 + fuel) (line_tty fl false pre junk) count
      (com1_open sflags (line ++ 10 :: rest) tx_) =
    Some (line_tty fl false [] ((pre ++ line ++ [10]) ++ drop (S (length line)) junk),
          com1_open sflags rest (rev (echo_of fl sflags (line ++ [10])) ++ tx_),
          pre ++ line ++ [10], Z.of_nat (length (pre ++ line)) + 1).
Proof.
  intros Hc Hpre Hline Hsz Hroom Hcount. unfold tty_read_tty.
  rewrite <- Nat.add_assoc.
  rewrite (tty_read_loop_plain fl sflags line Hc Hline) by lia.
  destruct (drop (length line) junk) as [|j junk'] eqn:Ej.
  { apply (f_equal length) in Ej. rewrite length_drop in Ej. cbn in Ej. lia. }
  assert (Hj : junk' = drop (S (length line)) junk).
  { replace (S (length line)) with (length line + 1)%nat by lia.
    rewrite <- drop_drop, Ej. reflexivity. }
  assert (Hl : (length (pre ++ line) < 256)%nat) by (rewrite length_app; lia).
  cbn [Nat.add tty_read_loop]. cbn [ilen ibuf_eol portdev line_tty]. unfold IBUFSZ.
  replace (Z.of_nat (length (pre ++ line)) <? 256) with true
    by (symmetry; apply Z.ltb_lt; lia).
  cbn [andb negb]. rewrite com1_read_byte.
  change (wrap_s32 1 <=? 0) with false. cbv iota.
  rewrite stored_plain by (right; reflexivity).
  change (set_portdev (line_tty fl false (pre ++ line) (j :: junk')) com1_file)
    with (line_tty fl false (pre ++ line) (j :: junk')).
  rewrite tty_inchar_newline by assumption.
  change (0 <? 0) with false. cbv iota.
  cbn [ilen ibuf_eol line_tty]. rewrite andb_false_r.
  set (full := (pre ++ line) ++ [10]).
  assert (Hfl : Z.of_nat (length full) = Z.of_nat (length (pre ++ line)) + 1).
  { unfold full. rewrite (length_app _ [10]). cbn [length]. lia. }
  assert (E0 : (Z.of_nat (length full) =? 0) = false) by (apply Z.eqb_neq; lia).
  assert (Hmin : MIN (Z.of_nat (length full)) count = Z.of_nat (length full)).
  { unfold MIN. destruct (Z.of_nat (length full) <=? count) eqn:E;
      [reflexivity|apply Z.leb_gt in E; lia]. }
  unfold ISCOOKED, set_ibuf_eol, set_ilen, set_ibuf.
  cbn [portdev flags initialized ibuf_eol ibuf_eof ilen ibuf line_tty].
  rewrite E0, Hmin. cbn [negb]. rewrite andb_false_r.
  rewrite Nat2Z.id, Z.sub_diag. change (Z.to_nat 0) with O.
  cbn [take app drop]. change (0 =? 0) with true. cbv iota.
  rewrite take_app_length.
  rewrite wrap_s32_id by (unfold in_s32; lia).
  assert (Hpl : Forall plain (pre ++ line)) by (apply Forall_app; split; assumption).
  assert (Hb : map wrap_u8 full = full).
  { unfold full. rewrite map_app, (plain_bytes _ Hpl). reflexivity. }
  rewrite Hb, Hfl, Hj. unfold full.
  cbn [length app].
  rewrite echo_of_app, rev_app_distr, <- !app_assoc. reflexivity.
Qed.

(** The line is not complete yet: [tty_read] takes what has arrived into
    the line buffer and returns -EAGAIN. *)
Lemma tty_read_line_partial (fl sflags : Z) (pre line tx_ junk : list Z)
    (fuel : nat) (count : Z) :
  Z.land fl TTY_COOKED <> 0 -> Forall plain line ->
  (length pre + length junk = 256)%nat -> (length line <= length junk)%nat ->
  tty_read_tty port_ops (length line + 1 + fuel) (line_tty fl false pre junk) count
      (com1_open sflags line tx_) =
    Some (line_tty fl false (pre ++ line) (drop (length line) junk),
          com1_open sflags [] (rev (echo_of fl sflags line) ++ tx_),
          [], - EAGAIN).
Proof.
  intros Hc Hline Hsz Hroom. unfold tty_read_tty.
  rewrite <- Nat.add_assoc.
  pose proof (tty_read_loop_plain fl sflags line Hc Hline (1 + fuel) pre junk []
                tx_ (- EAGAIN) Hroom Hsz) as Hloop.
  rewrite app_nil_r in Hloop. rewrite Hloop. clear Hloop.
  cbn [Nat.add tty_read_loop]. unfold ISCOOKED, set_portdev.
  cbn [portdev flags initialized ibuf_eol ibuf_eof ilen ibuf line_tty].
  unfold IBUFSZ. cbn [negb]. rewrite andb_true_r.
  destruct (Z.land fl TTY_COOKED =? 0) eqn:E; [apply Z.eqb_eq in E; contradiction|].
  destruct (Z.of_nat (length (pre ++ line)) <? 256) eqn:Efull.
  - rewrite com1_read_none. change (wrap_s32 (- EAGAIN) <=? 0) with true. cbv iota.
    unfold line_tty.
    cbn [portdev flags initialized ibuf_eol ibuf_eof ilen ibuf negb andb].
    rewrite ?E, ?andb_false_r. cbn [negb andb].
    change (wrap_s32 (- EAGAIN) =? 0) with false. cbv iota.
    destruct (Z.of_nat (length (pre ++ line)) =? 0); reflexivity.
  - apply Z.ltb_ge in Efull.
    assert (E0 : (Z.of_nat (length (pre ++ line)) =? 0) = false)
      by (apply Z.eqb_neq; lia).
    unfold line_tty.
    cbn [portdev flags initialized ibuf_eol ibuf_eof ilen ibuf negb andb].
    rewrite E0, ?E. reflexivity.
Qed.

(** Once the line buffer is full and no newline has come, [tty_read] does
    not read the port any more. *)
Lemma tty_read_full_buffer (fl : Z) (pre : list Z) (fuel : nat) (count : Z)
    (w : serial_state) :
  Z.land fl TTY_COOKED <> 0 -> length pre = 256%nat ->
  tty_read_tty port_ops (S fuel) (line_tty fl false pre []) count w =
    Some (line_tty fl false pre [], w, [], - EAGAIN).
Proof.
  intros Hc Hlen. unfold tty_read_tty, line_tty, ISCOOKED. cbn [tty_read_loop].
  assert (E : (Z.land fl TTY_COOKED =? 0) = false) by (apply Z.eqb_neq; exact Hc).
  cbn [ilen ibuf_eol flags]. rewrite Hlen.
  change (Z.of_nat 256 <? IBUFSZ) with false. cbn [andb]. cbv iota beta.
  cbn [ilen ibuf_eol flags].
  change (Z.of_nat 256 =? 0) with false. cbv iota. rewrite E.
  reflexivity.
Qed.

(** Cooked mode reads by lines.  While the characters that have come on
    COM1 do not end in a newline, [tty_read] takes them into the line buffer,
    echoes them and returns -EAGAIN; once the newline is there it returns the
    whole line, the newline included, and leaves what follows it on the
    port. *)
Theorem tty_cooked_read_by_line (fl sflags : Z) (part1 part2 rest tx_ junk : list Z)
    (fuel1 fuel2 : nat) (count1 count2 : Z) :
  Z.land fl TTY_COOKED <> 0 ->
  Forall plain part1 -> Forall plain part2 ->
  length junk = 256%nat -> (length (part1 ++ part2) < 256)%nat ->
  Z.of_nat (length (part1 ++ part2)) + 1 <= count2 < 2 ^ 31 ->
  exists t1 w1 t2,
    tty_read_tty port_ops (length part1 + 1 + fuel1) (tty_on_com1 fl junk) count1
        (com1_open sflags part1 tx_)
      = Some (t1, w1, [], - EAGAIN)
    /\ w1 = com1_open sflags [] (rev (echo_of fl sflags part1) ++ tx_)
    /\ tty_read_tty port_ops (length part2 + 2 + fuel2) t1 count2
        (com1_open sflags (part2 ++ 10 :: rest) (tx (com1 (hardware w1))))
      = Some (t2,
              com1_open sflags rest
                (rev (echo_of fl sflags (part1 ++ part2 ++ [10])) ++ tx_),
              part1 ++ part2 ++ [10],
              Z.of_nat (length (part1 ++ part2)) + 1)
    /\ ilen t2 = 0 /\ ibuf_eol t2 = false.
Proof.
  intros Hc H1 H2 Hjunk Hlen Hcount. rewrite length_app in Hlen.
  change (tty_on_com1 fl junk) with (line_tty fl false [] junk).
  rewrite (tty_read_line_partial fl sflags [] part1 tx_ junk fuel1 count1 Hc H1)
    by (cbn [length]; lia).
  cbn [app].
  do 3 eexists. split; [reflexivity|]. split; [reflexivity|].
  cbn [hardware com1 tx com1_open].
  rewrite (tty_read_line_complete fl sflags part1 part2 rest _ _ fuel2 count2 Hc H1 H2)
    by (rewrite ?length_drop, ?length_app in *; lia).
  split.
  - rewrite !echo_of_app, !rev_app_distr, <- !app_assoc. reflexivity.
  - split; reflexivity.
Qed.

(** A line of 256 plain characters without a newline wedges a cooked TTY:
    [tty_read] takes the characters into the line buffer and returns -EAGAIN,
    and from then on every [tty_read] returns -EAGAIN with the port left
    unread, whatever arrives on it. *)
Theorem tty_cooked_line_overflow (fl sflags : Z) (line rest tx_ junk : list Z)
    (fuel : nat) (count : Z) :
  Z.land fl TTY_COOKED <> 0 -> Forall plain line ->
  length line = 256%nat -> length junk = 256%nat ->
  exists t1 w1,
    tty_read_tty port_ops (257 + fuel) (tty_on_com1 fl junk) count
        (com1_open sflags (line ++ rest) tx_)
      = Some (t1, w1, [], - EAGAIN)
    /\ rx (com1 (hardware w1)) = rest
    /\ ilen t1 = IBUFSZ
    /\ forall (fuel' : nat) (count' : Z) (w' : serial_state),
         tty_read_tty port_ops (S fuel') t1 count' w' = Some (t1, w', [], - EAGAIN).
Proof.
  intros Hc Hline Hlen Hjunk.
  change (tty_on_com1 fl junk) with (line_tty fl false [] junk).
  unfold tty_read_tty.
  replace (257 + fuel)%nat with (length line + (1 + fuel))%nat by lia.
  rewrite (tty_read_loop_plain fl sflags line Hc Hline) by (cbn [length]; lia).
  cbn [app]. rewrite drop_ge by lia.
  unfold line_tty, ISCOOKED.
  assert (E : (Z.land fl TTY_COOKED =? 0) = false) by (apply Z.eqb_neq; exact Hc).
  cbn [Nat.add tty_read_loop]. cbn [ilen ibuf_eol flags]. rewrite Hlen.
  change (Z.of_nat 256 <? IBUFSZ) with false. cbn [andb]. cbv iota beta.
  cbn [ilen ibuf_eol flags].
  change (Z.of_nat 256 =? 0) with false. cbv iota. rewrite E.
  cbn [negb andb].
  do 2 eexists. split; [reflexivity|]. split; [reflexivity|]. split; [reflexivity|].
  intros fuel' count' w'.
  pose proof (tty_read_full_buffer fl line fuel' count' w' Hc Hlen) as Hfull.
  unfold line_tty in Hfull. rewrite Hlen in Hfull. exact Hfull.
Qed.

End TtyOnCom1Properties.

Lemma tty_cooked_read_by_line_witness :
  let fl := Z.lor Tty.TTY_ECHO Tty.TTY_COOKED in
  let junk := replicate 256 0 in
  Z.land fl Tty.TTY_COOKED <> 0
  /\ Forall Kernel.plain [104; 105] /\ Forall Kernel.plain [33]
  /\ length junk = 256%nat /\ (length ([104; 105] ++ [33]) < 256)%nat
  /\ Z.of_nat (length ([104; 105] ++ [33])) + 1 <= 10 < 2 ^ 31
  /\ exists t1 w1 t2,
       Tty.tty_read_tty Kernel.port_ops (length [104; 105] + 1 + 0)
           (Kernel.tty_on_com1 fl junk) 10
           (Kernel.com1_open Serial.SRL_OCRNL [104; 105] [])
         = Some (t1, w1, [], - Errno.EAGAIN)
       /\ w1 = Kernel.com1_open Serial.SRL_OCRNL []
                 (rev (Kernel.echo_of fl Serial.SRL_OCRNL [104; 105]) ++ [])
       /\ Tty.tty_read_tty Kernel.port_ops (length [33] + 2 + 0) t1 10
           (Kernel.com1_open Serial.SRL_OCRNL ([33] ++ 10 :: [120])
              (Serial.tx (Serial.com1 (Serial.hardware w1))))
         = Some (t2,
                 Kernel.com1_open Serial.SRL_OCRNL [120]
                   (rev (Kernel.echo_of fl Serial.SRL_OCRNL
                           ([104; 105] ++ [33] ++ [10])) ++ []),
                 [104; 105] ++ [33] ++ [10],
                 Z.of_nat (length ([104; 105] ++ [33])) + 1)
       /\ Tty.ilen t2 = 0 /\ Tty.ibuf_eol t2 = false.
Proof.
  intros fl junk.
  assert (H0 : Z.land fl Tty.TTY_COOKED <> 0) by (vm_compute; discriminate).
  assert (H1 : Forall Kernel.plain [104; 105])
    by (repeat constructor; unfold Kernel.plain; lia).
  assert (H2 : Forall Kernel.plain [33])
    by (repeat constructor; unfold Kernel.plain; lia).
  assert (H3 : length junk = 256%nat) by reflexivity.
  assert (H4 : (length ([104; 105] ++ [33]) < 256)%nat) by (simpl; lia).
  assert (H5 : Z.of_nat (length ([104; 105] ++ [33])) + 1 <= 10 < 2 ^ 31)
    by (simpl; lia).
  repeat (split; [assumption|]).
  exact (tty_cooked_read_by_line fl Serial.SRL_OCRNL [104; 105] [33] [120] [] junk
           0 0 10 10 H0 H1 H2 H3 H4 H5).
Defined.

Lemma tty_cooked_line_overflow_witness :
  let fl := Tty.TTY_COOKED in
  let line := replicate 256 97 in
  let junk := replicate 256 0 in
  Z.land fl Tty.TTY_COOKED <> 0 /\ Forall Kernel.plain line
  /\ length line = 256%nat /\ length junk = 256%nat
  /\ exists t1 w1,
       Tty.tty_read_tty Kernel.port_ops (257 + 0) (Kernel.tty_on_com1 fl junk) 16
           (Kernel.com1_open 0 (line ++ [10]) [])
         = Some (t1, w1, [], - Errno.EAGAIN)
       /\ Serial.rx (Serial.com1 (Serial.hardware w1)) = [10]
       /\ Tty.ilen t1 = Tty.IBUFSZ
       /\ forall (fuel' : nat) (count' : Z) (w' : Serial.serial_state),
            Tty.tty_read_tty Kernel.port_ops (S fuel') t1 count' w'
              = Some (t1, w', [], - Errno.EAGAIN).
Proof.
  intros fl line junk.
  assert (H0 : Z.land fl Tty.TTY_COOKED <> 0) by (vm_compute; discriminate).
  assert (H1 : Forall Kernel.plain line)
    by (apply Forall_replicate; unfold Kernel.plain; lia).
  assert (H2 : length line = 256%nat) by reflexivity.
  assert (H3 : length junk = 256%nat) by reflexivity.
  repeat (split; [assumption|]).
  exact (tty_cooked_line_overflow fl 0 line [10] [] junk 0 16 H0 H1 H2 H3).
Defined.

(* ================================================================== *)
(** * Properties: formatted output                                     *)
(* ================================================================== *)

Section SprintfProperties.
Import Cint Errno CString Sprintf.


Lemma within_trans (buf b1 b2 : list Z) (s s1 t : Z) :
  s <= s1 -> within buf s t b1 -> within b1 s1 t b2 -> within buf s t b2.
Proof.
  intros Hs [L1 O1] [L2 O2]. split; [congruence|].
  intros i Hi. rewrite O2 by lia. apply O1. exact Hi.
Qed.




(** Two writers one after the other. *)
Lemma seq_within (F G : list Z -> Z -> Z -> list Z * Z) (d e : Z) :
  0 <= d -> 0 <= e ->
  (forall buf s t, 0 <= s -> exists b, F buf s t = (b, s + d) /\ within buf s t b) ->
  (forall buf s t, 0 <= s -> exists b, G buf s t = (b, s + e) /\ within buf s t b) ->
  forall buf s t, 0 <= s ->
  exists b, (let '(b1, s1) := F buf s t in G b1 s1 t) = (b, s + (d + e))
            /\ within buf s t b.
Proof.
  intros Hd He HF HG buf s t Hs.
  destruct (HF buf s t Hs) as (b1 & E1 & W1). rewrite E1.
  destruct (HG b1 (s + d) t) as (b2 & E2 & W2); [lia|].
  exists b2. rewrite E2. split; [f_equal; lia|].
  apply (within_trans buf b1 b2 s (s + d) t); [lia|assumption|assumption].
Qed.












Lemma loop_within_stop (k : option Z) :
  (forall d, k = Some d -> 0 <= d) -> forall d, option_map (Z.add 0) k = Some d -> 0 <= d.
Proof. intros H d. destruct k; [|discriminate]. intros [= <-]. specialize (H _ eq_refl). lia. Qed.





End SprintfProperties.


Example snprintf_truncates :
  Sprintf.snprintf (replicate 8 7) 2 4 (CString.cstr "n=%d") [Sprintf.VInt 1234]
  = ([7; 7; 110; 61; 49; 0; 7; 7], 6).
Proof. vm_compute. reflexivity. Qed.

Section VprintfProperties.
Import Cint Errno Vfs.
Context {W fops fsops : Type}.
Variable ops : fops -> file_operations W fops fsops.


End VprintfProperties.

(* ================================================================== *)
(** * Properties: the slots of open CPIO files                         *)
(* ================================================================== *)

Section CpioSlotProperties.
Import Cint Errno Vfs Cpio.
Context {LW LP LS P S : Type}.
Variable lops : LP -> file_operations LW LP LS.
Variable chrdev_drivers : list (option LP).
Implicit Types (w : cpio_state (LW := LW) (LP := LP)) (cf : cfdata (LP := LP)).

Lemma cfdata_alloc_from_spec (cfs : list cfdata) (k i : nat) :
  cfdata_alloc_from cfs k = Some i ->
  exists j, i = (k + j)%nat /\ (in_use (LP := LP) <$> cfs) !! j = Some false.
Proof.
  revert k. induction cfs as [|cf cfs IH]; intros k; cbn [cfdata_alloc_from];
    [discriminate|].
  destruct (f_op (af cf)) eqn:E.
  - intros H. destruct (IH _ H) as (j & -> & Hj). exists (Datatypes.S j).
    split; [lia|exact Hj].
  - intros [= <-]. exists O. split; [lia|]. cbn. unfold in_use. rewrite E. reflexivity.
Qed.

Lemma cfdata_alloc_from_none (cfs : list cfdata) (k : nat) :
  cfdata_alloc_from cfs k = None <-> Forall (fun cf => in_use cf = true) cfs.
Proof.
  revert k. induction cfs as [|cf cfs IH]; intros k; cbn [cfdata_alloc_from].
  - split; [constructor|reflexivity].
  - unfold in_use at 1. destruct (f_op (af cf)) eqn:E.
    + rewrite IH. split; [intros H; constructor; [unfold in_use; rewrite E; reflexivity|exact H]|].
      intros H. apply Forall_cons in H as [_ H]. exact H.
    + split; [discriminate|]. intros H. apply Forall_cons in H as [H _].
      unfold in_use in H. rewrite E in H. discriminate.
Qed.

Lemma in_use_freed (a : file LP) (h_ : cpio_header) (o : Z) :
  in_use (mk_cfdata (set_f_op a None) h_ o) = false.
Proof. reflexivity. Qed.

Ltac slot_freed Hfree :=
  unfold cfdata_free, set_cfdata; cbn [cfdatas];
  rewrite ?list_fmap_insert, ?list_insert_insert_eq, ?in_use_freed;
  apply list_insert_id; exact Hfree.

(** [cpio_file_open_path] and [cpio_file_release] keep the table of open
    CPIO files in order: an open that fails, at whichever step, leaves every
    slot as free or as taken as it was, and so does an open that succeeds
    once the file has been released. *)
Theorem cpio_open_path_no_leak (fuel : nat) (f : file P) (sb : superblock S)
    (path : list Z) w :
  match cpio_file_open_path lops chrdev_drivers fuel f sb path w with
  | Some (w', f', res) =>
      let w'' := if res <? 0 then w' else (cpio_file_release f' w').1.1 in
      in_use (LP := LP) <$> cfdatas w'' = in_use (LP := LP) <$> cfdatas w
  | None => True
  end.
Proof.
  unfold cpio_file_open_path.
  destruct (cfdata_alloc w) as [i|] eqn:Ea.
  2: { change (- ENOMEM <? 0) with true. reflexivity. }
  unfold cfdata_alloc in Ea. apply cfdata_alloc_from_spec in Ea as (j & -> & Hfree).
  cbn [Nat.add] in *.
  destruct (file_open_dev lops chrdev_drivers (s_bdev sb) (backing w))
    as [[lw1 af1] res1].
  destruct (res1 <? 0) eqn:E1.
  { cbv zeta. rewrite E1. slot_freed Hfree. }
  cbn [backing].
  destruct (cpio_find_path lops fuel af1 _ lw1) as [[[[lw2 af2] h2] res2]|]; [|exact I].
  destruct (res2 <? 0) eqn:E2.
  { destruct (file_close lops af2 _) as [[lw3 af3] r3].
    cbv zeta. rewrite E2. slot_freed Hfree. }
  destruct (cpioh_fstat h2 (f_stat f)) as [st res3].
  destruct (res3 <? 0) eqn:E3.
  { destruct (file_close lops af2 _) as [[lw3 af3] r3].
    cbv zeta. rewrite E3. slot_freed Hfree. }
  cbv zeta. change (0 <? 0) with false. cbv iota.
  unfold cpio_file_release. cbn [f_driver_data set_f_driver_data fst].
  slot_freed Hfree.
Qed.

(** With all four slots taken, [cpio_file_open_path] returns -ENOMEM and
    touches neither the table nor the device below. *)
Theorem cpio_open_path_table_full (fuel : nat) (f : file P) (sb : superblock S)
    (path : list Z) w :
  Forall (fun cf => in_use cf = true) (cfdatas w) ->
  cpio_file_open_path lops chrdev_drivers fuel f sb path w = Some (w, f, - ENOMEM).
Proof.
  intros Hfull. unfold cpio_file_open_path, cfdata_alloc.
  apply (cfdata_alloc_from_none _ O) in Hfull. rewrite Hfull. reflexivity.
Qed.

End CpioSlotProperties.

Lemma cpio_open_path_table_full_witness :
  let taken :=
    Cpio.mk_cfdata (Vfs.set_f_op Vfs.file_zero (Some tt)) (Cpio.cpio_header_zero 0) 0 in
  let w := Cpio.mk_cpio_state (replicate 4 taken) Kernel.initrd_disk in
  let f := Vfs.set_f_op Vfs.file_zero (Some tt) in
  Forall (fun cf => Cpio.in_use cf = true) (Cpio.cfdatas w)
  /\ Cpio.cpio_file_open_path Kernel.disk_ops Kernel.disk_drivers 8 f
       Kernel.initrd_sb (CString.cstr "a") w
     = Some (w, f, - Errno.ENOMEM).
Proof.
  intros taken w f.
  assert (H : Forall (fun cf => Cpio.in_use cf = true) (Cpio.cfdatas w))
    by (repeat constructor).
  split; [exact H|].
  exact (cpio_open_path_table_full Kernel.disk_ops Kernel.disk_drivers 8 f
           Kernel.initrd_sb (CString.cstr "a") w H).
Defined.

(* ================================================================== *)
(** * Properties: hexadecimal header fields                            *)
(* ================================================================== *)

Section HexFieldProperties.
Import Cint Errno CString Sprintf Cpio.


Lemma hexchar_decode (up : bool) (d ret : Z) (rest : list Z) :
  0 <= d < 16 ->
  cpio_atoi_loop (upcase up (hexdigit d) :: rest) 16 ret =
    cpio_atoi_loop rest 16 (wrap_s32 (ret * 16 + d)).
Proof.
  intros Hd.
  assert (H : d = 0 \/ d = 1 \/ d = 2 \/ d = 3 \/ d = 4 \/ d = 5 \/ d = 6 \/ d = 7
              \/ d = 8 \/ d = 9 \/ d = 10 \/ d = 11 \/ d = 12 \/ d = 13 \/ d = 14
              \/ d = 15) by lia.
  destruct up; repeat (destruct H as [-> | H]); try subst d; reflexivity.
Qed.

Lemma hexchar_is_char (up : bool) (d : Z) :
  0 <= d < 16 -> upcase up (hexdigit d) <> 0 /\ -128 <= upcase up (hexdigit d) <= 127.
Proof.
  intros Hd.
  assert (H : d = 0 \/ d = 1 \/ d = 2 \/ d = 3 \/ d = 4 \/ d = 5 \/ d = 6 \/ d = 7
              \/ d = 8 \/ d = 9 \/ d = 10 \/ d = 11 \/ d = 12 \/ d = 13 \/ d = 14
              \/ d = 15) by lia.
  destruct up; repeat (destruct H as [-> | H]); try subst d; vm_compute;
    (split; [discriminate|split; discriminate]).
Qed.

Lemma zeros_decode (k : nat) (rest : list Z) :
  cpio_atoi_loop (replicate k 48 ++ rest) 16 0 = cpio_atoi_loop rest 16 0.
Proof. induction k as [|k IH]; [reflexivity|]. cbn [replicate app]. exact IH. Qed.

Lemma itoa_digits_length (fuel : nat) :
  forall (v : Z) (k : nat), 0 <= v < 16 ^ Z.of_nat k ->
  (length (itoa_digits fuel v 16) <= k)%nat.
Proof.
  induction fuel as [|fuel IH]; intros v k Hv; cbn [itoa_digits]; [cbn; lia|].
  destruct (v =? 0) eqn:E; [cbn; lia|]. apply Z.eqb_neq in E.
  destruct k as [|k]; [cbn in Hv; lia|].
  cbn [length]. apply le_n_S, IH.
  rewrite Nat2Z.inj_succ, Z.pow_succ_r in Hv by lia.
  split; [apply Z.div_pos; lia|apply Z.div_lt_upper_bound; lia].
Qed.

(** The digits [itoa] has found, most significant first as it hands them
    out, read back by [cpio_atoi]. *)
Lemma itoa_digits_decode (up : bool) (fuel : nat) :
  forall (v ret : Z) (rest : list Z),
  0 <= v < 16 ^ Z.of_nat fuel -> 0 <= ret ->
  ret * 16 ^ Z.of_nat (length (itoa_digits fuel v 16)) + v < 2 ^ 31 ->
  cpio_atoi_loop (map (upcase up) (rev (itoa_digits fuel v 16)) ++ rest) 16 ret
    = cpio_atoi_loop rest 16
        (ret * 16 ^ Z.of_nat (length (itoa_digits fuel v 16)) + v).
Proof.
  induction fuel as [|fuel IH]; intros v ret rest Hv Hret Hfit.
  - cbn [itoa_digits rev map app length]. cbn in Hv.
    replace v with 0 by lia. f_equal. cbn. lia.
  - cbn [itoa_digits] in *. destruct (v =? 0) eqn:E.
    { apply Z.eqb_eq in E. subst v. cbn [rev map app length]. f_equal. cbn. lia. }
    apply Z.eqb_neq in E. cbn [rev length] in *.
    rewrite map_app, <- app_assoc. cbn [map app].
    set (ds := itoa_digits fuel (v / 16) 16) in *.
    rewrite Nat2Z.inj_succ, Z.pow_succ_r in Hfit by lia.
    rewrite Nat2Z.inj_succ, Z.pow_succ_r in Hv by lia.
    assert (Hpow : 0 < 16 ^ Z.of_nat (length ds)) by (apply Z.pow_pos_nonneg; lia).
    assert (Hdm : v = 16 * (v / 16) + v mod 16) by (apply Z.div_mod; lia).
    assert (Hm : 0 <= v mod 16 < 16) by (apply Z.mod_pos_bound; lia).
    assert (Hq : 0 <= v / 16 < 16 ^ Z.of_nat fuel).
    { split; [apply Z.div_pos; lia|apply Z.div_lt_upper_bound; lia]. }
    assert (Hfit' : ret * 16 ^ Z.of_nat (length ds) + v / 16 < 2 ^ 31) by nia.
    assert (Hfit2 : 0 <= (ret * 16 ^ Z.of_nat (length ds) + v / 16) * 16 + v mod 16
                    < 2 ^ 31) by nia.
    subst ds.
    rewrite IH by assumption.
    rewrite hexchar_decode by exact Hm.
    rewrite wrap_s32_id by (unfold in_s32; lia).
    f_equal. rewrite Nat2Z.inj_succ, Z.pow_succ_r by lia. nia.
Qed.

Lemma itoa_digits_chars (up : bool) (fuel : nat) :
  forall v, 0 <= v -> is_cstr (map (upcase up) (itoa_digits fuel v 16)).
Proof.
  induction fuel as [|fuel IH]; intros v Hv; cbn [itoa_digits]; [constructor|].
  destruct (v =? 0); [constructor|]. cbn [map]. constructor.
  - apply hexchar_is_char. apply Z.mod_pos_bound. lia.
  - apply IH. apply Z.div_pos; lia.
Qed.

Lemma outpad_app (c : Z) (t : Z) (n : nat) :
  forall (pre mid post : list Z),
  length mid = n -> Z.of_nat (length pre + n) <= t ->
  outpad (pre ++ mid ++ post) (Z.of_nat (length pre)) t c n =
    (pre ++ replicate n (wrap_s8 c) ++ post, Z.of_nat (length pre + n)).
Proof.
  induction n as [|n IH]; intros pre mid post Hmid Ht.
  - destruct mid; [|discriminate]. cbn [outpad replicate app].
    rewrite Nat.add_0_r. reflexivity.
  - destruct mid as [|m mid]; [discriminate|]. injection Hmid as Hmid.
    cbn [outpad]. unfold outchar.
    replace (Z.of_nat (length pre) <? t) with true by (symmetry; apply Z.ltb_lt; lia).
    cbn [app]. rewrite insert_at_end.
    replace (Z.of_nat (length pre) + 1) with (Z.of_nat (length (pre ++ [wrap_s8 c])))
      by (rewrite length_app; cbn [length]; lia).
    rewrite (IH (pre ++ [wrap_s8 c]) mid post Hmid)
      by (rewrite length_app; cbn [length]; lia).
    rewrite <- app_assoc. cbn [app replicate]. f_equal.
    rewrite length_app. cbn [length]. lia.
Qed.

Lemma outstr_app (str : list Z) (t : Z) (pre mid post : list Z) :
  is_cstr str -> length mid = length str ->
  Z.of_nat (length pre + length str) <= t ->
  t <= Z.of_nat (length (pre ++ mid ++ post)) ->
  outstr (pre ++ mid ++ post) (Z.of_nat (length pre)) t str =
    (pre ++ str ++ post, Z.of_nat (length pre + length str)).
Proof.
  intros Hstr Hmid Ht Hbuf.
  rewrite outstr_spec by (try assumption; lia).
  rewrite Nat2Z.id, take_app_length. f_equal; [|lia].
  f_equal. f_equal. rewrite drop_app_add, <- Hmid, drop_app_length. reflexivity.
Qed.

Lemma format_loop_08x (up : bool) (args : list varg) (buf : list Z) (s t : Z) :
  format_loop (if up then cstr "%08X" else cstr "%08x") Literal args buf s t =
    let '(b, s', _) :=
      format_unsigned buf s t spec_08 16 (if up then CF_UP else CF_NONE) args in
    (b, Some s').
Proof.
  destruct up.
  - change (cstr "%08X") with [37; 48; 56; 88].
    unfold format_loop.
    change (chr "%") with 37. change (chr "x") with 120. change (chr "X") with 88.
    change (chr "-") with 45. change (chr "+") with 43. change (chr " ") with 32.
    change (chr "#") with 35. change (chr "0") with 48. change (chr "9") with 57.
    change (chr "*") with 42. change (chr ".") with 46. change (chr "h") with 104.
    change (chr "l") with 108. change (chr "j") with 106. change (chr "z") with 122.
    change (chr "t") with 116. change (chr "L") with 76. change (chr "s") with 115.
    change (chr "c") with 99. change (chr "d") with 100. change (chr "i") with 105.
    change (chr "u") with 117. change (chr "o") with 111.
    cbn [Z.eqb Pos.eqb Z.leb Z.compare Pos.compare Pos.compare_cont andb orb].
    change (add_digit (with_zero spec_init) false 56) with spec_08.
    destruct (format_unsigned buf s t spec_08 16 CF_UP args) as [[b s'] args'].
    reflexivity.
  - change (cstr "%08x") with [37; 48; 56; 120].
    unfold format_loop.
    change (chr "%") with 37. change (chr "x") with 120. change (chr "X") with 88.
    change (chr "-") with 45. change (chr "+") with 43. change (chr " ") with 32.
    change (chr "#") with 35. change (chr "0") with 48. change (chr "9") with 57.
    change (chr "*") with 42. change (chr ".") with 46. change (chr "h") with 104.
    change (chr "l") with 108. change (chr "j") with 106. change (chr "z") with 122.
    change (chr "t") with 116. change (chr "L") with 76. change (chr "s") with 115.
    change (chr "c") with 99. change (chr "d") with 100. change (chr "i") with 105.
    change (chr "u") with 117. change (chr "o") with 111.
    cbn [Z.eqb Pos.eqb Z.leb Z.compare Pos.compare Pos.compare_cont andb orb].
    change (add_digit (with_zero spec_init) false 56) with spec_08.
    destruct (format_unsigned buf s t spec_08 16 CF_NONE args) as [[b s'] args'].
    reflexivity.
Qed.

Lemma outpadded_08 (sp : fmtspec) (valstr : list Z) :
  sp_left sp = false -> sp_zero sp = true -> sp_w sp = 8 ->
  is_cstr valstr -> (length valstr <= 8)%nat ->
  outpadded (replicate 9 0) 0 9 sp [] valstr =
    (replicate (8 - length valstr) 48 ++ valstr ++ [0], 8).
Proof.
  intros Hl Hz Hw Hstr Hlen. unfold outpadded. rewrite Hl, Hz, Hw.
  cbn [strlen negb andb outstr]. rewrite (is_cstr_strlen valstr Hstr).
  change (8 =? WP_NONE) with false. cbv iota. change (wrap_u32 8) with 8.
  assert (Hu : wrap_u32 (0 + Z.of_nat (length valstr)) = Z.of_nat (length valstr)).
  { unfold wrap_u32. apply Z.mod_small. lia. }
  rewrite Hu.
  assert (Hpad : Z.to_nat (if 8 >? Z.of_nat (length valstr)
                           then 8 - Z.of_nat (length valstr) else 0)
                 = (8 - length valstr)%nat).
  { destruct (8 >? Z.of_nat (length valstr)) eqn:E; lia. }
  rewrite Hpad.
  set (pad := (8 - length valstr)%nat).
  assert (Hbuf : replicate 9 0 = [] ++ replicate pad 0 ++ (replicate (length valstr) 0 ++ [0])).
  { cbn [app]. rewrite app_assoc, <- replicate_add.
    replace (pad + length valstr)%nat with 8%nat by (unfold pad; lia). reflexivity. }
  rewrite Hbuf.
  pose proof (outpad_app (chr "0") 9 pad [] (replicate pad 0)
                (replicate (length valstr) 0 ++ [0])) as Hp.
  cbn [app length Nat.add] in Hp. change (Z.of_nat 0) with 0 in Hp.
  cbn [app]. rewrite Hp by (rewrite ?length_replicate; unfold pad; lia).
  clear Hp. change (wrap_s8 (chr "0")) with 48.
  pose proof (outstr_app valstr 9 (replicate pad 48) (replicate (length valstr) 0) [0])
    as Hs.
  rewrite !length_replicate in Hs.
  rewrite Hs by (try assumption; rewrite ?length_app, ?length_replicate; cbn [length];
                 unfold pad; lia).
  f_equal. unfold pad. lia.
Qed.

Lemma format_unsigned_08 (up : bool) (v : Z) :
  0 <= v < 2 ^ 32 ->
  let d := itoa_digits 64 v 16 in
  let valstr :=
    map (upcase up) (rev (d ++ replicate (Z.to_nat (1 - Z.of_nat (length d))) 48)) in
  format_unsigned (replicate 9 0) 0 9 spec_08 16 (if up then CF_UP else CF_NONE)
      [VInt v] =
    (replicate (8 - length valstr) 48 ++ valstr ++ [0], 8, []).
Proof.
  intros Hv d valstr.
  unfold format_unsigned, va_arg_unsigned, va_int.
  cbn [sp_lenmodsz sp_alt sp_p sp_left sp_plus sp_space sp_zero sp_w spec_08 andb].
  change (0 =? 0) with true. cbv iota.
  assert (Hu : wrap_u32 v = v) by (unfold wrap_u32; apply Z.mod_small; lia).
  rewrite Hu. change (WP_NONE =? WP_NONE) with true. cbv iota.
  cbn [sp_p].
  assert (Hval : (if negb (Z.land (if up then CF_UP else CF_NONE) CF_UP =? 0)
                  then strtoupper (itoa v 16 1 (if up then CF_UP else CF_NONE))
                  else itoa v 16 1 (if up then CF_UP else CF_NONE)) = valstr).
  { unfold valstr, d. destruct up.
    - reflexivity.
    - symmetry. apply map_id. }
  assert (Hpre : (if negb (Z.land (if up then CF_UP else CF_NONE) CF_UP =? 0)
                  then strtoupper [] else []) = []) by (destruct up; reflexivity).
  rewrite Hval, Hpre.
  assert (Hd : (length d <= 8)%nat).
  { apply itoa_digits_length. change (16 ^ Z.of_nat 8) with (2 ^ 32). exact Hv. }
  assert (Hlen : (length valstr <= 8)%nat).
  { unfold valstr. rewrite length_map, length_rev, length_app, length_replicate. lia. }
  assert (Hstr : is_cstr valstr).
  { unfold valstr, is_cstr. rewrite map_rev. apply Forall_rev.
    rewrite map_app. apply Forall_app. split.
    - apply itoa_digits_chars. lia.
    - generalize (Z.to_nat (1 - Z.of_nat (length d))). intros k.
      induction k as [|k IH]; [constructor|]. cbn [replicate map]. constructor.
      + destruct up; vm_compute; (split; [discriminate|split; discriminate]).
      + exact IH. }
  rewrite outpadded_08 by (try assumption; reflexivity). reflexivity.
Qed.

(** A value printed with ["%08x"] or ["%08X"], as the fields of a newc
    header are, is what [cpio_atoi] reads back from the eight characters. *)
Theorem newc_field_round_trip (up : bool) (v : Z) :
  0 <= v < 2 ^ 31 ->
  let r := snprintf (replicate 9 0) 0 9 (if up then cstr "%08X" else cstr "%08x")
             [VInt v] in
  r.2 = 8 /\ cpio_atoi r.1 8 16 = v.
Proof.
  intros Hv r. unfold r, snprintf.
  rewrite format_loop_08x, format_unsigned_08 by lia.
  cbv zeta. cbv iota beta. change (9 =? 0) with false. change (8 <? 0 + 9) with true.
  cbv iota. cbn [fst snd]. split; [reflexivity|].
  set (d := itoa_digits 64 v 16).
  set (k := Z.to_nat (1 - Z.of_nat (length d))).
  set (valstr := map (upcase up) (rev (d ++ replicate k 48))).
  assert (Hd : (length d <= 8)%nat).
  { apply itoa_digits_length. change (16 ^ Z.of_nat 8) with (2 ^ 32). lia. }
  assert (Hlen : (length valstr <= 8)%nat).
  { unfold valstr. rewrite length_map, length_rev, length_app, length_replicate. lia. }
  set (pad := (8 - length valstr)%nat).
  assert (Hl8 : length (replicate pad 48 ++ valstr) = 8%nat).
  { rewrite length_app, length_replicate. unfold pad. lia. }
  rewrite list_insert_id.
  2: { rewrite app_assoc. change (Z.to_nat 8) with 8%nat. rewrite <- Hl8.
       rewrite lookup_app_r by lia. rewrite Nat.sub_diag. reflexivity. }
  unfold cpio_atoi. rewrite app_assoc, <- Hl8, take_app_length.
  rewrite <- (app_nil_r valstr), zeros_decode.
  assert (Hrev : rev (replicate k 48) = replicate k 48).
  { clear. induction k as [|k IH]; [reflexivity|]. cbn [replicate rev]. rewrite IH.
    symmetry. apply replicate_cons_app. }
  unfold valstr. rewrite rev_app_distr, map_app, Hrev.
  assert (Hz : map (upcase up) (replicate k 48) = replicate k 48).
  { clear. induction k as [|k IH]; [reflexivity|]. cbn [replicate map]. rewrite IH.
    destruct up; reflexivity. }
  rewrite Hz, <- app_assoc, zeros_decode.
  unfold d. rewrite (itoa_digits_decode up 64 v 0 []).
  - cbn [cpio_atoi_loop]. lia.
  - change (16 ^ Z.of_nat 64) with (2 ^ 256). lia.
  - lia.
  - lia.
Qed.

End HexFieldProperties.

Lemma newc_field_round_trip_witness :
  let r := Sprintf.snprintf (replicate 9 0) 0 9 (CString.cstr "%08x")
             [Sprintf.VInt 468] in
  0 <= 468 < 2 ^ 31 /\ r.2 = 8 /\ Cpio.cpio_atoi r.1 8 16 = 468.
Proof.
  intros r. assert (H : 0 <= 468 < 2 ^ 31) by lia.
  split; [exact H|]. exact (newc_field_round_trip false 468 H).
Defined.

Example newc_field_of_468 :
  (Sprintf.snprintf (replicate 9 0) 0 9 (CString.cstr "%08X") [Sprintf.VInt 468]).1
  = CString.cstr "000001D4" ++ [0].
Proof. vm_compute. reflexivity. Qed.
